(** * restore.cpp: video frames restored to labelled JPEG files

    A shallow embedding of [src/restore.cpp].  The program reads a list of
    labels from a text file, decodes a video with libavformat/libavcodec,
    and saves every decoded frame as [<output_dir>/<label>.jpg].

    The FFmpeg libraries, stdio, std::filesystem and the operating system
    are external to the source.  Their answers are inputs of the model:
    each function of the source takes a record holding what the library
    calls it makes return, and follows the control flow of the C++ code
    on those answers.  A call of std::filesystem that throws ends the
    function that made it, and [main], which catches nothing, with it. *)

From Stdlib Require Import ZArith Bool List String Ascii Lia.
From stdpp Require Import base gmap strings list.
From Equations Require Import Equations.

Local Open Scope string_scope.
Local Open Scope list_scope.
Local Open Scope Z_scope.

(** ** Values of the FFmpeg headers used by the source *)

Module Libav.

(** [AVERROR(EAGAIN)] and [AVERROR_EOF = FFERRTAG('E','O','F',' ')]. *)
Definition AVERROR_EAGAIN : Z := -11.
Definition AVERROR_EOF : Z := -541478725.

(** [enum AVPixelFormat]. *)
Definition AV_PIX_FMT_YUV420P : Z := 0.
Definition AV_PIX_FMT_RGB24 : Z := 2.
Definition AV_PIX_FMT_YUVJ420P : Z := 12.

(** [enum AVMediaType]. *)
Definition AVMEDIA_TYPE_VIDEO : Z := 0.
Definition AVMEDIA_TYPE_AUDIO : Z := 1.

(** [AV_NOPTS_VALUE], the time stamp of a frame from [av_frame_alloc]. *)
Definition AV_NOPTS_VALUE : Z := - 2 ^ 63.

(** The fields of [AVFrame] the source reads or writes, and its pixel
    data as an opaque byte string. *)
Record AVFrame := mkFrame {
  pts : Z;
  width : Z;
  height : Z;
  format : Z;
  data : string
}.

(** [static_cast<int>] of a [size_t]: reduction modulo 2^32, read as a
    signed 32-bit value. *)
Definition INT_MAX : Z := 2 ^ 31 - 1.

Definition static_cast_int (n : Z) : Z :=
  let m := n mod 2 ^ 32 in
  if m <? 2 ^ 31 then m else m - 2 ^ 32.

End Libav.

Import Libav.

(** ** What the program does to the outside world *)

(** Every line the source prints, one constructor per message. *)
Inductive Msg :=
  (* decode_and_save_frame *)
  | JpegEncoderNotFound
  | JpegContextAllocFailed
  | JpegEncoderOpenFailed
  | PacketAllocFailed
  | SendFrameFailed (ret : Z)
  | ReceivePacketFailed (ret : Z)
  | OutputFileOpenFailed (path : string)
  | IncompleteWrite (expected written : Z)
  (* decode_video_to_images *)
  | OutputDirCreateFailed (dir : string)
  | IndexFileMissing (path : string)
  | IndexFileOpenFailed (path : string)
  | VideoFileMissing (path : string)
  | VideoOpenFailed (path : string)
  | VideoOpenErrorCode (ret : Z)
  | StreamInfoFailed
  | NoVideoStreamOrDecoder
  | DecoderContextAllocFailed
  | CodecParametersCopyFailed
  | DecoderOpenFailed
  | FrameOrPacketAllocFailed
  | SwsContextCreateFailed
  | ReceiveFrameFailed (ret : Z)
  | ConvertedFrameAllocFailed
  | ConvertedBufferAllocFailed
  | ImageConversionFailed
  | SaveFrameFailed (path : string)
  (* main *)
  | DllDirectoryFailed (code : Z)
  | MainVideoMissing (path : string)
  | MainIndexMissing (path : string)
  | MainOutputDirFailed (dir : string)
  | ProcessingFailed (camera : string)
  | AllCamerasSucceeded
  | SomeCamerasFailed.

(** The observable actions of a run, in the order they happen. *)
Inductive event :=
  | Cerr (m : Msg)                          (* a line on std::cerr *)
  | Cout (m : Msg)                          (* a line on std::cout *)
  | Received (f : AVFrame)                  (* avcodec_receive_frame gave [f] *)
  | Unref (f : AVFrame)                     (* av_frame_unref: frame dropped *)
  | SwsGetContext                           (* sws_getContext called *)
  | ConvertedFrameAlloc                     (* av_frame_alloc for a copy *)
  | SwsScale (src : AVFrame)                (* sws_scale called on [src] *)
  | SaveFrame (f : AVFrame) (path : string) (* decode_and_save_frame called *)
  | Fopen (path : string)                   (* fopen(path.c_str(), "wb") succeeded *)
  | Pipeline (video txt dir : string).      (* decode_video_to_images called *)

(** The file system and the output so far.  [files] maps a regular file
    to its bytes and [dirs] is the set of directories.  Both are keyed by
    the file itself, not by a path: which file a path names is for the
    operating system to say (field [file_of] of the world below), and two
    paths can name one file. *)
Record State := mkState {
  files : gmap string string;
  dirs : gset string;
  out : list event
}.

Definition emit (e : event) (st : State) : State :=
  {| files := files st; dirs := dirs st; out := out st ++ [e] |}.

Definition put_file (path content : string) (st : State) : State :=
  {| files := <[path := content]> (files st); dirs := dirs st; out := out st |}.

Definition add_dir (path : string) (st : State) : State :=
  {| files := files st; dirs := {[path]} ∪ dirs st; out := out st |}.

Definition add_dirs (paths : list string) (st : State) : State :=
  {| files := files st; dirs := list_to_set paths ∪ dirs st; out := out st |}.

(** The file system holds a regular file or a directory [path]. *)
Definition fs_exists (path : string) (st : State) : bool :=
  bool_decide (is_Some (files st !! path)) || bool_decide (path ∈ dirs st).

(** How a call ends: it returns, or a call of std::filesystem inside it
    threw [filesystem_error].  The source has no handler, so the exception
    leaves every function on the stack. *)
Inductive Outcome (A : Type) : Type :=
  | Returned (a : A)
  | Thrown.

Arguments Returned {A} a.
Arguments Thrown {A}.

(** [s.c_str()] as a C function reads it: the characters before the first
    NUL of the std::string [s]. *)
Fixpoint c_str (s : string) : string :=
  match s with
  | EmptyString => EmptyString
  | String c s =>
      if Ascii.eqb c Ascii.zero then EmptyString else String c (c_str s)
  end.

(** ** Frame label source (restore.cpp:126-133) *)

Module LabelSource.

Definition newline : ascii := ascii_of_nat 10.

(** The characters up to the first newline, and what follows it. *)
Fixpoint take_line (s : string) : string * string :=
  match s with
  | EmptyString => (EmptyString, EmptyString)
  | String c rest =>
      if Ascii.eqb c newline then (EmptyString, rest)
      else let (l, r) := take_line rest in (String c l, r)
  end.

(** [std::getline(stream, line)] on a stream whose unread characters are
    [s]: at end of file nothing is extracted and the stream turns false;
    otherwise the line is stored without its newline. *)
Definition getline (s : string) : option (string * string) :=
  match s with
  | EmptyString => None
  | _ => Some (take_line s)
  end.

Lemma take_line_length s :
  (String.length (snd (take_line s)) <= String.length s)%nat.
Proof.
  induction s as [|c s IH]; simpl; [lia|].
  destruct (Ascii.eqb c newline); simpl; [lia|].
  destruct (take_line s); simpl in *; lia.
Qed.

Lemma take_line_shorter s :
  s <> EmptyString ->
  (String.length (snd (take_line s)) < String.length s)%nat.
Proof.
  destruct s as [|c s]; [congruence|]; intros _; simpl.
  pose proof (take_line_length s) as Hle.
  destruct (Ascii.eqb c newline); simpl; [lia|].
  destruct (take_line s); simpl in *; lia.
Qed.

Lemma getline_shorter s line rest :
  getline s = Some (line, rest) -> (String.length rest < String.length s)%nat.
Proof.
  intros H.
  assert (s <> EmptyString) as Hne by (intros ->; discriminate).
  pose proof (take_line_shorter s Hne) as Hlt.
  destruct s as [|c s]; [congruence|].
  change (Some (take_line (String c s)) = Some (line, rest)) in H.
  assert (take_line (String c s) = (line, rest)) as E by congruence.
  rewrite E in Hlt. exact Hlt.
Qed.

Definition inspect {A} (a : A) : {b | a = b} := exist _ a eq_refl.

(** [while (std::getline(index_file, line)) if (!line.empty())
    frame_indices.push_back(line);] *)
Equations? read_loop (s : string) (frame_indices : list string) : list string
  by wf (String.length s) lt :=
  read_loop s frame_indices with inspect (getline s) := {
    | exist _ None _ => frame_indices
    | exist _ (Some (line, rest)) Hget =>
        read_loop rest
          (if String.eqb line EmptyString then frame_indices
           else frame_indices ++ [line]) }.
Proof. eapply getline_shorter; eauto. Qed.

Definition read_labels (content : string) : list string := read_loop content [].

End LabelSource.

(** ** Frame image encoder: decode_and_save_frame (restore.cpp:22-101) *)

Module Jpeg.

(** What libavcodec and stdio answer during one call of
    [decode_and_save_frame]. *)
Record Answers := mkAnswers {
  find_encoder_ok : bool;        (* avcodec_find_encoder(AV_CODEC_ID_MJPEG) != NULL *)
  alloc_context3_ok : bool;      (* avcodec_alloc_context3 != NULL *)
  open2_ret : Z;                 (* avcodec_open2 *)
  packet_alloc_ok : bool;        (* av_packet_alloc != NULL *)
  send_frame_ret : Z;            (* avcodec_send_frame *)
  receive_packet_ret : Z;        (* avcodec_receive_packet *)
  pkt_data : string;             (* pkt->data, pkt->size bytes *)
  fopen_ok : bool;               (* fopen(output_path.c_str(), "wb") != NULL *)
  fwrite_ret : Z;                (* fwrite(pkt->data, 1, pkt->size, file) *)
  file_content : string          (* the bytes in the file after fclose(file) *)
}.

Definition pkt_size (a : Answers) : Z := Z.of_nat (String.length (pkt_data a)).

(** The configuration of the encoder context (pixel format YUVJ420P,
    time base, the width and height of [frame], the quality option) has
    no branch of its own; what it leads to is in the answers [a].

    [file_of] says which file the operating system opens for a C path.
    [fwrite] copies into the buffer of the stream and [fclose] writes the
    buffer out; the source does not look at what [fclose] returns, so the
    bytes the file holds in the end are an answer of their own. *)
Definition decode_and_save_frame (a : Answers) (file_of : string -> string)
    (frame : AVFrame) (output_path : string) (st : State) : bool * State :=
  if negb (find_encoder_ok a) then
    (false, emit (Cerr JpegEncoderNotFound) st)
  else if negb (alloc_context3_ok a) then
    (false, emit (Cerr JpegContextAllocFailed) st)
  else if open2_ret a <? 0 then
    (false, emit (Cerr JpegEncoderOpenFailed) st)
  else if negb (packet_alloc_ok a) then
    (false, emit (Cerr PacketAllocFailed) st)
  else if send_frame_ret a <? 0 then
    (false, emit (Cerr (SendFrameFailed (send_frame_ret a))) st)
  else if receive_packet_ret a <? 0 then
    (false, emit (Cerr (ReceivePacketFailed (receive_packet_ret a))) st)
  else if negb (fopen_ok a) then
    (false, emit (Cerr (OutputFileOpenFailed output_path)) st)
  else
    (* fopen with "wb" creates the file or truncates it to length zero *)
    let file := file_of (c_str output_path) in
    let st := emit (Fopen output_path) (put_file file EmptyString st) in
    let written := fwrite_ret a in
    let st :=
      if negb (written =? pkt_size a)
      then emit (Cerr (IncompleteWrite (pkt_size a) written)) st
      else st in
    let st := put_file file (file_content a) st in
    (true, st).

(** Every step before [fopen] worked: the encoder was found, allocated
    and opened, the packet allocated, the frame sent and a compressed
    packet received (restore.cpp:26-79). *)
Definition packet_produced (a : Answers) : bool :=
  find_encoder_ok a && alloc_context3_ok a && (0 <=? open2_ret a)
  && packet_alloc_ok a && (0 <=? send_frame_ret a)
  && (0 <=? receive_packet_ret a).

(** The whole call worked: a packet was produced, the file opened,
    [fwrite] took every byte of the packet, and the file holds the packet
    once it is closed. *)
Definition encode_ok (a : Answers) : bool :=
  packet_produced a && fopen_ok a && (fwrite_ret a =? pkt_size a)
  && String.eqb (file_content a) (pkt_data a).

End Jpeg.

(** ** Video decoding pipeline: decode_video_to_images (restore.cpp:104-367) *)

Module Decode.

(** An entry of [format_ctx->streams]: its [codecpar->codec_type], and
    whether [avcodec_find_decoder] knows its [codec_id]. *)
Record AVStream := mkStream {
  codec_type : Z;
  decoder_found : bool
}.

(** A packet that [av_read_frame] delivered, with the value
    [avcodec_send_packet] returns when the source submits it. *)
Record AVPacket := mkPacket {
  stream_index : Z;
  send_packet_ret : Z
}.

(** One answer of [avcodec_receive_frame]: the return value, and the
    frame it filled in when that value is not negative. *)
Record Receive := mkReceive {
  receive_ret : Z;
  received_frame : AVFrame
}.

(** What libavutil and libswscale answer while one frame is converted. *)
Record Sws := mkSws {
  frame_alloc_ok : bool;         (* av_frame_alloc != NULL *)
  get_buffer_ret : Z;            (* av_frame_get_buffer *)
  sws_scale_ret : Z;             (* sws_scale *)
  sws_scale_data : string        (* the pixels sws_scale produced *)
}.

(** What the libraries answer for one video file.  [packets] are the
    successful reads of [av_read_frame], which fails after the last one;
    [receives] are the answers of [avcodec_receive_frame] in the order
    of the calls, and once the list is used up the decoder has no frame
    to give. *)
Record Video := mkVideo {
  open_input_ret : Z;            (* avformat_open_input *)
  find_stream_info_ret : Z;      (* avformat_find_stream_info *)
  streams : list AVStream;       (* format_ctx->streams *)
  alloc_context3_ok : bool;      (* avcodec_alloc_context3 != NULL *)
  parameters_to_context_ret : Z; (* avcodec_parameters_to_context *)
  open2_ret : Z;                 (* avcodec_open2 *)
  frame_alloc : bool;            (* av_frame_alloc != NULL *)
  packet_alloc : bool;           (* av_packet_alloc != NULL *)
  pix_fmt : Z;                   (* codec_ctx->pix_fmt *)
  sws_getContext_ok : bool;      (* sws_getContext != NULL *)
  packets : list AVPacket;
  receives : list Receive
}.

(** What std::filesystem does with a path that names nothing yet. *)
Inductive Missing :=
  | CanCreate       (* exists: false; create_directories: true *)
  | NotCreated      (* exists: false; create_directories: false *)
  | CannotCreate    (* exists: false; create_directories throws *)
  | NoStatus.       (* exists throws: the status cannot be read *)

(** Everything outside the program.  The answers for a path are given
    for the std::string the source holds; the libraries and the operating
    system see its C string, and which file that reaches is [file_of]. *)
Record World := mkWorld {
  video_of : string -> Video;
  sws_of : AVFrame -> Sws;
  jpeg_of : AVFrame -> string -> Jpeg.Answers;
  ifstream_open_ok : string -> bool;
  (* the file or directory the operating system reaches by a C path *)
  file_of : string -> string;
  (* what fs::exists and fs::create_directories do with a path that
     names no file and no directory *)
  missing : string -> Missing;
  (* the directories a call of fs::create_directories makes on its way:
     the parents that did not exist *)
  made_dirs : string -> list string;
  (* the program was compiled with _WIN32 defined *)
  win32 : bool;
  SetDllDirectoryA_ok : bool;
  GetLastError : Z
}.

(** The file or directory that the path [p], a std::string, names. *)
Definition named (w : World) (p : string) : string := file_of w (c_str p).

(** [fs::exists(path)]: true for a path that names a file or directory
    of the state.  For any other path the status is either "not found",
    and the answer false, or an error, and the call throws. *)
Definition fs_exists_call (w : World) (path : string) (st : State)
    : Outcome bool :=
  if fs_exists (named w path) st then Returned true
  else match missing w path with
       | NoStatus => Thrown
       | _ => Returned false
       end.

(** [fs::create_directories] can make the directory. *)
Definition create_directories_ok (w : World) (dir : string) : bool :=
  match missing w dir with
  | CanCreate => true
  | _ => false
  end.

(** [fs::create_directories(dir)], the overload without [error_code]: it
    returns whether it created the directory and throws when it cannot.
    Parents it made on the way stay in either case. *)
Definition create_directories (w : World) (dir : string) (st : State)
    : Outcome bool * State :=
  let st := add_dirs (made_dirs w dir) st in
  match missing w dir with
  | CanCreate => (Returned true, add_dir (named w dir) st)
  | NotCreated => (Returned false, st)
  | CannotCreate | NoStatus => (Thrown, st)
  end.

(** [!fs::exists(dir) && !fs::create_directories(dir)], with the state
    the evaluation leaves. *)
Definition cannot_provide_dir (w : World) (dir : string) (st : State)
    : Outcome bool * State :=
  match fs_exists_call w dir st with
  | Thrown => (Thrown, st)
  | Returned true => (Returned false, st)
  | Returned false =>
      match create_directories w dir st with
      | (Returned created, st) => (Returned (negb created), st)
      | (Thrown, st) => (Thrown, st)
      end
  end.

(** The search for the first video stream (restore.cpp:161-172):
    [video_stream_index], and whether [codec] is not null. *)
Fixpoint find_video_stream (i : Z) (ss : list AVStream) : Z * bool :=
  match ss with
  | [] => (-1, false)
  | s :: ss =>
      if codec_type s =? AVMEDIA_TYPE_VIDEO then (i, decoder_found s)
      else find_video_stream (i + 1) ss
  end.

(** The local variables of the decode loop. *)
Record Locals := mkLocals {
  frame_count : Z;
  decoded_frames : Z;
  success : bool
}.

(** [success = false]. *)
Definition fail (l : Locals) : Locals :=
  {| frame_count := frame_count l; decoded_frames := decoded_frames l;
     success := false |}.

(** [decoded_frames++]. *)
Definition count_decoded (l : Locals) : Locals :=
  {| frame_count := frame_count l; decoded_frames := decoded_frames l + 1;
     success := success l |}.

(** [frame_count++].  The counters are C++ ints; they are incremented
    only while [frame_count] is below the label count cast to int, so
    they never leave the range of int, as the section on the counters
    shows. *)
Definition next_frame (l : Locals) : Locals :=
  {| frame_count := frame_count l + 1; decoded_frames := decoded_frames l;
     success := success l |}.

(** The constants of one run of the decode loop. *)
Record Job := mkJob {
  output_dir : string;
  frame_indices : list string;
  sws_ctx : bool                 (* sws_ctx != NULL *)
}.

(** [output_dir + "/" + frame_indices[frame_count] + ".jpg"]. *)
Definition jpg_path (dir label : string) : string :=
  dir +:+ "/" +:+ label +:+ ".jpg".

Definition output_path (j : Job) (l : Locals) : string :=
  jpg_path (output_dir j)
    (nth (Z.to_nat (frame_count l)) (frame_indices j) EmptyString).

(** [frame_count < static_cast<int>(frame_indices.size())]. *)
Definition has_label (j : Job) (l : Locals) : bool :=
  frame_count l <? static_cast_int (Z.of_nat (length (frame_indices j))).

(** The frame [sws_scale] filled: allocated by [av_frame_alloc], then
    given the format, width and height at restore.cpp:298-300. *)
Definition converted (a : Sws) (frame : AVFrame) : AVFrame :=
  {| pts := AV_NOPTS_VALUE; width := width frame; height := height frame;
     format := AV_PIX_FMT_YUV420P; data := sws_scale_data a |}.

(** The call of [decode_and_save_frame] with the bookkeeping around it
    (restore.cpp:324-329 and 349-354), then [frame_count++]. *)
Definition save (w : World) (j : Job) (output_frame : AVFrame)
    (l : Locals) (st : State) : Locals * State :=
  let path := output_path j l in
  let st := emit (SaveFrame output_frame path) st in
  let (saved, st) :=
    Jpeg.decode_and_save_frame (jpeg_of w output_frame path) (file_of w)
      output_frame path st in
  if saved then (next_frame (count_decoded l), st)
  else (next_frame (fail l), emit (Cerr (SaveFrameFailed path)) st).

(** The three steps of a conversion all worked (restore.cpp:291-318). *)
Definition conversion_ok (a : Sws) : bool :=
  frame_alloc_ok a && (0 <=? get_buffer_ret a) && (0 <? sws_scale_ret a).

(** The frame the main loop hands to the encoder. *)
Definition output_frame (w : World) (j : Job) (frame : AVFrame) : AVFrame :=
  if sws_ctx j then converted (sws_of w frame) frame else frame.

(** The state after a conversion that worked. *)
Definition after_conversion (j : Job) (frame : AVFrame) (st : State) : State :=
  if sws_ctx j then emit (SwsScale frame) (emit ConvertedFrameAlloc st) else st.

Inductive Control := Continue | Break.

(** The body of the inner loop for a frame just received
    (restore.cpp:277-336). *)
Definition frame_body (w : World) (j : Job) (frame : AVFrame)
    (l : Locals) (st : State) : Control * Locals * State :=
  if negb (has_label j l) then
    (Break, l, emit (Unref frame) st)
  else if sws_ctx j then
    let a := sws_of w frame in
    let st := emit ConvertedFrameAlloc st in
    if negb (frame_alloc_ok a) then
      (Break, fail l, emit (Cerr ConvertedFrameAllocFailed) st)
    else if get_buffer_ret a <? 0 then
      (Break, fail l, emit (Cerr ConvertedBufferAllocFailed) st)
    else
      let st := emit (SwsScale frame) st in
      if sws_scale_ret a <=? 0 then
        (Break, fail l, emit (Cerr ImageConversionFailed) st)
      else
        let (l, st) := save w j (converted a frame) l st in
        (Continue, l, st)
  else
    let (l, st) := save w j frame l st in
    (Continue, l, st).

(** The inner loop [while (true) { ret = avcodec_receive_frame ... }]
    (restore.cpp:267-337); it returns the answers not yet used. *)
Fixpoint receive_frames (w : World) (j : Job) (answers : list Receive)
    (l : Locals) (st : State) : list Receive * Locals * State :=
  match answers with
  | [] => ([], l, st)
  | r :: answers =>
      let ret := receive_ret r in
      if (ret =? AVERROR_EAGAIN) || (ret =? AVERROR_EOF) then
        (answers, l, st)
      else if ret <? 0 then
        (answers, fail l, emit (Cerr (ReceiveFrameFailed ret)) st)
      else
        let frame := received_frame r in
        match frame_body w j frame l (emit (Received frame) st) with
        | (Continue, l, st) => receive_frames w j answers l st
        | (Break, l, st) => (answers, l, st)
        end
  end.

(** The outer loop [while (true) { ret = av_read_frame ... }]
    (restore.cpp:245-341).  The test at restore.cpp:253 is never true,
    as [codec_ctx] and [packet] were checked at lines 182 and 211. *)
Fixpoint read_packets (w : World) (j : Job) (video_stream_index : Z)
    (pkts : list AVPacket) (answers : list Receive)
    (l : Locals) (st : State) : list Receive * Locals * State :=
  match pkts with
  | [] => (answers, l, st)
  | packet :: pkts =>
      if stream_index packet =? video_stream_index then
        if send_packet_ret packet <? 0 then
          read_packets w j video_stream_index pkts answers l st
        else
          let '(answers, l, st) := receive_frames w j answers l st in
          read_packets w j video_stream_index pkts answers l st
      else
        read_packets w j video_stream_index pkts answers l st
  end.

(** The loop after [avcodec_send_packet(codec_ctx, nullptr)]:
    [while (avcodec_receive_frame(codec_ctx, frame) >= 0)]
    (restore.cpp:344-357). *)
Fixpoint flush_frames (w : World) (j : Job) (answers : list Receive)
    (l : Locals) (st : State) : Locals * State :=
  match answers with
  | [] => (l, st)
  | r :: answers =>
      if receive_ret r >=? 0 then
        let frame := received_frame r in
        let st := emit (Received frame) st in
        if has_label j l then
          let (l, st) := save w j frame l st in
          flush_frames w j answers l st
        else
          flush_frames w j answers l st
      else (l, st)
  end.

(** The locals as restore.cpp:241-243 initialises them. *)
Definition initial : Locals :=
  {| frame_count := 0; decoded_frames := 0; success := true |}.

(** restore.cpp:240-366: both loops, from the initial locals. *)
Definition decode_loop (w : World) (j : Job) (video_stream_index : Z)
    (v : Video) (st : State) : Locals * State :=
  let l := initial in
  let '(answers, l, st) :=
    read_packets w j video_stream_index (packets v) (receives v) l st in
  flush_frames w j answers l st.

(** [codec_ctx->pix_fmt] is one of the two formats handed to the JPEG
    encoder without conversion (restore.cpp:222-223). *)
Definition encoder_accepts (fmt : Z) : bool :=
  (fmt =? AV_PIX_FMT_YUV420P) || (fmt =? AV_PIX_FMT_YUVJ420P).

(** restore.cpp:144-238: the video is opened and the decoder set up.
    [None] when the function has returned false, otherwise the constants
    of the decode loop, the index of the video stream and the answers for
    the video. *)
Definition open_video (w : World) (video_path output_dir : string)
    (frame_indices : list string) (st : State)
    : option (Job * Z * Video) * State :=
  let v := video_of w video_path in
  if negb (open_input_ret v =? 0) then
    (None, emit (Cerr (VideoOpenErrorCode (open_input_ret v)))
             (emit (Cerr (VideoOpenFailed video_path)) st))
  else if find_stream_info_ret v <? 0 then
    (None, emit (Cerr StreamInfoFailed) st)
  else
    let (video_stream_index, codec) := find_video_stream 0 (streams v) in
    if (video_stream_index =? -1) || negb codec then
      (None, emit (Cerr NoVideoStreamOrDecoder) st)
    else if negb (alloc_context3_ok v) then
      (None, emit (Cerr DecoderContextAllocFailed) st)
    else if parameters_to_context_ret v <? 0 then
      (None, emit (Cerr CodecParametersCopyFailed) st)
    else if open2_ret v <? 0 then
      (None, emit (Cerr DecoderOpenFailed) st)
    else if negb (frame_alloc v) || negb (packet_alloc v) then
      (None, emit (Cerr FrameOrPacketAllocFailed) st)
    else if negb (encoder_accepts (pix_fmt v)) then
      let st := emit SwsGetContext st in
      if negb (sws_getContext_ok v) then
        (None, emit (Cerr SwsContextCreateFailed) st)
      else
        (Some ({| output_dir := output_dir;
                  frame_indices := frame_indices;
                  sws_ctx := true |}, video_stream_index, v), st)
    else
      (Some ({| output_dir := output_dir;
                frame_indices := frame_indices;
                sws_ctx := false |}, video_stream_index, v), st).

(** restore.cpp:104-238, everything before the decode loop: [Returned None]
    when the function has returned false, [Returned (Some _)] when the
    decode loop is reached, [Thrown] when [fs::exists] or
    [fs::create_directories] threw.  The first event marks the call
    itself. *)
Definition prepare (w : World)
    (video_path txt_path output_dir : string) (st : State)
    : Outcome (option (Job * Z * Video)) * State :=
  let st := emit (Pipeline video_path txt_path output_dir) st in
  match cannot_provide_dir w output_dir st with
  | (Thrown, st) => (Thrown, st)
  | (Returned true, st) =>
      (Returned None, emit (Cerr (OutputDirCreateFailed output_dir)) st)
  | (Returned false, st) =>
      match fs_exists_call w txt_path st with
      | Thrown => (Thrown, st)
      | Returned false =>
          (Returned None, emit (Cerr (IndexFileMissing txt_path)) st)
      | Returned true =>
          if negb (ifstream_open_ok w txt_path) then
            (Returned None, emit (Cerr (IndexFileOpenFailed txt_path)) st)
          else
            let frame_indices :=
              LabelSource.read_labels
                (default EmptyString (files st !! named w txt_path)) in
            match fs_exists_call w video_path st with
            | Thrown => (Thrown, st)
            | Returned false =>
                (Returned None, emit (Cerr (VideoFileMissing video_path)) st)
            | Returned true =>
                let (r, st) :=
                  open_video w video_path output_dir frame_indices st in
                (Returned r, st)
            end
      end
  end.

Definition decode_video_to_images (w : World)
    (video_path txt_path output_dir : string) (st : State)
    : Outcome bool * State :=
  match prepare w video_path txt_path output_dir st with
  | (Thrown, st) => (Thrown, st)
  | (Returned None, st) => (Returned false, st)
  | (Returned (Some (j, video_stream_index, v)), st) =>
      let (l, st) := decode_loop w j video_stream_index v st in
      (Returned (success l), st)
  end.

End Decode.

(** ** Batch orchestrator: main (restore.cpp:369-431) *)

Module Main.

Import Decode.

Definition cameras : list string :=
  [ "ofilm_around_front_190_3M"; "ofilm_around_rear_190_3M";
    "ofilm_around_left_190_3M"; "ofilm_around_right_190_3M" ].

(** The path separator of the source, a backslash. *)
Definition sep : string := String (ascii_of_nat 92) EmptyString.

Definition output_base : string :=
  "c:" +:+ sep +:+ "Users" +:+ sep +:+ "bykong4" +:+ sep +:+ "Desktop"
       +:+ sep +:+ "image".
Definition video_dir : string := output_base +:+ sep +:+ "video".

Definition video_path (prefix : string) : string :=
  video_dir +:+ sep +:+ prefix +:+ ".mp4".
Definition txt_path (prefix : string) : string :=
  video_dir +:+ sep +:+ prefix +:+ ".txt".
Definition output_dir (prefix : string) : string :=
  output_base +:+ sep +:+ prefix.

(** The body of [for (const auto& prefix : cameras)]
    (restore.cpp:393-422): the value of [all_success] after it. *)
Definition camera_body (w : World) (prefix : string)
    (all_success : bool) (st : State) : Outcome bool * State :=
  match fs_exists_call w (video_path prefix) st with
  | Thrown => (Thrown, st)
  | Returned false =>
      (Returned false, emit (Cerr (MainVideoMissing (video_path prefix))) st)
  | Returned true =>
      match fs_exists_call w (txt_path prefix) st with
      | Thrown => (Thrown, st)
      | Returned false =>
          (Returned false,
           emit (Cerr (MainIndexMissing (txt_path prefix))) st)
      | Returned true =>
          match cannot_provide_dir w (output_dir prefix) st with
          | (Thrown, st) => (Thrown, st)
          | (Returned true, st) =>
              (Returned false,
               emit (Cerr (MainOutputDirFailed (output_dir prefix))) st)
          | (Returned false, st) =>
              match
                decode_video_to_images w (video_path prefix)
                  (txt_path prefix) (output_dir prefix) st
              with
              | (Thrown, st) => (Thrown, st)
              | (Returned false, st) =>
                  (Returned false, emit (Cerr (ProcessingFailed prefix)) st)
              | (Returned true, st) => (Returned all_success, st)
              end
          end
      end
  end.

Fixpoint camera_loop (w : World) (cams : list string)
    (all_success : bool) (st : State) : Outcome bool * State :=
  match cams with
  | [] => (Returned all_success, st)
  | prefix :: cams =>
      match camera_body w prefix all_success st with
      | (Thrown, st) => (Thrown, st)
      | (Returned all_success, st) => camera_loop w cams all_success st
      end
  end.

(** How the process ends: [main] returns a status, or an exception that
    nothing catches reaches [std::terminate], which aborts. *)
Inductive Exit :=
  | Status (code : Z)
  | Aborted.

(** [main].  The block under [#ifdef _WIN32] is part of the program when
    [win32] holds. *)
Definition main (w : World) (st : State) : Exit * State :=
  if win32 w && negb (SetDllDirectoryA_ok w) then
    (Status 1, emit (Cerr (DllDirectoryFailed (GetLastError w))) st)
  else
    match camera_loop w cameras true st with
    | (Thrown, st) => (Aborted, st)
    | (Returned all_success, st) =>
        let st :=
          if all_success then emit (Cout AllCamerasSucceeded) st
          else emit (Cerr SomeCamerasFailed) st in
        (Status 0, st)
    end.

End Main.

(** ** The batch, job by job *)

Module Batch.

Import Decode Main.

Definition returned_true (o : Outcome bool) : bool :=
  match o with
  | Returned true => true
  | _ => false
  end.

(** The three tests of restore.cpp:399-416 pass: the video file and the
    label file exist and the output directory exists or is created. *)
Definition preconditions_hold (w : World) (prefix : string) (st : State)
    : bool :=
  returned_true (fs_exists_call w (video_path prefix) st)
  && returned_true (fs_exists_call w (txt_path prefix) st)
  && match fst (cannot_provide_dir w (output_dir prefix) st) with
     | Returned false => true
     | _ => false
     end.

(** The outcome of one job: its preconditions hold and the pipeline,
    called once the output directory is there, returns true. *)
Definition job_outcome (w : World) (prefix : string) (st : State) : bool :=
  preconditions_hold w prefix st
  && returned_true
       (fst (decode_video_to_images w (video_path prefix) (txt_path prefix)
               (output_dir prefix)
               (snd (cannot_provide_dir w (output_dir prefix) st)))).

(** No call of std::filesystem throws, whatever path it is given. *)
Definition never_throws (w : World) : Prop :=
  forall p, missing w p = CanCreate \/ missing w p = NotCreated.

(** The state in which the job after [prefix] starts. *)
Definition after_job (w : World) (prefix : string) (st : State) : State :=
  snd (camera_body w prefix true st).

(** The outcomes of the jobs of a batch, each in the state the jobs
    before it left. *)
Fixpoint outcomes (w : World) (cams : list string) (st : State) : list bool :=
  match cams with
  | [] => []
  | prefix :: cams =>
      job_outcome w prefix st :: outcomes w cams (after_job w prefix st)
  end.

(** The pipeline calls a batch owes: one for each job whose preconditions
    hold, in the order of the jobs. *)
Fixpoint due_calls (w : World) (cams : list string) (st : State)
    : list (string * string * string) :=
  match cams with
  | [] => []
  | prefix :: cams =>
      (if preconditions_hold w prefix st
       then [(video_path prefix, txt_path prefix, output_dir prefix)]
       else [])
      ++ due_calls w cams (after_job w prefix st)
  end.

End Batch.

(** ** Reading a trace *)

Module Trace.

(** The events a run added to the output of the state it started in. *)
Definition events_since (st st' : State) : list event :=
  drop (length (out st)) (out st').

(** The frames the decoder gave, in decode-emission order. *)
Fixpoint received (E : list event) : list AVFrame :=
  match E with
  | [] => []
  | Received f :: E => f :: received E
  | _ :: E => received E
  end.

(** The frames handed to the encoder, with the path given each. *)
Fixpoint saved (E : list event) : list (AVFrame * string) :=
  match E with
  | [] => []
  | SaveFrame f p :: E => (f, p) :: saved E
  | _ :: E => saved E
  end.

(** The paths opened for writing. *)
Fixpoint fopens (E : list event) : list string :=
  match E with
  | [] => []
  | Fopen p :: E => p :: fopens E
  | _ :: E => fopens E
  end.

(** The lines written to std::cerr. *)
Fixpoint errors (E : list event) : list Msg :=
  match E with
  | [] => []
  | Cerr m :: E => m :: errors E
  | _ :: E => errors E
  end.

(** The calls of [decode_video_to_images]. *)
Fixpoint invocations (E : list event) : list (string * string * string) :=
  match E with
  | [] => []
  | Pipeline v t d :: E => (v, t, d) :: invocations E
  | _ :: E => invocations E
  end.

(** The calls into libswscale and the frame copies. *)
Definition is_conversion (e : event) : bool :=
  match e with
  | SwsGetContext | ConvertedFrameAlloc | SwsScale _ => true
  | _ => false
  end.

Fixpoint conversions (E : list event) : list event :=
  match E with
  | [] => []
  | e :: E => if is_conversion e then e :: conversions E else conversions E
  end.

(** Which path each decoded frame was saved under: the position of the
    frame in decode-emission order, counted from 0, with the path.  [n]
    is the number of frames received before [E]; the frame being saved
    is the last one received. *)
Fixpoint assignment_from (n : nat) (E : list event) : list (nat * string) :=
  match E with
  | [] => []
  | Received _ :: E => assignment_from (S n) E
  | SaveFrame _ p :: E => (pred n, p) :: assignment_from n E
  | _ :: E => assignment_from n E
  end.

Definition assignment (E : list event) : list (nat * string) :=
  assignment_from 0 E.

(** For each call of the encoder, the frame last received from the
    decoder and the frame the encoder was given. *)
Fixpoint handed_from (last : option AVFrame) (E : list event)
    : list (option AVFrame * AVFrame) :=
  match E with
  | [] => []
  | Received f :: E => handed_from (Some f) E
  | SaveFrame g _ :: E => (last, g) :: handed_from last E
  | _ :: E => handed_from last E
  end.

Definition handed (E : list event) : list (option AVFrame * AVFrame) :=
  handed_from None E.

(** For each call of the encoder, the frame last received from the
    decoder and the path the call was given: which decoded frame went
    under which name. *)
Fixpoint labelled_from (last : option AVFrame) (E : list event)
    : list (option AVFrame * string) :=
  match E with
  | [] => []
  | Received f :: E => labelled_from (Some f) E
  | SaveFrame _ p :: E => (last, p) :: labelled_from last E
  | _ :: E => labelled_from last E
  end.

Definition labelled (E : list event) : list (option AVFrame * string) :=
  labelled_from None E.

(** The frame last received at the end of [E], [last] before it. *)
Fixpoint last_frame (last : option AVFrame) (E : list event)
    : option AVFrame :=
  match E with
  | [] => last
  | Received f :: E => last_frame (Some f) E
  | _ :: E => last_frame last E
  end.

(** Messages and file openings: the events that say nothing about
    which frame meets which label. *)
Definition quiet (e : event) : bool :=
  match e with
  | Cerr _ | Cout _ | Fopen _ => true
  | _ => false
  end.

(** The events that say which frame met which label: the frames as the
    decoder gave them, and the calls of the encoder with their paths. *)
Definition decode_order (e : event) : bool :=
  match e with
  | Received _ | SaveFrame _ _ => true
  | _ => false
  end.

Fixpoint view (E : list event) : list event :=
  match E with
  | [] => []
  | e :: E => if decode_order e then e :: view E else view E
  end.

End Trace.

(** ** The lines of a text, as the label file format describes them *)

Module Lines.

Import LabelSource.

(** A text is a sequence of lines, each ended by a newline; the last
    line may lack its newline, and nothing follows the last newline.
    [cur] is the part of the current line read so far. *)
Fixpoint lines_from (cur : string) (s : string) : list string :=
  match s with
  | EmptyString => if String.eqb cur EmptyString then [] else [cur]
  | String c s =>
      if Ascii.eqb c newline then cur :: lines_from EmptyString s
      else lines_from (cur +:+ String c EmptyString) s
  end.

Definition lines_of (s : string) : list string := lines_from EmptyString s.

Definition nonempty (l : string) : bool := negb (String.eqb l EmptyString).

Definition nl : string := String newline EmptyString.

(** The text whose lines are [ls], each followed by a newline. *)
Definition unlines (ls : list string) : string :=
  fold_right (fun l s => l +:+ nl +:+ s) EmptyString ls.

(** A line holds no newline character. *)
Fixpoint newline_free (l : string) : bool :=
  match l with
  | EmptyString => true
  | String c l => negb (Ascii.eqb c newline) && newline_free l
  end.

End Lines.

(** ** Further readings of the source *)

Module Reading.

Import Decode.

(** The message of restore.cpp:92, the one failure [decode_and_save_frame]
    reports without returning false. *)
Definition is_incomplete_write (m : Msg) : bool :=
  match m with
  | IncompleteWrite _ _ => true
  | _ => false
  end.

(** The state with the events [C] added to its output. *)
Definition emits (C : list event) (st : State) : State :=
  {| files := files st; dirs := dirs st; out := out st ++ C |}.

(** A packet the outer loop hands to the decoder with success: it is of
    the selected stream and [avcodec_send_packet] takes it
    (restore.cpp:251-264). *)
Definition submitted (video_stream_index : Z) (p : AVPacket) : bool :=
  (stream_index p =? video_stream_index) && negb (send_packet_ret p <? 0).

(** The answers the flush loop gets to see: those before the first
    negative return value (restore.cpp:345). *)
Fixpoint leading_frames (answers : list Receive) : list Receive :=
  match answers with
  | [] => []
  | r :: answers =>
      if receive_ret r >=? 0 then r :: leading_frames answers else []
  end.

(** The messages the decode loop itself can print (restore.cpp:272-350),
    with those of the encoder it calls. *)
Definition from_decode_loop (m : Msg) : bool :=
  match m with
  | JpegEncoderNotFound | JpegContextAllocFailed | JpegEncoderOpenFailed
  | PacketAllocFailed | SendFrameFailed _ | ReceivePacketFailed _
  | OutputFileOpenFailed _ | IncompleteWrite _ _
  | ReceiveFrameFailed _ | ConvertedFrameAllocFailed
  | ConvertedBufferAllocFailed | ImageConversionFailed
  | SaveFrameFailed _ => true
  | _ => false
  end.

(** The three messages of the pipeline for a missing output directory,
    label file or video file (restore.cpp:109, 115, 140). *)
Definition missing_input (m : Msg) : bool :=
  match m with
  | OutputDirCreateFailed _ | IndexFileMissing _ | VideoFileMissing _ => true
  | _ => false
  end.

(** An answer of [avcodec_receive_frame] that carries a frame. *)
Definition is_frame (r : Receive) : bool := 0 <=? receive_ret r.

(** The frames among the answers, in the order the decoder gives them. *)
Definition frames (answers : list Receive) : list AVFrame :=
  map received_frame (List.filter is_frame answers).

(** The decodable frames of a video, in decode-emission order: the
    frames its decoder has to give.  They are a property of the video and
    its decoder, whatever a run makes of them. *)
Definition decodable (v : Video) : list AVFrame := frames (receives v).

(** How often the decoder must be drained before its last frame is out:
    the answers without a frame that are followed by a frame.  Every loop
    over [avcodec_receive_frame] ends at an answer without a frame. *)
Fixpoint drains_needed (answers : list Receive) : nat :=
  match answers with
  | [] => 0
  | r :: answers =>
      if is_frame r then drains_needed answers
      else if existsb is_frame answers then S (drains_needed answers)
      else 0
  end.

(** The run drains the decoder once for every packet it submits and once
    more after the last one.  The decoder delivers the video when that is
    enough for all its frames: it holds no frame back beyond the flush. *)
Definition delivers (video_stream_index : Z) (v : Video) : Prop :=
  (drains_needed (receives v)
   <= length (List.filter (submitted video_stream_index) (packets v)))%nat.

(** The decoder reports no hard error: an answer without a frame is
    "no frame yet" or "end of stream". *)
Definition no_hard_error (v : Video) : Prop :=
  forall r, In r (receives v) -> receive_ret r < 0 ->
    receive_ret r = AVERROR_EAGAIN \/ receive_ret r = AVERROR_EOF.

(** The files after encoder calls that all worked: each call, in its
    turn, leaves its packet in the file its path names. *)
Definition store (w : World) (F : gmap string string)
    (call : AVFrame * string) : gmap string string :=
  <[named w (snd call)
    := Jpeg.pkt_data (jpeg_of w (fst call) (snd call))]> F.

Definition stores (w : World) (F : gmap string string)
    (calls : list (AVFrame * string)) : gmap string string :=
  foldl (store w) F calls.

(** The files a run opened for writing. *)
Definition written_files (w : World) (E : list event) : gset string :=
  list_to_set (map (named w) (Trace.fopens E)).

(** The messages of restore.cpp:109-231, printed before the decode loop
    when the pipeline gives up. *)
Definition from_setup (m : Msg) : bool :=
  match m with
  | OutputDirCreateFailed _ | IndexFileMissing _ | IndexFileOpenFailed _
  | VideoFileMissing _ | VideoOpenFailed _ | VideoOpenErrorCode _
  | StreamInfoFailed | NoVideoStreamOrDecoder | DecoderContextAllocFailed
  | CodecParametersCopyFailed | DecoderOpenFailed | FrameOrPacketAllocFailed
  | SwsContextCreateFailed => true
  | _ => false
  end.

End Reading.

(** ** Concrete worlds *)

Module Examples.

Import Decode Lines.

Definition rgb (n : Z) : AVFrame :=
  {| pts := n; width := 4; height := 2; format := AV_PIX_FMT_RGB24;
     data := "rgb" |}.

Definition yuv (n : Z) : AVFrame :=
  {| pts := n; width := 4; height := 2; format := AV_PIX_FMT_YUV420P;
     data := "yuv" |}.

(** An encoder call where every step works and all four bytes of the
    packet reach the file. *)
Definition jpeg_fine : Jpeg.Answers :=
  {| Jpeg.find_encoder_ok := true; Jpeg.alloc_context3_ok := true;
     Jpeg.open2_ret := 0; Jpeg.packet_alloc_ok := true;
     Jpeg.send_frame_ret := 0; Jpeg.receive_packet_ret := 0;
     Jpeg.pkt_data := "JPEG"; Jpeg.fopen_ok := true; Jpeg.fwrite_ret := 4;
     Jpeg.file_content := "JPEG" |}.

(** The same, but [fwrite] takes one byte of the four. *)
Definition jpeg_short_write : Jpeg.Answers :=
  {| Jpeg.find_encoder_ok := true; Jpeg.alloc_context3_ok := true;
     Jpeg.open2_ret := 0; Jpeg.packet_alloc_ok := true;
     Jpeg.send_frame_ret := 0; Jpeg.receive_packet_ret := 0;
     Jpeg.pkt_data := "JPEG"; Jpeg.fopen_ok := true; Jpeg.fwrite_ret := 1;
     Jpeg.file_content := "J" |}.

(** [avcodec_send_frame] fails with AVERROR(EINVAL). *)
Definition jpeg_send_fails : Jpeg.Answers :=
  {| Jpeg.find_encoder_ok := true; Jpeg.alloc_context3_ok := true;
     Jpeg.open2_ret := 0; Jpeg.packet_alloc_ok := true;
     Jpeg.send_frame_ret := -22; Jpeg.receive_packet_ret := 0;
     Jpeg.pkt_data := "JPEG"; Jpeg.fopen_ok := true; Jpeg.fwrite_ret := 4;
     Jpeg.file_content := "JPEG" |}.

(** A packet is produced, but [fopen] fails. *)
Definition jpeg_fopen_fails : Jpeg.Answers :=
  {| Jpeg.find_encoder_ok := true; Jpeg.alloc_context3_ok := true;
     Jpeg.open2_ret := 0; Jpeg.packet_alloc_ok := true;
     Jpeg.send_frame_ret := 0; Jpeg.receive_packet_ret := 0;
     Jpeg.pkt_data := "JPEG"; Jpeg.fopen_ok := false; Jpeg.fwrite_ret := 0;
     Jpeg.file_content := EmptyString |}.

Definition sws_fine : Sws :=
  {| frame_alloc_ok := true; get_buffer_ret := 0; sws_scale_ret := 2;
     sws_scale_data := "yuv" |}.

(** [sws_scale] reports that it produced no output row. *)
Definition sws_no_rows : Sws :=
  {| frame_alloc_ok := true; get_buffer_ret := 0; sws_scale_ret := 0;
     sws_scale_data := EmptyString |}.

Definition frame (f : AVFrame) : Receive :=
  {| receive_ret := 0; received_frame := f |}.

Definition no_frame : AVFrame :=
  {| pts := AV_NOPTS_VALUE; width := 0; height := 0; format := -1;
     data := EmptyString |}.

Definition again : Receive :=
  {| receive_ret := AVERROR_EAGAIN; received_frame := no_frame |}.

Definition eof : Receive :=
  {| receive_ret := AVERROR_EOF; received_frame := no_frame |}.

(** A packet of stream 0 that the decoder accepts. *)
Definition video_packet : AVPacket :=
  {| stream_index := 0; send_packet_ret := 0 |}.

(** A file with one video stream that opens without trouble. *)
Definition video (fmt : Z) (pkts : list AVPacket) (rs : list Receive)
    : Video :=
  {| open_input_ret := 0; find_stream_info_ret := 0;
     streams := [ {| codec_type := AVMEDIA_TYPE_VIDEO;
                     decoder_found := true |} ];
     alloc_context3_ok := true; parameters_to_context_ret := 0;
     open2_ret := 0; frame_alloc := true; packet_alloc := true;
     pix_fmt := fmt; sws_getContext_ok := true;
     packets := pkts; receives := rs |}.

Definition world (v : Video) (sws : AVFrame -> Sws)
    (jpeg : AVFrame -> string -> Jpeg.Answers) : World :=
  {| video_of := fun _ => v; sws_of := sws; jpeg_of := jpeg;
     ifstream_open_ok := fun _ => true;
     file_of := fun p => p;
     missing := fun _ => CanCreate;
     made_dirs := fun _ => [];
     win32 := false; SetDllDirectoryA_ok := true; GetLastError := 0 |}.

(** A disk with the video, a label file of the given content, and the
    output directory. *)
Definition disk (labels : string) : State :=
  {| files := {[ "v.mp4" := "video"; "v.txt" := labels ]};
     dirs := {[ "out" ]};
     out := [] |}.

Definition labels_a_b : string := "a" +:+ nl +:+ "b" +:+ nl.

Definition labels_a : string := "a" +:+ nl.

(** The label "a" twice. *)
Definition labels_a_a : string := "a" +:+ nl +:+ "a" +:+ nl.

(** The world of [short_write_world] below, but the file cannot be
    opened. *)
Definition fopen_fails_world : World :=
  world (video AV_PIX_FMT_YUV420P [video_packet] [frame (yuv 1); again])
        (fun _ => sws_fine) (fun _ _ => jpeg_fopen_fails).

(** One frame that needs no conversion; its file is written short. *)
Definition short_write_world : World :=
  world (video AV_PIX_FMT_YUV420P [video_packet] [frame (yuv 1); again])
        (fun _ => sws_fine) (fun _ _ => jpeg_short_write).

(** Two frames of a stream that needs no conversion, one per packet. *)
Definition plain_world : World :=
  world (video AV_PIX_FMT_YUV420P [video_packet; video_packet]
           [frame (yuv 1); again; frame (yuv 2); again; eof])
        (fun _ => sws_fine) (fun _ _ => jpeg_fine).

(** Two frames for two packets; the decoder gives the first one at once
    and holds the second one back until it is flushed. *)
Definition held_back_world : World :=
  world (video AV_PIX_FMT_YUV420P [video_packet; video_packet]
           [frame (yuv 1); again; again; frame (yuv 2); eof])
        (fun _ => sws_fine) (fun _ _ => jpeg_fine).

(** The world of [plain_world] with an encoder that always fails. *)
Definition failing_encoder_world : World :=
  world (video AV_PIX_FMT_YUV420P [video_packet; video_packet]
           [frame (yuv 1); again; frame (yuv 2); again; eof])
        (fun _ => sws_fine) (fun _ _ => jpeg_send_fails).

(** A stream in RGB24, which the encoder does not accept.  The decoder
    gives one frame for each of two packets; the conversion of the first
    frame produces nothing, the conversion of the second one works. *)
Definition conversion_fails_world : World :=
  world (video AV_PIX_FMT_RGB24 [video_packet; video_packet]
           [frame (rgb 1); frame (rgb 2); again])
        (fun f => if pts f =? 1 then sws_no_rows else sws_fine)
        (fun _ _ => jpeg_fine).

(** The video of [conversion_fails_world] in a world where every
    conversion works. *)
Definition conversion_works_world : World :=
  world (video AV_PIX_FMT_RGB24 [video_packet; video_packet]
           [frame (rgb 1); frame (rgb 2); again])
        (fun _ => sws_fine) (fun _ _ => jpeg_fine).

(** A stream whose codec context says RGB24, while the frame the decoder
    gives is in YUV420P, a format the encoder accepts. *)
Definition mixed_world : World :=
  world (video AV_PIX_FMT_RGB24 [video_packet] [frame (yuv 1); again; eof])
        (fun _ => sws_fine) (fun _ _ => jpeg_fine).

(** A stream in RGB24 whose decoder holds its only frame back until it
    is flushed. *)
Definition buffered_world : World :=
  world (video AV_PIX_FMT_RGB24 [video_packet] [again; frame (rgb 1); eof])
        (fun _ => sws_fine) (fun _ _ => jpeg_fine).

(** The same stream with a decoder that gives the frame at once. *)
Definition unbuffered_world : World :=
  world (video AV_PIX_FMT_RGB24 [video_packet] [frame (rgb 1); again; eof])
        (fun _ => sws_fine) (fun _ _ => jpeg_fine).

(** The job of [run] once the loop is reached, for a stream that needs
    no conversion and the single label "a". *)
Definition job_a : Job :=
  {| output_dir := "out"; frame_indices := ["a"]; sws_ctx := false |}.

Definition run (w : World) (labels : string) : Outcome bool * State :=
  decode_video_to_images w "v.mp4" "v.txt" "out" (disk labels).

(** A batch of two cameras: the video of "front" is missing, "rear" has
    its video and its label file. *)
Definition batch_disk : State :=
  {| files := {[ Main.video_path "rear" := "video";
                 Main.txt_path "rear" := labels_a;
                 Main.txt_path "front" := labels_a ]};
     dirs := ∅;
     out := [] |}.

(** The disk [main] expects: a video and a label file, with the one
    label a, for each of the four cameras; no output directory yet. *)
Definition camera_files (prefix : string) : list (string * string) :=
  [ (Main.video_path prefix, "video"); (Main.txt_path prefix, labels_a) ].

Definition main_disk : State :=
  {| files := list_to_map (flat_map camera_files Main.cameras);
     dirs := ∅;
     out := [] |}.

(** The world of [plain_world], except that the output directory of the
    second camera cannot be created: [fs::create_directories] throws. *)
Definition no_dir_world : World :=
  {| video_of := video_of plain_world; sws_of := sws_of plain_world;
     jpeg_of := jpeg_of plain_world;
     ifstream_open_ok := fun _ => true;
     file_of := fun p => p;
     missing := fun p =>
       if String.eqb p (Main.output_dir "ofilm_around_rear_190_3M")
       then CannotCreate else CanCreate;
     made_dirs := fun _ => [];
     win32 := false; SetDllDirectoryA_ok := true; GetLastError := 0 |}.

(** A disk with the video but without label file; the output directory
    does not exist yet. *)
Definition disk_without_labels : State :=
  {| files := {[ "v.mp4" := "video" ]}; dirs := ∅; out := [] |}.

End Examples.

(** * Properties *)

(** ** Frame label source *)

Section LabelSourceFacts.

Import LabelSource Lines.

(** stdpp keeps [String.append] from unfolding under [simpl]; these are
    its two equations. *)
Lemma append_nil_l (s : string) : EmptyString +:+ s = s.
Proof. reflexivity. Qed.

Lemma append_cons (c : ascii) (a b : string) :
  String c a +:+ b = String c (a +:+ b).
Proof. reflexivity. Qed.

Lemma append_empty_r (s : string) : s +:+ EmptyString = s.
Proof.
  induction s as [|c s IH]; [reflexivity|]. now rewrite append_cons, IH.
Qed.

Lemma append_assoc (a b c : string) : (a +:+ b) +:+ c = a +:+ (b +:+ c).
Proof.
  induction a as [|x a IH]; [reflexivity|]. now rewrite !append_cons, IH.
Qed.

(** The first line of a text that is not at its end is what [take_line]
    cuts off, and the other lines are the lines of the rest. *)
Lemma lines_from_take_line (s cur : string) :
  s <> EmptyString ->
  lines_from cur s
  = (cur +:+ fst (take_line s)) :: lines_from EmptyString (snd (take_line s)).
Proof.
  revert cur. induction s as [|c s IH]; intros cur Hne; [congruence|].
  simpl. destruct (Ascii.eqb c newline) eqn:Hc; simpl.
  - now rewrite append_empty_r.
  - destruct s as [|d s].
    + simpl.
      destruct (String.eqb _ _) eqn:He; [|reflexivity].
      apply String.eqb_eq in He. destruct cur; discriminate.
    + rewrite IH by congruence.
      destruct (take_line (String d s)) as [l r]; simpl.
      now rewrite append_assoc, append_cons, append_nil_l.
Qed.

Lemma read_loop_lines (s : string) (acc : list string) :
  read_loop s acc = acc ++ List.filter nonempty (lines_of s).
Proof.
  funelim (read_loop s acc).
  - match goal with IH : read_loop _ _ = (_ ++ _)%list |- _ => rewrite IH end.
    assert (s <> EmptyString) as Hne by (intros ->; discriminate).
    unfold lines_of at 2. rewrite (lines_from_take_line s EmptyString Hne).
    assert (take_line s = (line, rest)) as E.
    { destruct s as [|c s]; [congruence|].
      change (Some (take_line (String c s)) = Some (line, rest)) in Hget.
      congruence. }
    rewrite E, append_nil_l. cbn [fst snd List.filter].
    fold (lines_of rest).
    assert (nonempty line = negb (String.eqb line EmptyString)) as Hn
      by reflexivity.
    rewrite Hn in *.
    destruct (String.eqb line EmptyString); simpl.
    + reflexivity.
    + now rewrite <- app_assoc.
  - destruct s; [|discriminate]. simpl. now rewrite app_nil_r.
Qed.

Lemma lines_from_line (l s cur : string) :
  newline_free l = true ->
  lines_from cur (l +:+ nl +:+ s) = (cur +:+ l) :: lines_from EmptyString s.
Proof.
  revert cur. induction l as [|c l IH]; intros cur Hl.
  - rewrite append_nil_l. unfold nl. rewrite append_cons, append_nil_l.
    simpl. rewrite ?Ascii.eqb_refl. now rewrite append_empty_r.
  - simpl in Hl. apply andb_true_iff in Hl as [Hc Hl].
    apply negb_true_iff in Hc.
    rewrite append_cons. simpl. rewrite Hc, IH by assumption.
    now rewrite append_assoc, append_cons, append_nil_l.
Qed.

Lemma lines_of_unlines (ls : list string) :
  forallb newline_free ls = true -> lines_of (unlines ls) = ls.
Proof.
  induction ls as [|l ls IH]; simpl; intros H; [reflexivity|].
  apply andb_true_iff in H as [Hl Hls]. unfold lines_of.
  rewrite lines_from_line by assumption. simpl. f_equal. now apply IH.
Qed.

(** C7: the label source returns the non-empty lines of the label file,
    verbatim and in file order, and drops only the empty ones; the lines
    a, an empty line, b give the two labels a and b. *)
Theorem C7_labels_are_nonempty_lines :
  (forall content : string,
      read_labels content = List.filter nonempty (lines_of content))
  /\ read_labels (unlines ["a"; EmptyString; "b"]) = ["a"; "b"].
Proof.
  split; [|reflexivity].
  intros content. unfold read_labels. now rewrite read_loop_lines.
Qed.

(** Seen from the lines: a file written as the lines [ls] gives back
    exactly those of [ls] that are not empty. *)
Lemma read_labels_unlines (ls : list string) :
  forallb newline_free ls = true ->
  read_labels (unlines ls) = List.filter nonempty ls.
Proof.
  intros H. unfold read_labels.
  now rewrite read_loop_lines, lines_of_unlines.
Qed.

End LabelSourceFacts.

(** ** Traces *)

Section TraceFacts.

Import Trace.

Lemma events_since_app (st st' : State) (E : list event) :
  out st' = out st ++ E -> events_since st st' = E.
Proof. intros H. unfold events_since. rewrite H. apply drop_app_length. Qed.

Lemma events_since_emit (st : State) (e : event) :
  events_since st (emit e st) = [e].
Proof. now apply events_since_app. Qed.

Lemma fopens_app (E E' : list event) :
  fopens (E ++ E') = fopens E ++ fopens E'.
Proof.
  induction E as [|e E IH]; [reflexivity|].
  destruct e; simpl; now rewrite ?IH.
Qed.

Lemma received_app (E E' : list event) :
  received (E ++ E') = received E ++ received E'.
Proof.
  induction E as [|e E IH]; [reflexivity|].
  destruct e; simpl; now rewrite ?IH.
Qed.

Lemma saved_app (E E' : list event) :
  saved (E ++ E') = saved E ++ saved E'.
Proof.
  induction E as [|e E IH]; [reflexivity|].
  destruct e; simpl; now rewrite ?IH.
Qed.

Lemma errors_app (E E' : list event) :
  errors (E ++ E') = errors E ++ errors E'.
Proof.
  induction E as [|e E IH]; [reflexivity|].
  destruct e; simpl; now rewrite ?IH.
Qed.

Lemma invocations_app (E E' : list event) :
  invocations (E ++ E') = invocations E ++ invocations E'.
Proof.
  induction E as [|e E IH]; [reflexivity|].
  destruct e; simpl; now rewrite ?IH.
Qed.

Lemma conversions_app (E E' : list event) :
  conversions (E ++ E') = conversions E ++ conversions E'.
Proof.
  induction E as [|e E IH]; [reflexivity|].
  destruct e; simpl; now rewrite ?IH.
Qed.

Lemma assignment_from_app (n : nat) (E E' : list event) :
  assignment_from n (E ++ E')
  = assignment_from n E ++ assignment_from (n + length (received E)) E'.
Proof.
  revert n. induction E as [|e E IH]; intros n; simpl.
  - now rewrite Nat.add_0_r.
  - destruct e; simpl; rewrite ?IH; try reflexivity.
    now rewrite Nat.add_succ_r.
Qed.

Lemma handed_from_app (last : option AVFrame) (E E' : list event) :
  handed_from last (E ++ E')
  = handed_from last E ++ handed_from (last_frame last E) E'.
Proof.
  revert last. induction E as [|e E IH]; intros last; simpl; [reflexivity|].
  destruct e; simpl; rewrite ?IH; reflexivity.
Qed.

Lemma labelled_from_app (last : option AVFrame) (E E' : list event) :
  labelled_from last (E ++ E')
  = labelled_from last E ++ labelled_from (last_frame last E) E'.
Proof.
  revert last. induction E as [|e E IH]; intros last; simpl; [reflexivity|].
  destruct e; simpl; rewrite ?IH; reflexivity.
Qed.

Lemma last_frame_app (last : option AVFrame) (E E' : list event) :
  last_frame last (E ++ E') = last_frame (last_frame last E) E'.
Proof.
  revert last. induction E as [|e E IH]; intros last; simpl; [reflexivity|].
  destruct e; simpl; rewrite ?IH; reflexivity.
Qed.

Lemma view_app (E E' : list event) : view (E ++ E') = view E ++ view E'.
Proof.
  induction E as [|e E IH]; [reflexivity|].
  destruct e; simpl; now rewrite ?IH.
Qed.

(** Quiet events leave every reading of the decode order unchanged. *)
Section Quiet.

Variable B : list event.
Hypothesis HB : forallb quiet B = true.

Lemma quiet_view : view B = [].
Proof.
  induction B as [|e B' IH]; [reflexivity|]. simpl in HB.
  apply andb_true_iff in HB as [He HB'].
  destruct e; try discriminate; simpl; now apply IH.
Qed.

Lemma quiet_received : received B = [].
Proof.
  induction B as [|e B' IH]; [reflexivity|]. simpl in HB.
  apply andb_true_iff in HB as [He HB'].
  destruct e; try discriminate; simpl; now apply IH.
Qed.

Lemma quiet_saved : saved B = [].
Proof.
  induction B as [|e B' IH]; [reflexivity|]. simpl in HB.
  apply andb_true_iff in HB as [He HB'].
  destruct e; try discriminate; simpl; now apply IH.
Qed.

Lemma quiet_conversions : conversions B = [].
Proof.
  induction B as [|e B' IH]; [reflexivity|]. simpl in HB.
  apply andb_true_iff in HB as [He HB'].
  destruct e; try discriminate; simpl; now apply IH.
Qed.

Lemma quiet_invocations : invocations B = [].
Proof.
  induction B as [|e B' IH]; [reflexivity|]. simpl in HB.
  apply andb_true_iff in HB as [He HB'].
  destruct e; try discriminate; simpl; now apply IH.
Qed.

Lemma quiet_assignment n : assignment_from n B = [].
Proof.
  induction B as [|e B' IH]; [reflexivity|]. simpl in HB.
  apply andb_true_iff in HB as [He HB'].
  destruct e; try discriminate; simpl; now apply IH.
Qed.

Lemma quiet_handed last : handed_from last B = [].
Proof.
  induction B as [|e B' IH]; [reflexivity|]. simpl in HB.
  apply andb_true_iff in HB as [He HB'].
  destruct e; try discriminate; simpl; now apply IH.
Qed.

Lemma quiet_labelled last : labelled_from last B = [].
Proof.
  induction B as [|e B' IH]; [reflexivity|]. simpl in HB.
  apply andb_true_iff in HB as [He HB'].
  destruct e; try discriminate; simpl; now apply IH.
Qed.

Lemma quiet_last_frame last : last_frame last B = last.
Proof.
  induction B as [|e B' IH]; [reflexivity|]. simpl in HB.
  apply andb_true_iff in HB as [He HB'].
  destruct e; try discriminate; simpl; now apply IH.
Qed.

End Quiet.

Lemma assignment_from_view n E :
  assignment_from n E = assignment_from n (view E).
Proof.
  revert n. induction E as [|e E IH]; intros n; [reflexivity|].
  destruct e; simpl; rewrite ?IH; reflexivity.
Qed.

End TraceFacts.

(** ** Frame image encoder *)

Section JpegFacts.

Import Jpeg Trace.

(** What a call leaves when no packet was produced: one message, and
    the files as they were. *)
Lemma decode_and_save_frame_no_packet a file frame path st :
  packet_produced a = false ->
  exists m,
    decode_and_save_frame a file frame path st = (false, emit (Cerr m) st).
Proof.
  unfold packet_produced, decode_and_save_frame. intros H.
  destruct (find_encoder_ok a); simpl in *; [|eauto].
  destruct (alloc_context3_ok a); simpl in *; [|eauto].
  destruct (open2_ret a <? 0) eqn:H1; [eauto|].
  destruct (packet_alloc_ok a); simpl in *;
    [|rewrite andb_false_r in H; eauto].
  destruct (send_frame_ret a <? 0) eqn:H2; [eauto|].
  destruct (receive_packet_ret a <? 0) eqn:H3; [eauto|].
  apply Z.ltb_ge in H1, H2, H3. apply Z.leb_le in H1, H2, H3.
  rewrite H1, H2, H3 in H. discriminate.
Qed.

(** What a call leaves when the file was opened. *)
Lemma decode_and_save_frame_written a file frame path st :
  packet_produced a = true -> fopen_ok a = true ->
  decode_and_save_frame a file frame path st
  = (true,
     let st' := emit (Fopen path) (put_file (file (c_str path)) EmptyString st) in
     put_file (file (c_str path)) (file_content a)
       (if negb (fwrite_ret a =? pkt_size a)
        then emit (Cerr (IncompleteWrite (pkt_size a) (fwrite_ret a))) st'
        else st')).
Proof.
  unfold packet_produced, decode_and_save_frame. intros H Hf.
  repeat (apply andb_true_iff in H as [H ?]).
  repeat match goal with
         | Hle : (0 <=? _) = true |- _ =>
             apply Z.leb_le in Hle; apply Z.ltb_ge in Hle; rewrite Hle
         end.
  rewrite H, Hf. repeat match goal with Hb : _ = true |- _ => rewrite Hb end.
  reflexivity.
Qed.

(** C10: when the encoder fails before it has produced a packet (lookup,
    allocation, open, packet allocation, send-frame or receive-packet),
    the call returns false, no path is opened for writing, and the file
    system is as before: the destination is neither created nor
    overwritten. *)
Theorem C10_no_packet_no_file a file frame path st :
  packet_produced a = false ->
  fst (decode_and_save_frame a file frame path st) = false
  /\ files (snd (decode_and_save_frame a file frame path st)) = files st
  /\ dirs (snd (decode_and_save_frame a file frame path st)) = dirs st
  /\ fopens (events_since st
               (snd (decode_and_save_frame a file frame path st))) = [].
Proof.
  intros H.
  destruct (decode_and_save_frame_no_packet a file frame path st H) as [m ->].
  simpl. now rewrite events_since_emit.
Qed.

Lemma C10_witness :
  packet_produced Examples.jpeg_send_fails = false
  /\ files (snd (decode_and_save_frame Examples.jpeg_send_fails (fun p => p)
                   (Examples.yuv 1) "out/a.jpg" (Examples.disk EmptyString)))
     = files (Examples.disk EmptyString).
Proof.
  split; [reflexivity|].
  apply (C10_no_packet_no_file Examples.jpeg_send_fails (fun p => p)
           (Examples.yuv 1) "out/a.jpg" (Examples.disk EmptyString)).
  reflexivity.
Defined.

(** The path is opened for writing only after a packet was produced. *)
Lemma fopen_needs_packet a file frame path st p :
  In p (fopens (events_since st
                  (snd (decode_and_save_frame a file frame path st)))) ->
  packet_produced a = true /\ fopen_ok a = true /\ p = path.
Proof.
  intros Hin. destruct (packet_produced a) eqn:Hp.
  - destruct (fopen_ok a) eqn:Hf.
    + split; [reflexivity|]. split; [reflexivity|].
      rewrite decode_and_save_frame_written in Hin by assumption.
      cbn [snd] in Hin.
      destruct (negb (fwrite_ret a =? pkt_size a));
        erewrite events_since_app in Hin by (simpl; reflexivity || (rewrite <- app_assoc; reflexivity));
        simpl in Hin; intuition congruence.
    + exfalso. revert Hin. unfold decode_and_save_frame.
      unfold packet_produced in Hp.
      repeat (apply andb_true_iff in Hp as [Hp ?]).
      repeat match goal with
             | Hle : (0 <=? _) = true |- _ =>
                 apply Z.leb_le in Hle; apply Z.ltb_ge in Hle; rewrite Hle
             end.
      rewrite Hp, Hf.
      repeat match goal with Hb : _ = true |- _ => rewrite Hb end.
      simpl. rewrite events_since_emit. simpl. tauto.
  - destruct (decode_and_save_frame_no_packet a file frame path st Hp)
      as [m Hm].
    rewrite Hm in Hin. cbn [snd] in Hin. rewrite events_since_emit in Hin.
    destruct Hin.
Qed.

End JpegFacts.

(** ** The decode loop, step by step *)

Section StepFacts.

Import Jpeg Decode Trace.

Variable w : World.
Variable j : Job.

(** The encoder only prints messages and opens its file. *)
Lemma decode_and_save_frame_quiet a file frame path st :
  exists B, forallb quiet B = true
    /\ out (snd (decode_and_save_frame a file frame path st)) = out st ++ B.
Proof.
  unfold decode_and_save_frame.
  repeat match goal with
         | |- context [if ?c then _ else _] => destruct c
         end; cbn [snd emit put_file out];
    rewrite <- ?app_assoc; eexists; (split; [|reflexivity]); reflexivity.
Qed.

(** A call of [save] hands the frame over under the path of the current
    label and always moves the label cursor by one. *)
Lemma save_spec f l st :
  exists B, forallb quiet B = true
    /\ out (snd (save w j f l st))
       = out st ++ SaveFrame f (output_path j l) :: B
    /\ frame_count (fst (save w j f l st)) = frame_count l + 1.
Proof.
  unfold save.
  destruct (decode_and_save_frame_quiet (jpeg_of w f (output_path j l))
              (file_of w) f
              (output_path j l) (emit (SaveFrame f (output_path j l)) st))
    as (B & HB & Hout).
  destruct (decode_and_save_frame _ _ _ _ _) as [saved st'] eqn:E.
  cbn [snd] in Hout. destruct saved; cbn [fst snd].
  - exists B. split; [assumption|]. split; [|reflexivity].
    rewrite Hout. cbn [emit out]. now rewrite <- app_assoc.
  - exists (B ++ [Cerr (SaveFrameFailed (output_path j l))]).
    split; [rewrite forallb_app, HB; reflexivity|]. split; [|reflexivity].
    cbn [emit out]. rewrite Hout. cbn [emit out].
    now rewrite <- !app_assoc.
Qed.

(** With an encoder call that works, [save] counts the frame, leaves the
    success flag alone and opens exactly the file of the label. *)
Lemma save_ok f l st :
  encode_ok (jpeg_of w f (output_path j l)) = true ->
  fst (save w j f l st) = next_frame (count_decoded l)
  /\ out (snd (save w j f l st))
     = out st ++ [SaveFrame f (output_path j l); Fopen (output_path j l)].
Proof.
  unfold encode_ok. intros H.
  apply andb_true_iff in H as [H _].
  apply andb_true_iff in H as [H Hw]. apply andb_true_iff in H as [Hp Hf].
  unfold save. rewrite decode_and_save_frame_written by assumption.
  rewrite Hw. cbn. split; [reflexivity|]. now rewrite <- app_assoc.
Qed.

(** A frame that has a label and whose conversion, if one is needed,
    works reaches [save], and the inner loop goes on. *)
Lemma frame_body_saves f l st :
  has_label j l = true ->
  (sws_ctx j = true -> conversion_ok (sws_of w f) = true) ->
  frame_body w j f l st
  = (Continue, fst (save w j (output_frame w j f) l (after_conversion j f st)),
     snd (save w j (output_frame w j f) l (after_conversion j f st))).
Proof.
  intros Hl Hc. unfold frame_body, output_frame, after_conversion.
  rewrite Hl. cbn [negb]. destruct (sws_ctx j).
  - specialize (Hc eq_refl). unfold conversion_ok in Hc.
    apply andb_true_iff in Hc as [Hc H3]. apply andb_true_iff in Hc as [H1 H2].
    apply Z.leb_le in H2. apply Z.ltb_ge in H2.
    apply Z.ltb_lt in H3. apply Z.leb_gt in H3.
    rewrite H1, H2, H3. cbn [negb].
    destruct (save _ _ _ _ _); reflexivity.
  - destruct (save _ _ _ _ _); reflexivity.
Qed.

(** A frame that has a label but whose conversion fails: the inner loop
    is left with the failure recorded, and the label cursor has not
    moved. *)
Lemma frame_body_conversion_fails f l st :
  has_label j l = true -> sws_ctx j = true ->
  conversion_ok (sws_of w f) = false ->
  exists B, forallb (fun e => quiet e || is_conversion e) B = true
    /\ frame_body w j f l st
       = (Break, fail l,
          {| files := files st; dirs := dirs st; out := out st ++ B |}).
Proof.
  intros Hl Hs Hc. unfold frame_body. rewrite Hl, Hs. cbn [negb].
  unfold conversion_ok in Hc.
  destruct (frame_alloc_ok (sws_of w f)); cbn [negb andb] in *.
  - destruct (get_buffer_ret (sws_of w f) <? 0) eqn:H2.
    + eexists. split; [|unfold emit; cbn; rewrite <- app_assoc; reflexivity].
      reflexivity.
    + apply Z.ltb_ge in H2. apply Z.leb_le in H2. rewrite H2 in Hc.
      cbn [andb] in Hc. apply Z.ltb_ge in Hc. apply Z.leb_le in Hc.
      rewrite Hc.
      eexists. split; [|unfold emit; cbn; rewrite <- !app_assoc; reflexivity].
      reflexivity.
  - eexists. split; [|unfold emit; cbn; rewrite <- app_assoc; reflexivity].
    reflexivity.
Qed.

(** A frame that finds no label left is dropped. *)
Lemma frame_body_no_label f l st :
  has_label j l = false ->
  frame_body w j f l st = (Break, l, emit (Unref f) st).
Proof. intros Hl. unfold frame_body. now rewrite Hl. Qed.

End StepFacts.

(** ** Invariants of the decode loop *)

Section LoopInvariant.

Import Decode.

Variable w : World.
Variable j : Job.

(** [P] holds of every answer of the decoder, [I] is the invariant. *)
Variable P : Receive -> Prop.
Variable I : Locals -> State -> Prop.

Hypothesis I_error : forall r l st,
  P r -> receive_ret r < 0 ->
  receive_ret r <> AVERROR_EAGAIN -> receive_ret r <> AVERROR_EOF ->
  I l st ->
  I (fail l) (emit (Cerr (ReceiveFrameFailed (receive_ret r))) st).

Hypothesis I_body : forall r l st c l' st',
  P r -> 0 <= receive_ret r -> I l st ->
  frame_body w j (received_frame r) l (emit (Received (received_frame r)) st)
  = (c, l', st') ->
  I l' st'.

Hypothesis I_flush_save : forall r l st,
  P r -> 0 <= receive_ret r -> I l st -> has_label j l = true ->
  I (fst (save w j (received_frame r) l (emit (Received (received_frame r)) st)))
    (snd (save w j (received_frame r) l (emit (Received (received_frame r)) st))).

Hypothesis I_flush_drop : forall r l st,
  P r -> 0 <= receive_ret r -> I l st -> has_label j l = false ->
  I l (emit (Received (received_frame r)) st).

Lemma receive_frames_inv answers l st answers' l' st' :
  Forall P answers -> I l st ->
  receive_frames w j answers l st = (answers', l', st') ->
  Forall P answers' /\ I l' st'.
Proof.
  revert l st. induction answers as [|r answers IH]; intros l st HP HI Heq.
  - simpl in Heq. injection Heq as <- <- <-. auto.
  - apply Forall_cons in HP as [Hr HP]. simpl in Heq.
    destruct ((receive_ret r =? AVERROR_EAGAIN) || (receive_ret r =? AVERROR_EOF))
      eqn:Hno.
    + injection Heq as <- <- <-. auto.
    + apply orb_false_iff in Hno as [H1 H2].
      apply Z.eqb_neq in H1, H2.
      destruct (receive_ret r <? 0) eqn:Hneg.
      * injection Heq as <- <- <-. apply Z.ltb_lt in Hneg. auto.
      * apply Z.ltb_ge in Hneg.
        destruct (frame_body _ _ _ _ _) as [[c l1] st1] eqn:Hb.
        pose proof (I_body _ _ _ _ _ _ Hr Hneg HI Hb) as HI1.
        destruct c.
        -- eapply IH; eauto.
        -- injection Heq as <- <- <-. auto.
Qed.

Lemma read_packets_inv vsi pkts answers l st answers' l' st' :
  Forall P answers -> I l st ->
  read_packets w j vsi pkts answers l st = (answers', l', st') ->
  Forall P answers' /\ I l' st'.
Proof.
  revert answers l st.
  induction pkts as [|p pkts IH]; intros answers l st HP HI Heq.
  - simpl in Heq. injection Heq as <- <- <-. auto.
  - simpl in Heq. destruct (stream_index p =? vsi); [|eauto].
    destruct (send_packet_ret p <? 0); [eauto|].
    destruct (receive_frames w j answers l st) as [[a1 l1] st1] eqn:Hr.
    destruct (receive_frames_inv _ _ _ _ _ _ HP HI Hr). eauto.
Qed.

Lemma flush_frames_inv answers l st :
  Forall P answers -> I l st ->
  I (fst (flush_frames w j answers l st)) (snd (flush_frames w j answers l st)).
Proof.
  revert l st. induction answers as [|r answers IH]; intros l st HP HI.
  - assumption.
  - apply Forall_cons in HP as [Hr HP]. simpl.
    destruct (receive_ret r >=? 0) eqn:Hret; [|assumption].
    apply Z.geb_le in Hret.
    destruct (has_label j l) eqn:Hl.
    + pose proof (I_flush_save r l st Hr Hret HI Hl) as HI1.
      destruct (save _ _ _ _ _) as [l1 st1]. now apply IH.
    + apply IH; [assumption|]. now apply I_flush_drop.
Qed.

Lemma decode_loop_inv vsi v st :
  Forall P (receives v) -> I initial st ->
  I (fst (decode_loop w j vsi v st)) (snd (decode_loop w j vsi v st)).
Proof.
  intros HP HI. unfold decode_loop.
  destruct (read_packets _ _ _ _ _ _ _) as [[a1 l1] st1] eqn:Hr.
  destruct (read_packets_inv _ _ _ _ _ _ _ _ HP HI Hr).
  now apply flush_frames_inv.
Qed.

End LoopInvariant.

(** ** The pipeline as a whole *)

Section PipelineFacts.

Import Jpeg Decode Trace.

Variable w : World.

Lemma frame_body_cases j f l st :
  (has_label j l = false
   /\ frame_body w j f l st = (Break, l, emit (Unref f) st))
  \/ (has_label j l = true /\ sws_ctx j = true
      /\ conversion_ok (sws_of w f) = false
      /\ exists B, forallb (fun e => quiet e || is_conversion e) B = true
           /\ frame_body w j f l st
              = (Break, fail l,
                 {| files := files st; dirs := dirs st; out := out st ++ B |}))
  \/ (has_label j l = true
      /\ (sws_ctx j = true -> conversion_ok (sws_of w f) = true)
      /\ frame_body w j f l st
         = (Continue,
            fst (save w j (output_frame w j f) l (after_conversion j f st)),
            snd (save w j (output_frame w j f) l (after_conversion j f st)))).
Proof.
  destruct (has_label j l) eqn:Hl.
  - destruct (sws_ctx j) eqn:Hs.
    + destruct (conversion_ok (sws_of w f)) eqn:Hc.
      * right; right. split; [reflexivity|]. split; [auto|].
        apply frame_body_saves; auto.
      * right; left. repeat (split; [reflexivity|]).
        now apply frame_body_conversion_fails.
    + right; right. split; [reflexivity|]. split; [discriminate|].
      apply frame_body_saves; [assumption | congruence].
  - left. split; [reflexivity|]. now apply frame_body_no_label.
Qed.

Lemma has_label_none j l :
  frame_indices j = [] -> frame_count l = 0 -> has_label j l = false.
Proof. intros Hj Hl. unfold has_label. now rewrite Hj, Hl. Qed.

End PipelineFacts.

(** ** The decode loop, outcome by outcome *)

Section Outcomes.

Import Jpeg Decode Trace Reading.

(** What [fwrite] leaves on std::cerr. *)
Definition write_report (a : Answers) : list event :=
  if negb (fwrite_ret a =? pkt_size a)
  then [Cerr (IncompleteWrite (pkt_size a) (fwrite_ret a))] else [].

Lemma write_report_cases a :
  write_report a = [] \/ exists n k, write_report a = [Cerr (IncompleteWrite n k)].
Proof. unfold write_report. destruct (negb _); eauto. Qed.

(** The two ways a call of the encoder ends. *)
Lemma decode_and_save_frame_cases a file f p st :
  (packet_produced a && fopen_ok a = true
   /\ decode_and_save_frame a file f p st
      = (true,
         {| files := <[file (c_str p) := file_content a]> (files st);
            dirs := dirs st;
            out := out st ++ Fopen p :: write_report a |}))
  \/ (packet_produced a && fopen_ok a = false
      /\ exists m, is_incomplete_write m = false /\ from_decode_loop m = true
           /\ decode_and_save_frame a file f p st = (false, emit (Cerr m) st)).
Proof.
  destruct (packet_produced a) eqn:Hp; cbn [andb].
  - destruct (fopen_ok a) eqn:Hf.
    + left. split; [reflexivity|].
      rewrite decode_and_save_frame_written by assumption.
      unfold write_report, put_file, emit. f_equal.
      destruct (negb (fwrite_ret a =? pkt_size a)); cbn;
        rewrite insert_insert_eq, <- ?app_assoc; reflexivity.
    + right. split; [reflexivity|]. exists (OutputFileOpenFailed p).
      split; [reflexivity|]. split; [reflexivity|].
      unfold packet_produced in Hp. unfold decode_and_save_frame.
      repeat (apply andb_true_iff in Hp as [Hp ?]).
      repeat match goal with
             | Hle : (0 <=? _) = true |- _ =>
                 apply Z.leb_le in Hle; apply Z.ltb_ge in Hle; rewrite Hle
             end.
      rewrite Hp, Hf.
      repeat match goal with Hb : _ = true |- _ => rewrite Hb end.
      reflexivity.
  - right. split; [reflexivity|].
    unfold packet_produced in Hp. unfold decode_and_save_frame.
    destruct (find_encoder_ok a); cbn [negb andb] in *;
      [|eexists; repeat split; reflexivity].
    destruct (Jpeg.alloc_context3_ok a); cbn [negb andb] in *;
      [|eexists; repeat split; reflexivity].
    destruct (Jpeg.open2_ret a <? 0) eqn:H1;
      [eexists; repeat split; reflexivity|].
    destruct (packet_alloc_ok a); cbn [negb andb] in *;
      [|eexists; repeat split; reflexivity].
    destruct (send_frame_ret a <? 0) eqn:H2;
      [eexists; repeat split; reflexivity|].
    destruct (receive_packet_ret a <? 0) eqn:H3;
      [eexists; repeat split; reflexivity|].
    apply Z.ltb_ge in H1, H2, H3. apply Z.leb_le in H1, H2, H3.
    rewrite H1, H2, H3 in Hp. discriminate.
Qed.

Variable w : World.
Variable j : Job.

(** The encoder call for the frame [g] under the current label opens its
    file. *)
Definition opens (g : AVFrame) (l : Locals) : bool :=
  packet_produced (jpeg_of w g (output_path j l))
  && fopen_ok (jpeg_of w g (output_path j l)).

(** The two ways [save] ends. *)
Lemma save_cases g l st :
  (opens g l = true
   /\ save w j g l st
      = (next_frame (count_decoded l),
         {| files := <[named w (output_path j l)
                       := file_content (jpeg_of w g (output_path j l))]>
                       (files st);
            dirs := dirs st;
            out := out st ++ SaveFrame g (output_path j l)
                     :: Fopen (output_path j l)
                     :: write_report (jpeg_of w g (output_path j l)) |}))
  \/ (opens g l = false
      /\ exists m, is_incomplete_write m = false /\ from_decode_loop m = true
        /\ save w j g l st
           = (next_frame (fail l),
              emits [SaveFrame g (output_path j l); Cerr m;
                     Cerr (SaveFrameFailed (output_path j l))] st)).
Proof.
  unfold save, opens.
  destruct (decode_and_save_frame_cases (jpeg_of w g (output_path j l))
              (file_of w) g
              (output_path j l) (emit (SaveFrame g (output_path j l)) st))
    as [(Hok & ->) | (Hno & m & Hm & Hm' & ->)].
  - left. split; [assumption|].
    cbn [emit files dirs out]. rewrite <- app_assoc. reflexivity.
  - right. split; [assumption|]. exists m.
    split; [assumption|]. split; [assumption|].
    unfold emit, emits. cbn. rewrite <- !app_assoc. reflexivity.
Qed.

(** A failed conversion, with what it prints. *)
Lemma frame_body_conversion_report f l st :
  has_label j l = true -> sws_ctx j = true ->
  conversion_ok (sws_of w f) = false ->
  exists B m, forallb is_conversion B = true
    /\ is_incomplete_write m = false /\ from_decode_loop m = true
    /\ frame_body w j f l st = (Break, fail l, emits (B ++ [Cerr m]) st).
Proof.
  intros Hl Hs Hc. unfold frame_body. rewrite Hl, Hs. cbn [negb].
  unfold conversion_ok in Hc.
  destruct (frame_alloc_ok (sws_of w f)); cbn [negb andb] in *.
  - destruct (get_buffer_ret (sws_of w f) <? 0) eqn:H2.
    + exists [ConvertedFrameAlloc], ConvertedBufferAllocFailed.
      repeat split. unfold emit, emits. cbn. now rewrite <- app_assoc.
    + apply Z.ltb_ge in H2. apply Z.leb_le in H2. rewrite H2 in Hc.
      cbn [andb] in Hc. apply Z.ltb_ge in Hc. apply Z.leb_le in Hc.
      rewrite Hc.
      exists [ConvertedFrameAlloc; SwsScale f], ImageConversionFailed.
      repeat split. unfold emit, emits. cbn. now rewrite <- !app_assoc.
  - exists [ConvertedFrameAlloc], ConvertedFrameAllocFailed.
    repeat split. unfold emit, emits. cbn. now rewrite <- app_assoc.
Qed.

(** A property of the locals, the files and the events of the loop that
    every step of the loop keeps holds when the loop ends. *)
Section TraceInduction.

Variable Q : Locals -> gmap string string -> list event -> Prop.

Hypothesis Q_error : forall l F E ret,
  Q l F E -> Q (fail l) F (E ++ [Cerr (ReceiveFrameFailed ret)]).

Hypothesis Q_drop : forall l F E f C,
  Q l F E -> has_label j l = false -> C = [Unref f] \/ C = [] ->
  Q l F (E ++ Received f :: C).

Hypothesis Q_conversion : forall l F E f B m,
  Q l F E -> has_label j l = true -> sws_ctx j = true ->
  conversion_ok (sws_of w f) = false ->
  forallb is_conversion B = true ->
  is_incomplete_write m = false -> from_decode_loop m = true ->
  Q (fail l) F (E ++ Received f :: B ++ [Cerr m]).

Hypothesis Q_saved : forall l F E f g B,
  Q l F E -> has_label j l = true ->
  forallb is_conversion B = true ->
  g = f /\ B = []
  \/ sws_ctx j = true /\ g = converted (sws_of w f) f
     /\ B = [ConvertedFrameAlloc; SwsScale f] ->
  opens g l = true ->
  Q (next_frame (count_decoded l))
    (<[named w (output_path j l)
       := file_content (jpeg_of w g (output_path j l))]> F)
    (E ++ Received f :: B
       ++ SaveFrame g (output_path j l) :: Fopen (output_path j l)
          :: write_report (jpeg_of w g (output_path j l))).

Hypothesis Q_not_saved : forall l F E f g B m,
  Q l F E -> has_label j l = true ->
  forallb is_conversion B = true ->
  g = f /\ B = []
  \/ sws_ctx j = true /\ g = converted (sws_of w f) f
     /\ B = [ConvertedFrameAlloc; SwsScale f] ->
  opens g l = false ->
  is_incomplete_write m = false -> from_decode_loop m = true ->
  Q (next_frame (fail l)) F
    (E ++ Received f :: B
       ++ [SaveFrame g (output_path j l); Cerr m;
           Cerr (SaveFrameFailed (output_path j l))]).

Let I (st : State) (l : Locals) (s : State) : Prop :=
  exists E, out s = out st ++ E /\ dirs s = dirs st /\ Q l (files s) E.

Lemma I_save st f g B l s :
  I st l s -> has_label j l = true -> forallb is_conversion B = true ->
  g = f /\ B = []
  \/ sws_ctx j = true /\ g = converted (sws_of w f) f
     /\ B = [ConvertedFrameAlloc; SwsScale f] ->
  I st (fst (save w j g l (emits (Received f :: B) s)))
       (snd (save w j g l (emits (Received f :: B) s))).
Proof.
  intros (E & HE & HD & HQ) Hl HB Hg.
  destruct (save_cases g l (emits (Received f :: B) s))
    as [(Hok & ->) | (Hno & m & Hm & Hm' & ->)]; cbn [fst snd].
  - eexists. cbn [emits files dirs out]. rewrite HE, <- !app_assoc.
    split; [reflexivity|]. split; [assumption|].
    cbn [app]. now apply Q_saved.
  - eexists. cbn [emits files dirs out]. rewrite HE, <- !app_assoc.
    split; [reflexivity|]. split; [assumption|].
    cbn [app]. now apply Q_not_saved.
Qed.

Lemma decode_loop_trace vsi v st :
  Q initial (files st) [] ->
  exists E, out (snd (decode_loop w j vsi v st)) = out st ++ E
    /\ dirs (snd (decode_loop w j vsi v st)) = dirs st
    /\ Q (fst (decode_loop w j vsi v st))
         (files (snd (decode_loop w j vsi v st))) E.
Proof.
  intros Hinit.
  apply (decode_loop_inv w j (fun _ => True) (I st)).
  - intros r l s _ _ _ _ (E & HE & HD & HQ).
    exists (E ++ [Cerr (ReceiveFrameFailed (receive_ret r))]).
    cbn [emit files dirs out]. rewrite HE, <- app_assoc. auto.
  - intros r l s c l' s' _ _ HI Hb. pose proof HI as (E & HE & HD & HQ).
    destruct (frame_body_cases w j (received_frame r) l
                (emit (Received (received_frame r)) s))
      as [(Hl & Hc) | [(Hl & Hs & Hk & _) | (Hl & Hk & Hc)]].
    + rewrite Hc in Hb. injection Hb as <- <- <-.
      exists (E ++ [Received (received_frame r); Unref (received_frame r)]).
      cbn [emit files dirs out]. rewrite HE, <- !app_assoc.
      split; [reflexivity|]. split; [assumption|]. apply Q_drop; auto.
    + destruct (frame_body_conversion_report (received_frame r) l
                  (emit (Received (received_frame r)) s) Hl Hs Hk)
        as (B & m & HB & Hm & Hm' & Hc).
      rewrite Hc in Hb. injection Hb as <- <- <-.
      exists (E ++ Received (received_frame r) :: B ++ [Cerr m]).
      cbn [emit emits files dirs out]. rewrite HE, <- !app_assoc.
      split; [reflexivity|]. split; [assumption|]. now apply Q_conversion.
    + rewrite Hc in Hb. injection Hb as <- <- <-.
      assert (after_conversion j (received_frame r)
                (emit (Received (received_frame r)) s)
              = emits (Received (received_frame r)
                         :: if sws_ctx j
                            then [ConvertedFrameAlloc;
                                  SwsScale (received_frame r)]
                            else []) s) as ->.
      { unfold after_conversion, emit, emits.
        destruct (sws_ctx j); cbn; now rewrite <- ?app_assoc. }
      apply I_save; [assumption | assumption | |].
      * now destruct (sws_ctx j).
      * unfold output_frame. destruct (sws_ctx j); auto.
  - intros r l s _ _ HI Hl.
    change (emit (Received (received_frame r)) s)
      with (emits (Received (received_frame r) :: []) s).
    apply I_save; auto.
  - intros r l s _ _ (E & HE & HD & HQ) Hl.
    exists (E ++ [Received (received_frame r)]).
    cbn [emit files dirs out]. rewrite HE, <- !app_assoc.
    split; [reflexivity|]. split; [assumption|]. apply Q_drop; auto.
  - apply Forall_forall. auto.
  - exists []. rewrite app_nil_r. auto.
Qed.

End TraceInduction.

End Outcomes.

(** ** What the loop keeps *)

Section LoopKeeps.

Import Jpeg Decode Trace Reading.

(** Conversion events are none of the events the readings look for. *)
Lemma conversion_events B :
  forallb is_conversion B = true ->
  received B = [] /\ saved B = [] /\ fopens B = [] /\ errors B = [].
Proof.
  induction B as [|e B IH]; [auto|]; simpl; intros H.
  apply andb_true_iff in H as [He HB].
  destruct e; try discriminate; simpl; now apply IH.
Qed.

Lemma static_cast_int_le n : 0 <= n -> static_cast_int n <= n.
Proof.
  intros Hn. unfold static_cast_int.
  pose proof (Z.mod_le n (2 ^ 32) Hn ltac:(lia)) as Hm.
  destruct (n mod 2 ^ 32 <? 2 ^ 31); lia.
Qed.

Lemma has_label_in_range j l k :
  frame_count l = Z.of_nat k -> has_label j l = true ->
  (k < length (frame_indices j))%nat.
Proof.
  unfold has_label. intros Hk Hl. apply Z.ltb_lt in Hl.
  pose proof (static_cast_int_le (Z.of_nat (length (frame_indices j)))
                ltac:(lia)).
  lia.
Qed.

Variable w : World.
Variable j : Job.

(** The cursor counts the calls of the encoder, [decoded_frames] the
    files opened; the calls went to the paths of the first labels, in
    order, one call for each. *)
Definition paths_kept (l : Locals) (E : list event) : Prop :=
  frame_count l = Z.of_nat (length (saved E))
  /\ decoded_frames l = Z.of_nat (length (fopens E))
  /\ (length (fopens E) <= length (saved E))%nat
  /\ (length (saved E) <= length (received E))%nat
  /\ (length (saved E) <= length (frame_indices j))%nat
  /\ map snd (saved E)
     = map (jpg_path (output_dir j))
         (take (length (saved E)) (frame_indices j))
  /\ fopens E `sublist_of` map snd (saved E).

Lemma paths_kept_call l E f g B M :
  paths_kept l E -> has_label j l = true ->
  forallb is_conversion B = true ->
  saved M = [] -> received M = [] ->
  forall l',
    frame_count l' = frame_count l + 1 ->
    (fopens M = [output_path j l] /\ decoded_frames l' = decoded_frames l + 1
     \/ fopens M = [] /\ decoded_frames l' = decoded_frames l) ->
    paths_kept l' (E ++ Received f :: B ++ SaveFrame g (output_path j l) :: M).
Proof.
  intros (Hfc & Hdf & H1 & H2 & H3 & Hp & Hs) Hl HB HsM HrM l' Hfc' HM.
  destruct (conversion_events B HB) as (Br & Bs & Bf & _).
  pose proof (has_label_in_range j l _ Hfc Hl) as Hlt.
  destruct (lookup_lt_is_Some_2 (frame_indices j) (length (saved E)) Hlt)
    as [label Hlab].
  assert (output_path j l = jpg_path (output_dir j) label) as Hpath.
  { unfold output_path. rewrite Hfc, Nat2Z.id, nth_lookup, Hlab. reflexivity. }
  assert (saved (E ++ Received f :: B ++ SaveFrame g (output_path j l) :: M)
          = saved E ++ [(g, output_path j l)]) as Hsv.
  { rewrite saved_app. cbn. rewrite saved_app, Bs. cbn. now rewrite HsM. }
  assert (received (E ++ Received f :: B ++ SaveFrame g (output_path j l) :: M)
          = received E ++ [f]) as Hrc.
  { rewrite received_app. cbn. rewrite received_app, Br. cbn. now rewrite HrM. }
  assert (fopens (E ++ Received f :: B ++ SaveFrame g (output_path j l) :: M)
          = fopens E ++ fopens M) as Hfo.
  { rewrite fopens_app. cbn. now rewrite fopens_app, Bf. }
  rewrite Hp in Hs.
  unfold paths_kept. rewrite Hsv, Hrc, Hfo, !length_app. cbn [length].
  rewrite Nat.add_1_r, (take_S_r _ _ _ Hlab), !map_app, Hp, Hpath. cbn.
  assert (length (fopens M) <= 1)%nat as HM1
    by (destruct HM as [[-> _] | [-> _]]; cbn; lia).
  repeat split; try lia.
  - destruct HM as [[-> ->] | [-> ->]]; cbn; lia.
  - apply sublist_app; [assumption|].
    destruct HM as [[-> _] | [-> _]]; [rewrite Hpath; reflexivity|].
    apply sublist_nil_l.
Qed.

Lemma decode_loop_paths vsi v st :
  exists E, out (snd (decode_loop w j vsi v st)) = out st ++ E
    /\ paths_kept (fst (decode_loop w j vsi v st)) E.
Proof.
  destruct (decode_loop_trace w j (fun l _ E => paths_kept l E)) with
    (vsi := vsi) (v := v) (st := st) as (E & HE & _ & HQ);
    [ | | | | | | eauto].
  - intros l F E ret (Hfc & Hdf & H1 & H2 & H3 & Hp & Hs).
    unfold paths_kept.
    rewrite saved_app, fopens_app, received_app. cbn. rewrite !app_nil_r.
    repeat split; assumption.
  - intros l F E f C (Hfc & Hdf & H1 & H2 & H3 & Hp & Hs) _ HC.
    unfold paths_kept. rewrite saved_app, fopens_app, received_app.
    destruct HC as [-> | ->]; cbn; rewrite !app_nil_r, length_app; cbn;
      repeat split; try assumption; lia.
  - intros l F E f B m (Hfc & Hdf & H1 & H2 & H3 & Hp & Hs) _ _ _ HB _ _.
    destruct (conversion_events B HB) as (Br & Bs & Bf & _).
    unfold paths_kept. rewrite saved_app, fopens_app, received_app. cbn.
    rewrite saved_app, fopens_app, received_app, Br, Bs, Bf. cbn.
    rewrite !app_nil_r, length_app. cbn.
    repeat split; try assumption; lia.
  - intros l F E f g B HK Hl HB _ _.
    apply paths_kept_call; try assumption; try reflexivity;
      try (destruct (write_report_cases (jpeg_of w g (output_path j l)))
             as [-> | (n & k & ->)]; reflexivity).
    left. split; [|reflexivity].
    destruct (write_report_cases (jpeg_of w g (output_path j l)))
      as [-> | (n & k & ->)]; reflexivity.
  - intros l F E f g B m HK Hl HB _ _ _ _.
    apply paths_kept_call; try assumption; try reflexivity.
    right. split; reflexivity.
  - unfold paths_kept. cbn. repeat split; try lia. apply sublist_nil_l.
Qed.

(** A file that no opened path names holds what it held, and no file is
    lost. *)
Definition files_kept (F0 F : gmap string string) (E : list event) : Prop :=
  (forall q, q ∉ map (named w) (fopens E) -> F !! q = F0 !! q)
  /\ (forall q, is_Some (F0 !! q) -> is_Some (F !! q)).

Lemma decode_loop_files vsi v st :
  exists E, out (snd (decode_loop w j vsi v st)) = out st ++ E
    /\ dirs (snd (decode_loop w j vsi v st)) = dirs st
    /\ files_kept (files st) (files (snd (decode_loop w j vsi v st))) E.
Proof.
  apply (decode_loop_trace w j (fun _ F E => files_kept (files st) F E)).
  - intros l F E ret (H1 & H2). split; [|assumption].
    intros p Hp. apply H1. rewrite fopens_app in Hp. cbn in Hp.
    now rewrite app_nil_r in Hp.
  - intros l F E f C (H1 & H2) _ HC. split; [|assumption].
    intros p Hp. apply H1. rewrite fopens_app in Hp.
    destruct HC as [-> | ->]; cbn in Hp; now rewrite app_nil_r in Hp.
  - intros l F E f B m (H1 & H2) _ _ _ HB _ _. split; [|assumption].
    destruct (conversion_events B HB) as (_ & _ & Bf & _).
    intros p Hp. apply H1. rewrite fopens_app in Hp. cbn in Hp.
    rewrite fopens_app, Bf in Hp. cbn in Hp. now rewrite app_nil_r in Hp.
  - intros l F E f g B (H1 & H2) _ HB _ _.
    destruct (conversion_events B HB) as (_ & _ & Bf & _).
    assert (fopens (E ++ Received f :: B
                      ++ SaveFrame g (output_path j l)
                         :: Fopen (output_path j l)
                         :: write_report (jpeg_of w g (output_path j l)))
            = fopens E ++ [output_path j l]) as Hfo.
    { rewrite fopens_app. cbn. rewrite fopens_app, Bf. cbn.
      destruct (write_report_cases (jpeg_of w g (output_path j l)))
        as [-> | (n & k & ->)]; reflexivity. }
    split.
    + intros q Hq. rewrite Hfo, map_app in Hq. cbn in Hq.
      rewrite not_elem_of_app, not_elem_of_cons in Hq.
      destruct Hq as (Hq & Hne & _).
      rewrite lookup_insert_ne by congruence. now apply H1.
    + intros q Hq. apply lookup_insert_is_Some'. auto.
  - intros l F E f g B m (H1 & H2) _ HB _ _ _ _. split; [|assumption].
    destruct (conversion_events B HB) as (_ & _ & Bf & _).
    intros p Hp. apply H1. rewrite fopens_app in Hp. cbn in Hp.
    rewrite fopens_app, Bf in Hp. cbn in Hp. now rewrite app_nil_r in Hp.
  - split; auto.
Qed.

(** The success flag is still set exactly when nothing but incomplete
    writes has been reported. *)
Lemma decode_loop_success vsi v st :
  exists E, out (snd (decode_loop w j vsi v st)) = out st ++ E
    /\ success (fst (decode_loop w j vsi v st))
       = forallb is_incomplete_write (errors E).
Proof.
  destruct (decode_loop_trace w j
              (fun l _ E => success l = forallb is_incomplete_write (errors E)))
    with (vsi := vsi) (v := v) (st := st) as (E & HE & _ & HQ);
    [ | | | | | | eauto].
  - intros l F E ret _. rewrite errors_app, forallb_app. cbn.
    now rewrite andb_false_r.
  - intros l F E f C H _ HC. rewrite errors_app.
    destruct HC as [-> | ->]; cbn; now rewrite app_nil_r.
  - intros l F E f B m _ _ _ _ HB Hm _.
    destruct (conversion_events B HB) as (_ & _ & _ & Be).
    rewrite errors_app, forallb_app. cbn. rewrite errors_app, Be. cbn.
    now rewrite Hm, andb_false_r.
  - intros l F E f g B H _ HB _ _.
    destruct (conversion_events B HB) as (_ & _ & _ & Be).
    rewrite errors_app, forallb_app. cbn. rewrite errors_app, Be. cbn.
    rewrite <- H.
    destruct (write_report_cases (jpeg_of w g (output_path j l)))
      as [-> | (n & k & ->)]; cbn; now rewrite ?andb_true_r.
  - intros l F E f g B m _ _ HB _ _ Hm _.
    destruct (conversion_events B HB) as (_ & _ & _ & Be).
    rewrite errors_app, forallb_app. cbn. rewrite errors_app, Be. cbn.
    now rewrite Hm, andb_false_r.
  - reflexivity.
Qed.

(** Every message of the loop is one of its own. *)
Lemma decode_loop_messages vsi v st :
  exists E, out (snd (decode_loop w j vsi v st)) = out st ++ E
    /\ forallb from_decode_loop (errors E) = true.
Proof.
  destruct (decode_loop_trace w j
              (fun _ _ E => forallb from_decode_loop (errors E) = true))
    with (vsi := vsi) (v := v) (st := st) as (E & HE & _ & HQ);
    [ | | | | | | eauto].
  - intros l F E ret H. rewrite errors_app, forallb_app, H. reflexivity.
  - intros l F E f C H _ HC. rewrite errors_app.
    destruct HC as [-> | ->]; cbn; now rewrite app_nil_r.
  - intros l F E f B m H _ _ _ HB _ Hm.
    destruct (conversion_events B HB) as (_ & _ & _ & Be).
    rewrite errors_app, forallb_app, H. cbn. rewrite errors_app, Be. cbn.
    now rewrite Hm.
  - intros l F E f g B H _ HB _ _.
    destruct (conversion_events B HB) as (_ & _ & _ & Be).
    rewrite errors_app, forallb_app, H. cbn. rewrite errors_app, Be. cbn.
    destruct (write_report_cases (jpeg_of w g (output_path j l)))
      as [-> | (n & k & ->)]; reflexivity.
  - intros l F E f g B m H _ HB _ _ _ Hm.
    destruct (conversion_events B HB) as (_ & _ & _ & Be).
    rewrite errors_app, forallb_app, H. cbn. rewrite errors_app, Be. cbn.
    now rewrite Hm.
  - reflexivity.
Qed.

End LoopKeeps.

(** ** Before the loop *)

Section PrepareFacts.

Import Decode Trace Reading.

Variable w : World.

Lemma fs_exists_emit p e st : fs_exists p (emit e st) = fs_exists p st.
Proof. reflexivity. Qed.

Lemma fs_exists_call_emit p e st :
  fs_exists_call w p (emit e st) = fs_exists_call w p st.
Proof. reflexivity. Qed.

Lemma fs_exists_add_dir dir st : fs_exists dir (add_dir dir st) = true.
Proof.
  unfold fs_exists, add_dir. cbn. apply orb_true_iff. right.
  apply bool_decide_eq_true. apply elem_of_union_l, elem_of_singleton.
  reflexivity.
Qed.

(** A state with the same files and at least the same directories holds
    whatever the first one holds. *)
Lemma fs_exists_mono p st st' :
  files st' = files st -> dirs st ⊆ dirs st' ->
  fs_exists p st = true -> fs_exists p st' = true.
Proof.
  unfold fs_exists. intros -> Hd H.
  apply orb_true_iff in H as [H | H]; apply orb_true_iff; [now left | right].
  apply bool_decide_eq_true in H. apply bool_decide_eq_true. auto.
Qed.

(** The two answers of [fs::exists] that are no exception. *)
Lemma fs_exists_call_returned p st b :
  fs_exists_call w p st = Returned b -> b = fs_exists (named w p) st.
Proof.
  unfold fs_exists_call. destruct (fs_exists (named w p) st).
  - now intros [= <-].
  - destruct (missing w p); now intros [= <-].
Qed.

Lemma fs_exists_call_present p st :
  fs_exists (named w p) st = true -> fs_exists_call w p st = Returned true.
Proof. unfold fs_exists_call. now intros ->. Qed.

(** Inclusions between unions of sets of directories. *)
Ltac subset_of_union :=
  apply elem_of_subseteq; intros ?;
  rewrite ?elem_of_union, ?elem_of_singleton; tauto.

(** The directories [fs::create_directories] may add. *)
Definition dirs_bound (dir : string) (st : State) : gset string :=
  {[named w dir]} ∪ (list_to_set (made_dirs w dir) ∪ dirs st).

Lemma create_directories_state dir st :
  files (snd (create_directories w dir st)) = files st
  /\ out (snd (create_directories w dir st)) = out st
  /\ dirs st ⊆ dirs (snd (create_directories w dir st))
  /\ dirs (snd (create_directories w dir st)) ⊆ dirs_bound dir st.
Proof.
  unfold create_directories, dirs_bound, add_dir, add_dirs.
  destruct (missing w dir); cbn; repeat split; subset_of_union.
Qed.

(** The directory test touches no file and prints nothing; it only adds
    directories: the output directory and the parents made for it. *)
Lemma cannot_provide_dir_state dir st :
  files (snd (cannot_provide_dir w dir st)) = files st
  /\ out (snd (cannot_provide_dir w dir st)) = out st
  /\ dirs st ⊆ dirs (snd (cannot_provide_dir w dir st))
  /\ dirs (snd (cannot_provide_dir w dir st)) ⊆ dirs_bound dir st.
Proof.
  unfold cannot_provide_dir.
  destruct (fs_exists_call w dir st) as [[|]|]; cbn [snd];
    try (unfold dirs_bound; repeat split; subset_of_union).
  pose proof (create_directories_state dir st) as H.
  destruct (create_directories w dir st) as [[created|] st']; exact H.
Qed.

(** The directory test throws, or fails and reports it, or leaves a
    state in which the directory exists. *)
Lemma cannot_provide_dir_cases dir st :
  (fst (cannot_provide_dir w dir st) = Thrown
   /\ fs_exists (named w dir) st = false
   /\ create_directories_ok w dir = false)
  \/ (fst (cannot_provide_dir w dir st) = Returned true
      /\ fs_exists (named w dir) st = false
      /\ create_directories_ok w dir = false)
  \/ (fst (cannot_provide_dir w dir st) = Returned false
      /\ (fs_exists (named w dir) st = true
          \/ create_directories_ok w dir = true)
      /\ fs_exists (named w dir) (snd (cannot_provide_dir w dir st)) = true).
Proof.
  unfold cannot_provide_dir, fs_exists_call, create_directories,
    create_directories_ok.
  destruct (fs_exists (named w dir) st) eqn:He; [right; right; auto|].
  destruct (missing w dir); cbn [fst snd negb]; auto.
  right; right. repeat split; auto. apply fs_exists_add_dir.
Qed.

Lemma cannot_provide_dir_keeps dir p st :
  fs_exists p st = true ->
  fs_exists p (snd (cannot_provide_dir w dir st)) = true.
Proof.
  destruct (cannot_provide_dir_state dir st) as (Hf & _ & Hd & _).
  now apply fs_exists_mono.
Qed.

(** What opening the video leaves in every case: files and directories
    as they were; no message and the constants of the loop when the
    decode loop is reached; otherwise what was printed, one line or the
    two lines of restore.cpp:148-149. *)
Lemma open_video_cases video dir labels st :
  files (snd (open_video w video dir labels st)) = files st
  /\ dirs (snd (open_video w video dir labels st)) = dirs st
  /\ exists C,
       out (snd (open_video w video dir labels st)) = out st ++ C
       /\ received C = [] /\ saved C = [] /\ fopens C = []
       /\ invocations C = []
       /\ forallb (fun m => negb (missing_input m)) (errors C) = true
       /\ match fst (open_video w video dir labels st) with
          | None =>
              forallb from_setup (errors C) = true
              /\ ((exists m, errors C = [m])
                  \/ exists ret,
                       errors C = [VideoOpenFailed video;
                                   VideoOpenErrorCode ret])
          | Some (j, vsi, v) =>
              C = (if sws_ctx j then [SwsGetContext] else [])
              /\ output_dir j = dir
              /\ frame_indices j = labels
              /\ sws_ctx j = negb (encoder_accepts (pix_fmt v))
              /\ v = video_of w video
              /\ vsi = fst (find_video_stream 0 (streams v))
          end.
Proof.
  unfold open_video.
  destruct (find_video_stream 0 (streams (video_of w video))) as [i codec]
    eqn:Hfind.
  repeat match goal with
         | |- context [if ?c then _ else _] => destruct c eqn:?
         end;
    cbn [fst snd emit files dirs out output_dir frame_indices sws_ctx];
    (split; [reflexivity|]); (split; [reflexivity|]);
    rewrite <- ?app_assoc;
    eexists; (split; [try reflexivity; symmetry; apply app_nil_r|]);
    cbn; rewrite ?Hfind; repeat split; eauto.
Qed.

(** What is known when the decode loop is reached. *)
Lemma prepare_some video txt dir st j vsi v st1 :
  prepare w video txt dir st = (Returned (Some (j, vsi, v)), st1) ->
  output_dir j = dir
  /\ frame_indices j
     = LabelSource.read_labels
         (default EmptyString (files st !! named w txt))
  /\ sws_ctx j = negb (encoder_accepts (pix_fmt v))
  /\ v = video_of w video
  /\ vsi = fst (find_video_stream 0 (streams v))
  /\ files st1 = files st
  /\ out st1 = out st ++ Pipeline video txt dir
                 :: (if sws_ctx j then [SwsGetContext] else []).
Proof.
  unfold prepare.
  pose proof (cannot_provide_dir_state dir (emit (Pipeline video txt dir) st))
    as (Hf & Ho & _).
  destruct (cannot_provide_dir _ _ _) as [[[|]|] st0]; try discriminate.
  cbn [snd emit files out] in Hf, Ho.
  destruct (fs_exists_call w txt st0) as [[|]|]; try discriminate.
  destruct (negb (ifstream_open_ok w txt)); try discriminate.
  destruct (fs_exists_call w video st0) as [[|]|]; try discriminate.
  destruct (open_video_cases video dir
              (LabelSource.read_labels
                 (default EmptyString (files st0 !! named w txt))) st0)
    as (Hf1 & _ & C & HC & _ & _ & _ & _ & _ & Hm).
  destruct (open_video w video dir _ st0) as [r s1]. cbn [fst snd] in *.
  intros [= -> ->].
  destruct Hm as (-> & H1 & H2 & H3 & H4 & H5).
  rewrite Hf in H2. rewrite HC, Ho, Hf1, Hf, <- app_assoc.
  repeat split; assumption.
Qed.

(** What [prepare] leaves in every case: the files as they were, no
    directory lost and none added but the output directory and its
    parents, no frame received, no encoder call, no file opened.  It
    prints nothing when it throws or goes on to the loop, and one or two
    lines of its own when it gives up. *)
Lemma prepare_cases video txt dir st :
  files (snd (prepare w video txt dir st)) = files st
  /\ dirs st ⊆ dirs (snd (prepare w video txt dir st))
  /\ dirs (snd (prepare w video txt dir st)) ⊆ dirs_bound dir st
  /\ (fs_exists (named w dir) st = true \/ create_directories_ok w dir = true ->
      fs_exists (named w dir) (snd (prepare w video txt dir st)) = true)
  /\ exists C,
       out (snd (prepare w video txt dir st))
       = out st ++ Pipeline video txt dir :: C
       /\ received C = [] /\ saved C = [] /\ fopens C = []
       /\ invocations C = []
       /\ match fst (prepare w video txt dir st) with
          | Thrown => errors C = []
          | Returned None =>
              forallb from_setup (errors C) = true
              /\ ((exists m, errors C = [m])
                  \/ exists ret,
                       errors C = [VideoOpenFailed video;
                                   VideoOpenErrorCode ret])
          | Returned (Some _) => errors C = []
          end.
Proof.
  unfold prepare.
  pose proof (cannot_provide_dir_state dir (emit (Pipeline video txt dir) st))
    as (Hf & Ho & Hd & Hb).
  pose proof (cannot_provide_dir_cases dir (emit (Pipeline video txt dir) st))
    as Hc.
  rewrite fs_exists_emit in Hc.
  destruct (cannot_provide_dir w dir (emit (Pipeline video txt dir) st))
    as [no_dir st0].
  cbn [fst snd emit files dirs out] in Hf, Ho, Hd, Hb, Hc.
  unfold dirs_bound in *. cbn [dirs emit] in Hb.
  assert (fs_exists (named w dir) st = true
          \/ create_directories_ok w dir = true ->
          no_dir = Returned false /\ fs_exists (named w dir) st0 = true)
    as Hdir.
  { intros Hor.
    destruct Hc as [(_ & H1 & H2) | [(_ & H1 & H2) | (H1 & _ & H2)]];
      [destruct Hor; congruence | destruct Hor; congruence | auto]. }
  destruct no_dir as [[|]|].
  - (* the directory could not be provided *)
    cbn [fst snd emit files dirs out]. rewrite Ho, <- app_assoc.
    repeat split; try assumption.
    + intros Hor. destruct (Hdir Hor). discriminate.
    + eexists. split; [reflexivity|]. cbn. repeat split; eauto.
  - destruct (fs_exists_call w txt st0) as [[|]|].
    + destruct (negb (ifstream_open_ok w txt)).
      * cbn [fst snd emit files dirs out]. rewrite Ho, <- app_assoc.
        repeat split; try assumption.
        -- intros Hor. now destruct (Hdir Hor).
        -- eexists. split; [reflexivity|]. cbn. repeat split; eauto.
      * destruct (fs_exists_call w video st0) as [[|]|].
        -- destruct (open_video_cases video dir
                       (LabelSource.read_labels
                          (default EmptyString (files st0 !! named w txt)))
                       st0)
             as (Hf1 & Hd1 & C & HC & H1 & H2 & H3 & H4 & _ & Hm).
           destruct (open_video w video dir _ st0) as [r s1].
           cbn [fst snd] in *. rewrite Hf1, Hd1, HC, Ho, <- app_assoc.
           repeat split; try assumption.
           ++ intros Hor. destruct (Hdir Hor) as [_ He].
              revert He. unfold fs_exists. now rewrite Hf1, Hd1.
           ++ exists C. split; [reflexivity|]. repeat split; try assumption.
              destruct r as [[[j vsi] v]|]; [|exact Hm].
              destruct Hm as (-> & _). now destruct (sws_ctx j).
        -- cbn [fst snd emit files dirs out]. rewrite Ho, <- app_assoc.
           repeat split; try assumption.
           ++ intros Hor. now destruct (Hdir Hor).
           ++ eexists. split; [reflexivity|]. cbn. repeat split; eauto.
        -- cbn [fst snd]. repeat split; try assumption.
           ++ intros Hor. now destruct (Hdir Hor).
           ++ exists []. rewrite Ho. repeat split.
    + cbn [fst snd emit files dirs out]. rewrite Ho, <- app_assoc.
      repeat split; try assumption.
      * intros Hor. now destruct (Hdir Hor).
      * eexists. split; [reflexivity|]. cbn. repeat split; eauto.
    + cbn [fst snd]. repeat split; try assumption.
      * intros Hor. now destruct (Hdir Hor).
      * exists []. rewrite Ho. repeat split.
  - cbn [fst snd]. repeat split; try assumption.
    + intros Hor. destruct (Hdir Hor). discriminate.
    + exists []. rewrite Ho. repeat split.
Qed.

(** With the output directory, the label file and the video file in
    place, [prepare] does not throw and does not complain about a missing
    input. *)
Lemma prepare_inputs_present video txt dir st :
  fs_exists (named w dir) st = true -> fs_exists (named w txt) st = true ->
  fs_exists (named w video) st = true ->
  fst (prepare w video txt dir st) <> Thrown
  /\ exists C,
       out (snd (prepare w video txt dir st))
       = out st ++ Pipeline video txt dir :: C
       /\ forallb (fun m => negb (missing_input m)) (errors C) = true.
Proof.
  intros Hd Ht Hv. unfold prepare, cannot_provide_dir.
  rewrite fs_exists_call_emit, (fs_exists_call_present dir st Hd).
  rewrite fs_exists_call_emit, (fs_exists_call_present txt st Ht).
  destruct (negb (ifstream_open_ok w txt)).
  - cbn [fst snd emit out]. split; [discriminate|].
    rewrite <- app_assoc. eexists. split; reflexivity.
  - rewrite fs_exists_call_emit, (fs_exists_call_present video st Hv).
    destruct (open_video_cases video dir
                (LabelSource.read_labels
                   (default EmptyString
                      (files (emit (Pipeline video txt dir) st)
                         !! named w txt)))
                (emit (Pipeline video txt dir) st))
      as (_ & _ & C & HC & _ & _ & _ & _ & HM & _).
    destruct (open_video w video dir _ _) as [r s1]. cbn [fst snd] in *.
    split; [discriminate|]. exists C. rewrite HC. cbn [emit out].
    rewrite <- app_assoc. auto.
Qed.

End PrepareFacts.

(** ** The pipeline as a whole *)

Section RunFacts.

Import Jpeg Decode Trace Reading.

(** The three ways a call of the pipeline ends. *)
Lemma run_cases w video txt dir st :
  (exists st1,
      prepare w video txt dir st = (Thrown, st1)
      /\ decode_video_to_images w video txt dir st = (Thrown, st1))
  \/ (exists st1,
        prepare w video txt dir st = (Returned None, st1)
        /\ decode_video_to_images w video txt dir st = (Returned false, st1))
  \/ (exists j vsi v st1,
        prepare w video txt dir st = (Returned (Some (j, vsi, v)), st1)
        /\ decode_video_to_images w video txt dir st
           = (Returned (success (fst (decode_loop w j vsi v st1))),
              snd (decode_loop w j vsi v st1))).
Proof.
  unfold decode_video_to_images.
  destruct (prepare w video txt dir st) as [[[[[j vsi] v]|]|] st1].
  - right; right. exists j, vsi, v, st1. split; [reflexivity|].
    now destruct (decode_loop w j vsi v st1).
  - right; left. eauto.
  - left. eauto.
Qed.

(** The events of a run that reached the decode loop: those of [prepare],
    then those of the loop. *)
Lemma run_events w video txt dir st j vsi v st1 E :
  prepare w video txt dir st = (Returned (Some (j, vsi, v)), st1) ->
  out (snd (decode_loop w j vsi v st1)) = out st1 ++ E ->
  events_since st (snd (decode_video_to_images w video txt dir st))
  = (Pipeline video txt dir :: (if sws_ctx j then [SwsGetContext] else []))
      ++ E.
Proof.
  intros Hprep HE.
  destruct (prepare_some _ _ _ _ _ _ _ _ _ Hprep)
    as (_ & _ & _ & _ & _ & _ & Hout).
  unfold decode_video_to_images. rewrite Hprep.
  destruct (decode_loop w j vsi v st1) as [l s]. cbn [fst snd] in *.
  apply events_since_app. rewrite HE, Hout, <- app_assoc. reflexivity.
Qed.

(** The result of a run that reached the decode loop. *)
Lemma run_result w video txt dir st j vsi v st1 :
  prepare w video txt dir st = (Returned (Some (j, vsi, v)), st1) ->
  decode_video_to_images w video txt dir st
  = (Returned (success (fst (decode_loop w j vsi v st1))),
     snd (decode_loop w j vsi v st1)).
Proof.
  intros Hprep. unfold decode_video_to_images. rewrite Hprep.
  now destruct (decode_loop w j vsi v st1).
Qed.

End RunFacts.
(** ** What a run receives of the video *)

Section FrameLists.

Import Decode Reading.

Lemma is_frame_geb r : (receive_ret r >=? 0) = is_frame r.
Proof. unfold is_frame. apply Z.geb_leb. Qed.

Lemma frames_cons r rs :
  frames (r :: rs)
  = if is_frame r then received_frame r :: frames rs else frames rs.
Proof. unfold frames. cbn. now destruct (is_frame r). Qed.

Lemma no_frames rs : existsb is_frame rs = false -> frames rs = [].
Proof.
  induction rs as [|r rs IH]; [reflexivity|]. cbn [existsb]. intros H.
  apply orb_false_iff in H as [Hr H]. rewrite frames_cons, Hr. auto.
Qed.

Lemma no_frames_no_drains rs :
  existsb is_frame rs = false -> drains_needed rs = 0%nat.
Proof.
  induction rs as [|r rs IH]; [reflexivity|].
  cbn [existsb drains_needed]. intros H.
  apply orb_false_iff in H as [Hr H]. now rewrite Hr, H.
Qed.

(** Past an answer without a frame, one drain less is needed. *)
Lemma drains_needed_after r rs :
  is_frame r = false ->
  (drains_needed rs <= pred (drains_needed (r :: rs)))%nat.
Proof.
  intros Hr. cbn. rewrite Hr.
  destruct (existsb is_frame rs) eqn:H; cbn; [lia|].
  rewrite (no_frames_no_drains rs H). lia.
Qed.

(** When no drain is needed any more, the frames up to the first answer
    without a frame are all the frames there are. *)
Lemma leading_frames_all rs :
  drains_needed rs = 0%nat -> frames (leading_frames rs) = frames rs.
Proof.
  induction rs as [|r rs IH]; [reflexivity|].
  cbn [leading_frames drains_needed]. rewrite is_frame_geb.
  destruct (is_frame r) eqn:Hr.
  - intros H. rewrite !frames_cons, Hr, IH; auto.
  - destruct (existsb is_frame rs) eqn:H; [discriminate|]. intros _.
    rewrite frames_cons, Hr, (no_frames rs H). reflexivity.
Qed.

Lemma leading_frames_prefix rs :
  exists rest, frames rs = frames (leading_frames rs) ++ rest.
Proof.
  induction rs as [|r rs (rest & IH)]; [exists []; reflexivity|].
  cbn [leading_frames]. rewrite is_frame_geb, frames_cons.
  destruct (is_frame r) eqn:Hr.
  - exists rest. rewrite frames_cons, Hr, IH. reflexivity.
  - exists (frames rs). reflexivity.
Qed.

End FrameLists.

Section Cursor.

Import Decode.

Lemma static_cast_int_small n :
  0 <= n <= INT_MAX -> static_cast_int n = n.
Proof.
  unfold INT_MAX, static_cast_int. intros H.
  rewrite Z.mod_small by lia.
  destruct (n <? 2 ^ 31) eqn:E; [reflexivity|].
  apply Z.ltb_ge in E. lia.
Qed.

(** With a label count that fits an int, the test of the cursor against
    the cast count is the test against the count. *)
Lemma has_label_lt j l n :
  Z.of_nat (length (frame_indices j)) <= INT_MAX ->
  frame_count l = Z.of_nat n ->
  has_label j l = bool_decide (n < length (frame_indices j))%nat.
Proof.
  intros Hfit Hn. unfold has_label.
  rewrite static_cast_int_small, Hn by lia.
  case_bool_decide; [apply Z.ltb_lt | apply Z.ltb_ge]; lia.
Qed.

Lemma has_label_cursor j l1 l2 :
  frame_count l1 = frame_count l2 -> has_label j l1 = has_label j l2.
Proof. intros H. unfold has_label. now rewrite H. Qed.

Lemma output_path_cursor j l1 l2 :
  frame_count l1 = frame_count l2 -> output_path j l1 = output_path j l2.
Proof. intros H. unfold output_path. now rewrite H. Qed.

(** The path of the current label. *)
Lemma output_path_label j l k label :
  frame_count l = Z.of_nat k -> frame_indices j !! k = Some label ->
  output_path j l = jpg_path (output_dir j) label.
Proof.
  intros Hk Hlab. unfold output_path.
  rewrite Hk, Nat2Z.id, nth_lookup, Hlab. reflexivity.
Qed.

End Cursor.

Section Reception.

Import Jpeg Decode Trace Reading.

Lemma silent_received B :
  forallb (fun e => quiet e || is_conversion e) B = true -> received B = [].
Proof.
  induction B as [|e B IH]; [reflexivity|]; simpl; intros H.
  apply andb_true_iff in H as [He HB].
  destruct e; try discriminate; simpl; now apply IH.
Qed.

Lemma after_conversion_out j f st :
  out (after_conversion j f st)
  = out st ++ (if sws_ctx j then [ConvertedFrameAlloc; SwsScale f] else []).
Proof.
  unfold after_conversion. destruct (sws_ctx j); cbn [emit out].
  - now rewrite <- app_assoc.
  - now rewrite app_nil_r.
Qed.

Variable w : World.
Variable j : Job.

(** What the body of the inner loop adds to the trace of a frame just
    received, and how it leaves the cursor. *)
Lemma frame_body_chunk f l st c l' st' :
  frame_body w j f l (emit (Received f) st) = (c, l', st') ->
  exists C, out st' = out st ++ Received f :: C /\ received C = []
    /\ ((c = Break /\ has_label j l = false /\ l' = l)
        \/ (c = Break /\ has_label j l = true
            /\ conversion_ok (sws_of w f) = false /\ l' = fail l)
        \/ (c = Continue /\ has_label j l = true
            /\ frame_count l' = frame_count l + 1)).
Proof.
  intros Hb.
  destruct (frame_body_cases w j f l (emit (Received f) st))
    as [(Hl & Hc) | [(Hl & _ & Hk & B & HB & Hc) | (Hl & _ & Hc)]];
    rewrite Hc in Hb; injection Hb as <- <- <-.
  - exists [Unref f]. cbn [emit out]. rewrite <- app_assoc.
    split; [reflexivity|]. split; [reflexivity|]. left. auto.
  - exists B. cbn [emit out]. rewrite <- app_assoc.
    split; [reflexivity|]. split; [now apply silent_received|].
    right; left. auto.
  - destruct (save_spec w j (output_frame w j f) l
                (after_conversion j f (emit (Received f) st)))
      as (B & HB & Hout & Hfc).
    rewrite Hout, after_conversion_out. cbn [emit out].
    rewrite <- !app_assoc. eexists. split; [reflexivity|].
    split; [|right; right; auto].
    rewrite received_app. cbn. rewrite (quiet_received B HB).
    now destruct (sws_ctx j).
Qed.

Hypothesis conversions_work : forall f, conversion_ok (sws_of w f) = true.

(** One drain of the decoder: the frames it receives are the frames of
    the answers it uses up; a cursor past the last label stays there;
    and the drain ends past the last label or at an answer without a
    frame. *)
Lemma receive_frames_reception rs l st rs' l' st' :
  receive_frames w j rs l st = (rs', l', st') ->
  exists E, out st' = out st ++ E
    /\ frames rs = received E ++ frames rs'
    /\ (has_label j l = false -> has_label j l' = false)
    /\ (has_label j l' = false
        \/ (drains_needed rs' <= pred (drains_needed rs))%nat).
Proof.
  revert l st. induction rs as [|r rs IH]; intros l st Heq.
  - cbn in Heq. injection Heq as <- <- <-.
    exists []. rewrite app_nil_r. cbn. auto.
  - cbn [receive_frames] in Heq.
    assert (is_frame r = negb (receive_ret r <? 0)) as Hfr.
    { unfold is_frame. destruct (receive_ret r <? 0) eqn:H.
      - apply Z.ltb_lt in H. apply Z.leb_gt. exact H.
      - apply Z.ltb_ge in H. apply Z.leb_le. exact H. }
    destruct ((receive_ret r =? AVERROR_EAGAIN) || (receive_ret r =? AVERROR_EOF))
      eqn:Hno.
    { injection Heq as <- <- <-.
      assert (is_frame r = false) as Hr.
      { unfold is_frame. apply Z.leb_gt.
        apply orb_true_iff in Hno as [H | H]; apply Z.eqb_eq in H;
          rewrite H; reflexivity. }
      exists []. rewrite app_nil_r, frames_cons, Hr.
      repeat split; auto. right. now apply drains_needed_after. }
    destruct (receive_ret r <? 0) eqn:Hneg.
    { injection Heq as <- <- <-. cbn [negb] in Hfr.
      exists [Cerr (ReceiveFrameFailed (receive_ret r))].
      rewrite frames_cons, Hfr. repeat split; auto.
      right. now apply drains_needed_after. }
    cbn [negb] in Hfr.
    destruct (frame_body w j (received_frame r) l
                (emit (Received (received_frame r)) st))
      as [[c l1] st1] eqn:Hb.
    destruct (frame_body_chunk _ _ _ _ _ _ Hb)
      as (C & HC & HrC & [(-> & Hl & ->) | [(_ & _ & Hk & _) | (-> & Hl & Hfc)]]).
    + injection Heq as <- <- <-.
      exists (Received (received_frame r) :: C).
      rewrite frames_cons, Hfr. cbn. rewrite HrC. auto.
    + rewrite conversions_work in Hk. discriminate.
    + destruct (IH _ _ Heq) as (E & HE & Hfs & Hkeep & Hend).
      exists ((Received (received_frame r) :: C) ++ E).
      rewrite HE, HC, <- app_assoc. split; [reflexivity|].
      rewrite frames_cons, Hfr, received_app. cbn. rewrite HrC. cbn.
      split; [now rewrite Hfs|]. split; [congruence|].
      cbn [drains_needed]. now rewrite Hfr.
Qed.

Lemma read_packets_reception vsi ps rs l st rs' l' st' :
  read_packets w j vsi ps rs l st = (rs', l', st') ->
  exists E, out st' = out st ++ E
    /\ frames rs = received E ++ frames rs'
    /\ (has_label j l = false -> has_label j l' = false)
    /\ (has_label j l' = false
        \/ (drains_needed rs'
            <= drains_needed rs - length (List.filter (submitted vsi) ps))%nat).
Proof.
  revert rs l st. induction ps as [|p ps IH]; intros rs l st Heq.
  - cbn in Heq. injection Heq as <- <- <-.
    exists []. rewrite app_nil_r. cbn. repeat split; auto. right. lia.
  - cbn [read_packets List.filter] in Heq |- *. unfold submitted at 1.
    destruct (stream_index p =? vsi); cbn [andb]; [|now apply IH].
    destruct (send_packet_ret p <? 0); cbn [negb]; [now apply IH|].
    destruct (receive_frames w j rs l st) as [[rs1 l1] st1] eqn:Hr.
    destruct (receive_frames_reception _ _ _ _ _ _ Hr)
      as (E1 & HE1 & Hf1 & Hk1 & Hend1).
    destruct (IH _ _ _ Heq) as (E & HE & Hf & Hk & Hend).
    exists (E1 ++ E). rewrite HE, HE1, <- app_assoc. split; [reflexivity|].
    rewrite received_app, <- app_assoc, <- Hf. split; [assumption|].
    split; [auto|].
    destruct Hend1 as [Hout | Hle]; [left; auto|].
    destruct Hend as [Hout | Hle']; [now left|]. right. cbn [length]. lia.
Qed.

(** The flush receives the frames up to the first answer without one. *)
Lemma flush_frames_reception rs l st :
  exists E, out (snd (flush_frames w j rs l st)) = out st ++ E
    /\ received E = frames (leading_frames rs)
    /\ (has_label j l = false ->
        has_label j (fst (flush_frames w j rs l st)) = false).
Proof.
  revert l st. induction rs as [|r rs IH]; intros l st.
  - exists []. rewrite app_nil_r. auto.
  - cbn [flush_frames leading_frames].
    destruct (receive_ret r >=? 0) eqn:Hret;
      [|exists []; rewrite app_nil_r; auto].
    rewrite frames_cons, <- is_frame_geb, Hret.
    destruct (has_label j l) eqn:Hl.
    + destruct (save_spec w j (received_frame r) l
                  (emit (Received (received_frame r)) st))
        as (B & HB & Hout & _).
      destruct (save w j (received_frame r) l _) as [l1 st1].
      cbn [fst snd] in Hout.
      destruct (IH l1 st1) as (E & HE & Hrec & _).
      exists ((Received (received_frame r)
                 :: SaveFrame (received_frame r) (output_path j l) :: B) ++ E).
      rewrite HE, Hout. cbn [emit out]. rewrite <- !app_assoc.
      split; [reflexivity|]. split; [|discriminate].
      rewrite received_app. cbn. now rewrite (quiet_received B HB), Hrec.
    + destruct (IH l (emit (Received (received_frame r)) st))
        as (E & HE & Hrec & Hk).
      exists (Received (received_frame r) :: E).
      rewrite HE. cbn [emit out]. rewrite <- app_assoc.
      split; [reflexivity|]. cbn. rewrite Hrec. auto.
Qed.

(** The frames a run receives are the first decodable frames of the
    video.  When the decoder delivers the video, the run receives them
    all unless the labels run out. *)
Lemma decode_loop_reception vsi v st :
  exists E, out (snd (decode_loop w j vsi v st)) = out st ++ E
    /\ (exists rest, decodable v = received E ++ rest)
    /\ (delivers vsi v ->
        has_label j (fst (decode_loop w j vsi v st)) = false
        \/ received E = decodable v).
Proof.
  unfold decode_loop, decodable, delivers.
  destruct (read_packets w j vsi (packets v) (receives v) initial st)
    as [[rs1 l1] st1] eqn:Hr.
  destruct (read_packets_reception _ _ _ _ _ _ _ _ Hr)
    as (E1 & HE1 & Hf1 & _ & Hend).
  destruct (flush_frames_reception rs1 l1 st1) as (E2 & HE2 & Hf2 & Hk).
  exists (E1 ++ E2). rewrite HE2, HE1, <- app_assoc. split; [reflexivity|].
  rewrite received_app, Hf2, Hf1. split.
  - destruct (leading_frames_prefix rs1) as (rest & ->).
    exists rest. now rewrite <- app_assoc.
  - intros Hdel. destruct Hend as [Hout | Hle]; [left; auto|].
    right. rewrite leading_frames_all; [reflexivity | lia].
Qed.

End Reception.

(** * The claims *)

(** ** A label file without labels *)

Section NoLabels.

Import Jpeg Decode Trace.

(** C6: when the label file gives no label and the decoder reports no
    hard error, a run that reaches the decode loop returns true, opens no
    file for writing, hands no frame to the encoder, prints no error and
    leaves every file as it was. *)
Theorem C6_no_labels_no_files w video txt dir st j vsi v st1 :
  prepare w video txt dir st = (Returned (Some (j, vsi, v)), st1) ->
  frame_indices j = [] ->
  (forall r, In r (receives v) -> receive_ret r < 0 ->
             receive_ret r = AVERROR_EAGAIN \/ receive_ret r = AVERROR_EOF) ->
  fst (decode_video_to_images w video txt dir st) = Returned true
  /\ files (snd (decode_video_to_images w video txt dir st)) = files st
  /\ fopens (events_since st (snd (decode_video_to_images w video txt dir st))) = []
  /\ saved (events_since st (snd (decode_video_to_images w video txt dir st))) = []
  /\ errors (events_since st (snd (decode_video_to_images w video txt dir st))) = [].
Proof.
  intros Hprep Hnone Hsoft.
  destruct (prepare_some _ _ _ _ _ _ _ _ _ Hprep)
    as (_ & _ & _ & _ & _ & Hfiles & Hout).
  set (I := fun (l : Locals) (s : State) =>
    l = initial /\ files s = files st1
    /\ exists E, out s = out st1 ++ E
         /\ fopens E = [] /\ saved E = [] /\ errors E = []).
  assert (I (fst (decode_loop w j vsi v st1)) (snd (decode_loop w j vsi v st1)))
    as (Hl & Hf & E & HE & H1 & H2 & H3).
  { apply (decode_loop_inv w j
             (fun r => receive_ret r < 0 ->
                receive_ret r = AVERROR_EAGAIN \/ receive_ret r = AVERROR_EOF)).
    - intros r l s Hr Hneg Ha He _. destruct (Hr Hneg); contradiction.
    - intros r l s c l' s' _ _ (-> & Hf & E & HE & H1 & H2 & H3) Hb.
      rewrite frame_body_no_label in Hb by now apply has_label_none.
      injection Hb as <- <- <-. split; [reflexivity|]. split; [assumption|].
      exists (E ++ [Received (received_frame r); Unref (received_frame r)]).
      cbn [emit out]. rewrite HE, <- !app_assoc.
      rewrite fopens_app, saved_app, errors_app, H1, H2, H3. auto.
    - intros r l s _ _ (-> & _) Hl.
      rewrite has_label_none in Hl by auto. discriminate.
    - intros r l s _ _ (-> & Hf & E & HE & H1 & H2 & H3) _.
      split; [reflexivity|]. split; [assumption|].
      exists (E ++ [Received (received_frame r)]).
      cbn [emit out]. rewrite HE, <- !app_assoc.
      rewrite fopens_app, saved_app, errors_app, H1, H2, H3. auto.
    - apply Forall_forall. intros r Hr. apply Hsoft.
      now apply list_elem_of_In.
    - split; [reflexivity|]. split; [reflexivity|].
      exists []. rewrite app_nil_r. auto. }
  unfold decode_video_to_images. rewrite Hprep.
  destruct (decode_loop w j vsi v st1) as [l s]. cbn [fst snd] in *.
  subst l. split; [reflexivity|]. split; [congruence|].
  rewrite (events_since_app st s
             ((Pipeline video txt dir
                 :: (if sws_ctx j then [SwsGetContext] else [])) ++ E))
    by (rewrite HE, Hout, <- app_assoc; reflexivity).
  rewrite fopens_app, saved_app, errors_app, H1, H2, H3.
  destruct (sws_ctx j); auto.
Qed.

Lemma C6_witness :
  fst (Examples.run Examples.plain_world EmptyString) = Returned true
  /\ files (snd (Examples.run Examples.plain_world EmptyString))
     = files (Examples.disk EmptyString).
Proof.
  unfold Examples.run.
  edestruct (C6_no_labels_no_files Examples.plain_world
               "v.mp4" "v.txt" "out" (Examples.disk EmptyString)) as (H1 & H2 & _).
  - vm_compute. reflexivity.
  - reflexivity.
  - intros r [<-|[<-|[<-|[<-|[<-|[]]]]]]; cbn; intros; auto; lia.
  - split; assumption.
Defined.

End NoLabels.


(** ** Frames and labels, one to one *)

Section InOrder.

Import Jpeg Decode Trace Reading.

Lemma zip_with_snoc {A B C} (f : A -> B -> C) (l : list A) (x : A)
    (k : list B) :
  zip_with f (l ++ [x]) k
  = zip_with f l k ++ match k !! length l with
                      | Some y => [f x y]
                      | None => []
                      end.
Proof.
  revert k. induction l as [|a l IH]; intros [|b k]; cbn; try reflexivity.
  now rewrite IH.
Qed.

Lemma map_snd_zip_with {A B C} (g : A -> C) (h : B -> string)
    (l : list A) (k : list B) :
  map snd (zip_with (fun a b => (g a, h b)) l k)
  = map h (take (Nat.min (length l) (length k)) k).
Proof.
  revert k. induction l as [|a l IH]; intros [|b k]; cbn; try reflexivity.
  now rewrite IH.
Qed.

(** Conversion events are none of the events the readings look for. *)
Lemma conversion_calls B last :
  forallb is_conversion B = true ->
  labelled_from last B = [] /\ handed_from last B = []
  /\ last_frame last B = last.
Proof.
  induction B as [|e B IH]; [auto|]; simpl; intros H.
  apply andb_true_iff in H as [He HB].
  destruct e; try discriminate; simpl; now apply IH.
Qed.

Lemma write_report_full a :
  (fwrite_ret a =? pkt_size a) = true -> write_report a = [].
Proof. unfold write_report. now intros ->. Qed.

Lemma encode_ok_parts a :
  encode_ok a = true ->
  packet_produced a && fopen_ok a = true
  /\ write_report a = [] /\ file_content a = pkt_data a.
Proof.
  unfold encode_ok. intros H.
  apply andb_true_iff in H as [H Hc]. apply andb_true_iff in H as [H Hw].
  split; [assumption|]. split; [now apply write_report_full|].
  now apply String.eqb_eq.
Qed.

Variable w : World.
Variable j : Job.

Hypothesis labels_fit : Z.of_nat (length (frame_indices j)) <= INT_MAX.
Hypothesis conversions_work : forall f, conversion_ok (sws_of w f) = true.
Hypothesis encoder_works : forall f p, encode_ok (jpeg_of w f p) = true.

(** A decoded frame with the path of its label. *)
Definition pair_of (f : AVFrame) (label : string) : option AVFrame * string :=
  (Some f, jpg_path (output_dir j) label).

(** The encoder was given the frame the decoder produced, or the frame
    converted from it. *)
Definition given (c : option AVFrame * AVFrame) : Prop :=
  exists f, fst c = Some f
    /\ (snd c = f \/ snd c = converted (sws_of w f) f).

(** The invariant of the decode loop when every step works: the cursor
    stands at the smaller of the frames received and the labels; the
    frames went to the encoder one by one, in the order received, each
    under the path of the label at its position; each call opened its
    file and left its packet there; nothing but a hard decode error was
    reported. *)
Definition in_order (F0 : gmap string string) (l : Locals)
    (F : gmap string string) (E : list event) : Prop :=
  frame_count l
  = Z.of_nat (Nat.min (length (received E)) (length (frame_indices j)))
  /\ labelled E = zip_with pair_of (received E) (frame_indices j)
  /\ Forall given (handed E)
  /\ fopens E = map snd (labelled E)
  /\ F = stores w F0 (saved E)
  /\ (forall m, In m (errors E) -> exists ret, m = ReceiveFrameFailed ret)
  /\ (success l = false -> errors E <> []).

Lemma in_order_drop F0 l F E f C :
  in_order F0 l F E -> has_label j l = false ->
  C = [Unref f] \/ C = [] ->
  in_order F0 l F (E ++ Received f :: C).
Proof.
  intros (Hfc & Hlab & Hgiv & Hfo & HF & Her & Hsu) Hl HC.
  rewrite (has_label_lt j l _ labels_fit Hfc) in Hl.
  apply bool_decide_eq_false in Hl. unfold in_order.
  assert (received (E ++ Received f :: C) = received E ++ [f]
          /\ labelled (E ++ Received f :: C) = labelled E
          /\ handed (E ++ Received f :: C) = handed E
          /\ fopens (E ++ Received f :: C) = fopens E
          /\ saved (E ++ Received f :: C) = saved E
          /\ errors (E ++ Received f :: C) = errors E)
    as (-> & -> & -> & -> & -> & ->).
  { unfold labelled, handed.
    rewrite received_app, labelled_from_app, handed_from_app, fopens_app,
      saved_app, errors_app.
    destruct HC as [-> | ->]; cbn; now rewrite !app_nil_r. }
  rewrite length_app, zip_with_snoc.
  rewrite (lookup_ge_None_2 (frame_indices j) (length (received E))) by lia.
  rewrite app_nil_r. cbn [length].
  repeat split; try assumption. lia.
Qed.

Lemma in_order_saved F0 l F E f g B :
  in_order F0 l F E -> has_label j l = true ->
  forallb is_conversion B = true ->
  g = f /\ B = []
  \/ sws_ctx j = true /\ g = converted (sws_of w f) f
     /\ B = [ConvertedFrameAlloc; SwsScale f] ->
  in_order F0 (next_frame (count_decoded l))
    (<[named w (output_path j l)
       := file_content (jpeg_of w g (output_path j l))]> F)
    (E ++ Received f :: B
       ++ SaveFrame g (output_path j l) :: Fopen (output_path j l)
          :: write_report (jpeg_of w g (output_path j l))).
Proof.
  intros (Hfc & Hlab & Hgiv & Hfo & HF & Her & Hsu) Hl HB Hg.
  rewrite (has_label_lt j l _ labels_fit Hfc) in Hl.
  apply bool_decide_eq_true in Hl.
  assert (Nat.min (length (received E)) (length (frame_indices j))
          = length (received E)) as HK by lia.
  rewrite HK in *.
  destruct (lookup_lt_is_Some_2 (frame_indices j) (length (received E)))
    as [label Hlabel]; [lia|].
  rewrite (output_path_label j l _ label Hfc Hlabel).
  destruct (encode_ok_parts _ (encoder_works g (jpg_path (output_dir j) label)))
    as (_ & -> & ->).
  destruct (conversion_events B HB) as (Br & Bs & Bf & Be).
  set (p := jpg_path (output_dir j) label). unfold in_order.
  assert (received (E ++ Received f :: B ++ [SaveFrame g p; Fopen p])
          = received E ++ [f]
          /\ labelled (E ++ Received f :: B ++ [SaveFrame g p; Fopen p])
             = labelled E ++ [(Some f, p)]
          /\ handed (E ++ Received f :: B ++ [SaveFrame g p; Fopen p])
             = handed E ++ [(Some f, g)]
          /\ fopens (E ++ Received f :: B ++ [SaveFrame g p; Fopen p])
             = fopens E ++ [p]
          /\ saved (E ++ Received f :: B ++ [SaveFrame g p; Fopen p])
             = saved E ++ [(g, p)]
          /\ errors (E ++ Received f :: B ++ [SaveFrame g p; Fopen p])
             = errors E)
    as (-> & -> & -> & -> & -> & ->).
  { unfold labelled, handed.
    rewrite received_app, labelled_from_app, handed_from_app, fopens_app,
      saved_app, errors_app.
    cbn. rewrite received_app, labelled_from_app, handed_from_app,
           fopens_app, saved_app, errors_app.
    destruct (conversion_calls B (Some f) HB) as (-> & -> & ->).
    rewrite Br, Bs, Bf, Be. cbn. now rewrite !app_nil_r. }
  rewrite length_app, zip_with_snoc, Hlabel. cbn [length].
  rewrite map_app, <- Hfo, <- Hlab. unfold stores. rewrite foldl_snoc.
  fold (stores w F0 (saved E)). rewrite <- HF.
  repeat split; try assumption.
  - cbn. lia.
  - apply Forall_app. split; [assumption|]. constructor; [|constructor].
    exists f. destruct Hg as [[-> _] | (_ & -> & _)]; auto.
Qed.

Lemma decode_loop_in_order vsi v st :
  exists E, out (snd (decode_loop w j vsi v st)) = out st ++ E
    /\ dirs (snd (decode_loop w j vsi v st)) = dirs st
    /\ in_order (files st) (fst (decode_loop w j vsi v st))
         (files (snd (decode_loop w j vsi v st))) E.
Proof.
  apply (decode_loop_trace w j (in_order (files st))).
  - intros l F E ret (Hfc & Hlab & Hgiv & Hfo & HF & Her & Hsu).
    unfold in_order, labelled, handed in *.
    rewrite received_app, labelled_from_app, handed_from_app, fopens_app,
      saved_app, errors_app.
    cbn. rewrite !app_nil_r. repeat split; try assumption.
    + intros m Hin. apply in_app_or in Hin as [Hin | [<- | []]]; eauto.
    + intros _ Hnil. apply app_eq_nil in Hnil as [_ Hnil]. discriminate.
  - intros l F E f C. apply in_order_drop.
  - intros l F E f B m _ _ _ Hno.
    rewrite conversions_work in Hno. discriminate.
  - intros l F E f g B HQ Hl HB Hg _. now apply in_order_saved.
  - intros l F E f g B m _ _ _ _ Hno. unfold opens in Hno.
    destruct (encode_ok_parts _ (encoder_works g (output_path j l)))
      as (Hok & _). congruence.
  - unfold in_order. cbn. repeat split; try reflexivity.
    + constructor.
    + intros m [].
    + discriminate.
Qed.

(** When the decoder reports no hard error, the loop prints nothing and
    leaves the success flag set. *)
Lemma decode_loop_quiet vsi v st :
  no_hard_error v ->
  exists E, out (snd (decode_loop w j vsi v st)) = out st ++ E
    /\ errors E = [] /\ success (fst (decode_loop w j vsi v st)) = true.
Proof.
  intros Hsoft.
  apply (decode_loop_inv w j
           (fun r => receive_ret r < 0 ->
              receive_ret r = AVERROR_EAGAIN \/ receive_ret r = AVERROR_EOF)
           (fun l s => exists E, out s = out st ++ E
                         /\ errors E = [] /\ success l = true)).
  - intros r l s Hr Hneg Ha He _. destruct (Hr Hneg); contradiction.
  - intros r l s c l' s' _ _ (E & HE & Her & Hsu) Hb.
    destruct (frame_body_cases w j (received_frame r) l
                (emit (Received (received_frame r)) s))
      as [(_ & Hc) | [(_ & _ & Hno & _) | (_ & _ & Hc)]];
      [ | rewrite conversions_work in Hno; discriminate | ];
      rewrite Hc in Hb; injection Hb as <- <- <-.
    + exists (E ++ [Received (received_frame r); Unref (received_frame r)]).
      cbn [emit out]. rewrite HE, <- !app_assoc, errors_app, Her. auto.
    + destruct (save_ok w j (output_frame w j (received_frame r)) l
                  (after_conversion j (received_frame r)
                     (emit (Received (received_frame r)) s))
                  (encoder_works _ _)) as [-> ->].
      rewrite after_conversion_out. cbn [emit out]. rewrite HE.
      eexists. rewrite <- !app_assoc. split; [reflexivity|].
      rewrite !errors_app, Her. cbn. split; [|assumption].
      now destruct (sws_ctx j).
  - intros r l s _ _ (E & HE & Her & Hsu) _.
    destruct (save_ok w j (received_frame r) l
                (emit (Received (received_frame r)) s) (encoder_works _ _))
      as [-> ->].
    cbn [emit out]. rewrite HE.
    eexists. rewrite <- !app_assoc. split; [reflexivity|].
    rewrite !errors_app, Her. auto.
  - intros r l s _ _ (E & HE & Her & Hsu) _.
    exists (E ++ [Received (received_frame r)]).
    cbn [emit out]. rewrite HE, <- !app_assoc, errors_app, Her. auto.
  - apply Forall_forall. intros r Hr. apply Hsoft.
    now apply list_elem_of_In.
  - exists []. rewrite app_nil_r. auto.
Qed.

End InOrder.




(** ** Where the source departs from the specification *)

(** C1 on the source: a frame whose conversion fails leaves the inner
    loop before [frame_count++].  With the labels "a" and "b" and two
    frames, of which the first fails to convert, the job returns false,
    only "out/a.jpg" is written, and it is the frame at position 1 of the
    decode-emission order that is saved under it: the failed frame did not
    use up its label. *)
Theorem C1_failed_conversion_keeps_the_label :
  Trace.assignment
    (out (snd (Examples.run Examples.conversion_fails_world Examples.labels_a_b)))
  = [(1%nat, "out/a.jpg")]
  /\ Trace.fopens
       (out (snd (Examples.run Examples.conversion_fails_world
                    Examples.labels_a_b)))
     = ["out/a.jpg"]
  /\ Trace.errors
       (out (snd (Examples.run Examples.conversion_fails_world
                    Examples.labels_a_b)))
     = [ImageConversionFailed]
  /\ fst (Examples.run Examples.conversion_fails_world Examples.labels_a_b)
     = Returned false.
Proof. vm_compute. repeat split. Qed.

(** C2 on the source: the flush loop calls [decode_and_save_frame] on the
    frame as the decoder gave it.  In an RGB24 stream whose only frame
    comes out at the flush, that frame reaches the encoder unconverted,
    though the conversion context was built; the same frame given in the
    main loop is converted to YUV420P first. *)
Theorem C2_flush_skips_the_conversion :
  Trace.saved
    (out (snd (Examples.run Examples.buffered_world Examples.labels_a)))
  = [(Examples.rgb 1, "out/a.jpg")]
  /\ Decode.encoder_accepts (format (Examples.rgb 1)) = false
  /\ Trace.conversions
       (out (snd (Examples.run Examples.buffered_world Examples.labels_a)))
     = [SwsGetContext]
  /\ Trace.saved
       (out (snd (Examples.run Examples.unbuffered_world Examples.labels_a)))
     = [(Decode.converted Examples.sws_fine (Examples.rgb 1), "out/a.jpg")]
  /\ Trace.conversions
       (out (snd (Examples.run Examples.unbuffered_world Examples.labels_a)))
     = [SwsGetContext; ConvertedFrameAlloc; SwsScale (Examples.rgb 1)].
Proof. vm_compute. repeat split. Qed.

(** C3 on the source: a short write is found and reported like a failure,
    but not recorded.  One frame, one label: when [fwrite] takes one byte
    of the four, the run prints the incomplete-write line and still
    returns true, with the frame counted as saved.  The failure next to
    it, a file that cannot be opened, is reported and makes the run
    return false. *)
Theorem C3_short_write_is_not_recorded :
  Trace.errors
    (out (snd (Examples.run Examples.short_write_world Examples.labels_a)))
  = [IncompleteWrite 4 1]
  /\ fst (Examples.run Examples.short_write_world Examples.labels_a)
     = Returned true
  /\ Decode.decode_loop Examples.short_write_world Examples.job_a 0
       (Decode.video_of Examples.short_write_world "v.mp4")
       (Examples.disk Examples.labels_a)
     = ({| Decode.frame_count := 1; Decode.decoded_frames := 1;
           Decode.success := true |},
        snd (Decode.decode_loop Examples.short_write_world Examples.job_a 0
               (Decode.video_of Examples.short_write_world "v.mp4")
               (Examples.disk Examples.labels_a)))
  /\ Trace.errors
       (out (snd (Examples.run Examples.fopen_fails_world Examples.labels_a)))
     = [OutputFileOpenFailed "out/a.jpg"; SaveFrameFailed "out/a.jpg"]
  /\ fst (Examples.run Examples.fopen_fails_world Examples.labels_a)
     = Returned false.
Proof. vm_compute. repeat split. Qed.

(** C8 on the source: whether frames are converted is decided once, by
    the pixel format of the codec context (restore.cpp:222), and never by
    the format of a frame.  In a stream whose codec context says RGB24, a
    frame that arrives in YUV420P, which the encoder accepts, is not
    passed on as it is: a conversion context is built, a copy is
    allocated, [sws_scale] runs on the frame, and the encoder gets the
    copy. *)
Theorem C8_accepted_frame_is_converted :
  Decode.encoder_accepts (format (Examples.yuv 1)) = true
  /\ Trace.received
       (out (snd (Examples.run Examples.mixed_world Examples.labels_a)))
     = [Examples.yuv 1]
  /\ Trace.conversions
       (out (snd (Examples.run Examples.mixed_world Examples.labels_a)))
     = [SwsGetContext; ConvertedFrameAlloc; SwsScale (Examples.yuv 1)]
  /\ Trace.saved
       (out (snd (Examples.run Examples.mixed_world Examples.labels_a)))
     = [(Decode.converted Examples.sws_fine (Examples.yuv 1), "out/a.jpg")]
  /\ Decode.converted Examples.sws_fine (Examples.yuv 1) <> Examples.yuv 1.
Proof. vm_compute. repeat split. discriminate. Qed.

(** C9 on the source: the assignment is no function of the video and the
    labels alone.  The same video and the same label file, run twice: in
    one run every conversion works, in the other the conversion of the
    first frame fails.  The frame at position 1 is saved under label b in
    the first run and under label a in the second, because the frame
    that failed kept its label (C1). *)
Theorem C9_same_inputs_other_assignment :
  Decode.video_of Examples.conversion_works_world "v.mp4"
  = Decode.video_of Examples.conversion_fails_world "v.mp4"
  /\ Trace.assignment
       (out (snd (Examples.run Examples.conversion_works_world
                    Examples.labels_a_b)))
     = [(0%nat, "out/a.jpg"); (1%nat, "out/b.jpg")]
  /\ Trace.assignment
       (out (snd (Examples.run Examples.conversion_fails_world
                    Examples.labels_a_b)))
     = [(1%nat, "out/a.jpg")].
Proof. vm_compute. repeat split. Qed.

(** C5 on the source: [fs::create_directories] is called in the overload
    that throws, and [main] catches nothing.  All four cameras have their
    video and their label file; the output directory of the second one
    cannot be created.  The first job runs; at the second the process
    aborts: the job is not marked failed, no message about it is printed,
    the third and fourth job, whose preconditions hold, never run, and
    there is no final line and no exit status. *)
Theorem C5_uncreatable_directory_aborts_the_batch :
  fst (Main.main Examples.no_dir_world Examples.main_disk) = Main.Aborted
  /\ Trace.invocations
       (out (snd (Main.main Examples.no_dir_world Examples.main_disk)))
     = [(Main.video_path "ofilm_around_front_190_3M",
         Main.txt_path "ofilm_around_front_190_3M",
         Main.output_dir "ofilm_around_front_190_3M")]
  /\ Trace.errors
       (out (snd (Main.main Examples.no_dir_world Examples.main_disk)))
     = []
  /\ Batch.preconditions_hold Examples.no_dir_world
       "ofilm_around_left_190_3M"
       (snd (Main.main Examples.no_dir_world Examples.main_disk)) = true
  /\ Batch.preconditions_hold Examples.no_dir_world
       "ofilm_around_right_190_3M"
       (snd (Main.main Examples.no_dir_world Examples.main_disk)) = true.
Proof. vm_compute. repeat split. Qed.

(** * Further properties of the source *)

(** ** Label file *)

Section LabelFacts.

Import LabelSource Lines.

Lemma newline_free_app a b :
  newline_free a = true -> newline_free b = true ->
  newline_free (a +:+ b) = true.
Proof.
  induction a as [|c a IH]; intros Ha Hb; [exact Hb|].
  rewrite append_cons. simpl in *.
  apply andb_true_iff in Ha as [Hc Ha]. now rewrite Hc, IH.
Qed.

Lemma lines_from_newline_free s cur :
  newline_free cur = true ->
  Forall (fun l => newline_free l = true) (lines_from cur s).
Proof.
  revert cur. induction s as [|c s IH]; intros cur Hcur; simpl.
  - destruct (String.eqb cur EmptyString); constructor; auto.
  - destruct (Ascii.eqb c newline) eqn:Hc.
    + constructor; [assumption|]. now apply IH.
    + apply IH. apply newline_free_app; [assumption|]. simpl. now rewrite Hc.
Qed.

(** X2: every label read from the file is a non-empty string without a
    newline in it, whatever the file holds. *)
Theorem labels_are_nonempty_single_lines (content : string) :
  Forall (fun l => l <> EmptyString /\ newline_free l = true)
         (read_labels content).
Proof.
  unfold read_labels. rewrite read_loop_lines. cbn [app].
  pose proof (lines_from_newline_free content EmptyString eq_refl) as H.
  fold (lines_of content) in H.
  induction H as [|l ls Hl _ IH]; [constructor|]. simpl.
  destruct (nonempty l) eqn:Hn; [|exact IH].
  constructor; [|exact IH]. split; [|exact Hl].
  intros ->. discriminate.
Qed.

End LabelFacts.

(** ** Stream selection *)

Section StreamFacts.

Import Decode.

Lemma find_video_stream_from k ss :
  0 <= k ->
  (fst (find_video_stream k ss) = -1
   /\ snd (find_video_stream k ss) = false
   /\ Forall (fun s => codec_type s <> AVMEDIA_TYPE_VIDEO) ss)
  \/ (exists n s,
        fst (find_video_stream k ss) = k + Z.of_nat n
        /\ ss !! n = Some s
        /\ codec_type s = AVMEDIA_TYPE_VIDEO
        /\ snd (find_video_stream k ss) = decoder_found s
        /\ Forall (fun s => codec_type s <> AVMEDIA_TYPE_VIDEO) (take n ss)).
Proof.
  revert k. induction ss as [|s ss IH]; intros k Hk; simpl.
  - left. repeat split. constructor.
  - destruct (codec_type s =? AVMEDIA_TYPE_VIDEO) eqn:Hs.
    + right. exists 0%nat, s. apply Z.eqb_eq in Hs. cbn.
      repeat split; auto. lia.
    + apply Z.eqb_neq in Hs.
      destruct (IH (k + 1) ltac:(lia)) as [(H1 & H2 & H3) | (n & s' & H1 & H2 & H3 & H4 & H5)].
      * left. repeat split; auto.
      * right. exists (S n), s'. cbn. repeat split; auto. lia.
Qed.

(** X3: the stream search returns the position of the first video stream and
    whether a decoder exists for that stream; later video streams are not
    looked at, also when the first one has no decoder.  Without a video
    stream the index is -1 and no decoder is set. *)
Theorem find_video_stream_first ss :
  (fst (find_video_stream 0 ss) = -1
   /\ snd (find_video_stream 0 ss) = false
   /\ Forall (fun s => codec_type s <> AVMEDIA_TYPE_VIDEO) ss)
  \/ (exists n s,
        fst (find_video_stream 0 ss) = Z.of_nat n
        /\ ss !! n = Some s
        /\ codec_type s = AVMEDIA_TYPE_VIDEO
        /\ snd (find_video_stream 0 ss) = decoder_found s
        /\ Forall (fun s => codec_type s <> AVMEDIA_TYPE_VIDEO) (take n ss)).
Proof.
  destruct (find_video_stream_from 0 ss ltac:(lia)) as [H | H]; [now left|].
  right. destruct H as (n & s & H). exists n, s.
  now rewrite Z.add_0_l in H.
Qed.

End StreamFacts.

(** ** Packets and flush *)

Section PacketFacts.

Import Decode Reading.

(** X4: packets of other streams and packets the decoder refuses leave no
    mark: the outer loop does what it would do on the submitted packets
    alone. *)
Theorem read_packets_submitted w j vsi pkts answers l st :
  read_packets w j vsi pkts answers l st
  = read_packets w j vsi (List.filter (submitted vsi) pkts) answers l st.
Proof.
  revert answers l st. induction pkts as [|p pkts IH]; intros answers l st.
  - reflexivity.
  - cbn [List.filter read_packets]. unfold submitted at 1.
    destruct (stream_index p =? vsi) eqn:Hs; cbn [andb]; [|apply IH].
    destruct (send_packet_ret p <? 0) eqn:Hr; cbn [negb]; [apply IH|].
    cbn [read_packets]. rewrite Hs, Hr.
    destruct (receive_frames w j answers l st) as [[a1 l1] s1]. apply IH.
Qed.

(** X5: the flush loop ends at the first negative answer of the decoder,
    be it end of stream or a hard error: what the decoder would give
    after it is never received. *)
Theorem flush_frames_leading w j answers l st :
  flush_frames w j answers l st
  = flush_frames w j (leading_frames answers) l st.
Proof.
  revert l st. induction answers as [|r answers IH]; intros l st.
  - reflexivity.
  - cbn [leading_frames flush_frames].
    destruct (receive_ret r >=? 0) eqn:Hr; [|reflexivity].
    cbn [flush_frames]. rewrite Hr.
    destruct (has_label j l); [|apply IH].
    destruct (save w j (received_frame r) l _) as [l1 s1]. apply IH.
Qed.

End PacketFacts.

(** ** The pipeline, whatever happens *)

Section Pipeline.

Import Jpeg Decode Trace Reading.

(** A message of the set-up is no incomplete-write message and none of
    the decode loop. *)
Lemma from_setup_other m :
  from_setup m = true ->
  is_incomplete_write m = false /\ from_decode_loop m = false.
Proof. destruct m; cbn; intros; try discriminate; auto. Qed.

(** The events of a run: the call, what [prepare] printed, and the
    events of the loop if there was one. *)
Lemma run_trace w video txt dir st :
  exists C E,
    events_since st (snd (decode_video_to_images w video txt dir st))
    = Pipeline video txt dir :: C ++ E
    /\ received C = [] /\ saved C = [] /\ fopens C = []
    /\ match fst (prepare w video txt dir st) with
       | Thrown =>
           E = [] /\ errors C = []
           /\ fst (decode_video_to_images w video txt dir st) = Thrown
           /\ files (snd (decode_video_to_images w video txt dir st)) = files st
       | Returned None =>
           E = []
           /\ fst (decode_video_to_images w video txt dir st) = Returned false
           /\ files (snd (decode_video_to_images w video txt dir st)) = files st
           /\ forallb from_setup (errors C) = true
           /\ ((exists m, errors C = [m])
               \/ exists ret,
                    errors C = [VideoOpenFailed video; VideoOpenErrorCode ret])
       | Returned (Some (j, vsi, v)) =>
           errors C = []
           /\ output_dir j = dir
           /\ frame_indices j
              = LabelSource.read_labels
                  (default EmptyString (files st !! named w txt))
           /\ exists st1,
                prepare w video txt dir st = (Returned (Some (j, vsi, v)), st1)
                /\ files st1 = files st
                /\ decode_video_to_images w video txt dir st
                   = (Returned (success (fst (decode_loop w j vsi v st1))),
                      snd (decode_loop w j vsi v st1))
                /\ out (snd (decode_loop w j vsi v st1)) = out st1 ++ E
       end.
Proof.
  destruct (prepare_cases w video txt dir st)
    as (Hf & _ & _ & _ & C & HC & H1 & H2 & H3 & _ & Hm).
  destruct (run_cases w video txt dir st)
    as [(st1 & Hp & Hr) | [(st1 & Hp & Hr) | (j & vsi & v & st1 & Hp & Hr)]];
    rewrite Hp in *; cbn [fst snd] in *.
  - exists C, []. rewrite Hr. cbn [fst snd]. rewrite app_nil_r.
    split; [now apply events_since_app|]. repeat split; auto.
  - exists C, []. rewrite Hr. cbn [fst snd]. rewrite app_nil_r.
    split; [now apply events_since_app|].
    destruct Hm as (Hm1 & Hm2). repeat split; auto.
  - destruct (decode_loop_paths w j vsi v st1) as (E & HE & _).
    exists C, E. rewrite Hr. cbn [fst snd].
    split; [apply events_since_app; rewrite HE, HC, <- app_assoc; reflexivity|].
    destruct (prepare_some _ _ _ _ _ _ _ _ _ Hp) as (Hd & Hl & _).
    repeat split; try assumption. exists st1. repeat split; assumption.
Qed.

(** X6: a job that returns has returned false exactly when it printed a
    message other than the one about an incomplete write: a job that
    returns false has said why, and every other message makes the job
    fail.  A job that ends by an exception has printed nothing. *)
Theorem job_fails_iff_it_complains w video txt dir st :
  match fst (decode_video_to_images w video txt dir st) with
  | Returned ok =>
      ok = forallb is_incomplete_write
             (errors (events_since st
                        (snd (decode_video_to_images w video txt dir st))))
  | Thrown =>
      errors (events_since st
                (snd (decode_video_to_images w video txt dir st))) = []
  end.
Proof.
  destruct (run_trace w video txt dir st)
    as (C & E & -> & _ & _ & _ & Hm).
  cbn [errors]. rewrite errors_app, forallb_app.
  destruct (fst (prepare w video txt dir st)) as [[[[j vsi] v]|]|].
  - destruct Hm as (-> & _ & _ & st1 & _ & _ & -> & HE). cbn [fst forallb andb].
    destruct (decode_loop_success w j vsi v st1) as (E' & HE' & ->).
    rewrite HE in HE'. apply app_inv_head in HE'. now subst E'.
  - destruct Hm as (-> & -> & _ & Hall & Hshape). cbn [forallb].
    rewrite andb_true_r.
    destruct Hshape as [(m & Hm) | (ret & Hm)]; rewrite Hm in *;
      [|reflexivity].
    cbn in Hall |- *. rewrite andb_true_r in Hall.
    now destruct (from_setup_other m Hall) as [-> _].
  - destruct Hm as (-> & -> & -> & _). reflexivity.
Qed.

(** X7: the encoder is called with the paths of the first labels of the
    label file, in their order, one call for each label used; it is
    never called more often than frames were received or than there are
    labels, and every file opened is the file of such a call.  This holds
    in every run, whatever fails in it. *)
Theorem encoder_paths_follow_the_labels w video txt dir st :
  let E := events_since st (snd (decode_video_to_images w video txt dir st)) in
  let labels :=
    LabelSource.read_labels (default EmptyString (files st !! named w txt)) in
  map snd (saved E) = map (jpg_path dir) (take (length (saved E)) labels)
  /\ (length (fopens E) <= length (saved E))%nat
  /\ (length (saved E) <= Nat.min (length (received E)) (length labels))%nat
  /\ fopens E `sublist_of` map snd (saved E).
Proof.
  intros E labels. subst E labels.
  destruct (run_trace w video txt dir st)
    as (C & E & -> & HC1 & HC2 & HC3 & Hm).
  cbn [saved fopens received].
  rewrite saved_app, fopens_app, received_app, HC1, HC2, HC3. cbn [app].
  destruct (fst (prepare w video txt dir st)) as [[[[j vsi] v]|]|].
  - destruct Hm as (_ & Hd & Hl & st1 & _ & _ & _ & HE).
    destruct (decode_loop_paths w j vsi v st1)
      as (E' & HE' & _ & _ & K1 & K2 & K3 & K4 & K5).
    rewrite HE in HE'. apply app_inv_head in HE'. subst E'.
    rewrite <- Hd, <- Hl. repeat split; try assumption. lia.
  - destruct Hm as (-> & _). cbn. repeat split; try lia. apply sublist_nil_l.
  - destruct Hm as (-> & _). cbn. repeat split; try lia. apply sublist_nil_l.
Qed.

End Pipeline.

Section PipelineFiles.

Import Jpeg Decode Trace Reading.

Lemma decode_loop_keeps_existing w j vsi v st p :
  fs_exists p st = true ->
  fs_exists p (snd (decode_loop w j vsi v st)) = true.
Proof.
  destruct (decode_loop_files w j vsi v st) as (E & _ & HD & _ & HK).
  unfold fs_exists. rewrite HD. intros H.
  apply orb_true_iff in H as [H | H]; apply orb_true_iff; [left | now right].
  apply bool_decide_eq_true in H. apply bool_decide_eq_true. auto.
Qed.

Lemma job_keeps_existing w video txt dir st p :
  fs_exists p st = true ->
  fs_exists p (snd (decode_video_to_images w video txt dir st)) = true.
Proof.
  intros H.
  assert (fs_exists p (snd (prepare w video txt dir st)) = true) as H1.
  { destruct (prepare_cases w video txt dir st) as (Hf & Hd & _).
    now apply (fs_exists_mono p st). }
  destruct (run_cases w video txt dir st)
    as [(st1 & Hp & Hr) | [(st1 & Hp & Hr) | (j & vsi & v & st1 & Hp & Hr)]];
    rewrite Hp in *; rewrite Hr; cbn [fst snd] in *.
  - assumption.
  - assumption.
  - now apply decode_loop_keeps_existing.
Qed.

(** X8: a run changes no file but the files named by the paths
    [<dir>/<label>.jpg] it opened for writing; it loses no file and no
    directory; and it adds no directory but the output directory and the
    parents [fs::create_directories] made for it. *)
Theorem job_changes_only_label_files w video txt dir st q :
  ((exists label,
      In label (LabelSource.read_labels
                  (default EmptyString (files st !! named w txt)))
      /\ In (jpg_path dir label)
            (fopens (events_since st
                       (snd (decode_video_to_images w video txt dir st))))
      /\ q = named w (jpg_path dir label))
   \/ files (snd (decode_video_to_images w video txt dir st)) !! q
      = files st !! q)
  /\ implb (fs_exists q st)
           (fs_exists q (snd (decode_video_to_images w video txt dir st)))
     = true
  /\ dirs (snd (decode_video_to_images w video txt dir st))
     ⊆ {[named w dir]} ∪ (list_to_set (made_dirs w dir) ∪ dirs st).
Proof.
  split; [|split].
  - destruct (run_trace w video txt dir st)
      as (C & E & -> & _ & _ & HC3 & Hm).
    cbn [fopens]. rewrite fopens_app, HC3. cbn [app].
    destruct (fst (prepare w video txt dir st)) as [[[[j vsi] v]|]|].
    + destruct Hm as (_ & Hd & Hl & st1 & _ & Hf1 & -> & HE). cbn [snd].
      destruct (decode_loop_files w j vsi v st1) as (E' & HE' & _ & HK & _).
      rewrite HE in HE'. apply app_inv_head in HE'. subst E'.
      destruct (decode_loop_paths w j vsi v st1)
        as (E' & HE' & _ & _ & _ & _ & _ & K4 & K5).
      rewrite HE in HE'. apply app_inv_head in HE'. subst E'.
      destruct (decide (q ∈ map (named w) (fopens E))) as [Hin | Hout];
        [left | right; rewrite <- Hf1; now apply HK].
      apply list_elem_of_In, in_map_iff in Hin as (p & <- & Hp).
      pose proof Hp as Hp'. apply list_elem_of_In in Hp'.
      apply (elem_of_sublist _ _ _ Hp') in K5. rewrite K4, Hd, Hl in K5.
      apply list_elem_of_In, in_map_iff in K5 as (label & <- & Hin).
      exists label. split; [|auto].
      apply list_elem_of_In. apply list_elem_of_In in Hin.
      eapply elem_of_sublist; [exact Hin | apply sublist_take].
    + destruct Hm as (_ & _ & Hf & _). right. now rewrite Hf.
    + destruct Hm as (_ & _ & _ & Hf). right. now rewrite Hf.
  - destruct (fs_exists q st) eqn:H; [|reflexivity]. cbn [implb].
    now apply job_keeps_existing.
  - destruct (prepare_cases w video txt dir st) as (_ & _ & Hb & _).
    unfold dirs_bound in Hb.
    destruct (run_cases w video txt dir st)
      as [(st1 & Hp & Hr) | [(st1 & Hp & Hr) | (j & vsi & v & st1 & Hp & Hr)]];
      rewrite Hp in *; rewrite Hr; cbn [fst snd] in *; try assumption.
    destruct (decode_loop_files w j vsi v st1) as (E & _ & -> & _).
    assumption.
Qed.


(** X10: the output directory is made before the label file and the video
    are looked at: when it exists or can be created, it exists after the
    call, also when the job then fails. *)
Theorem output_dir_exists_after_the_job w video txt dir st :
  fs_exists (named w dir) st = true \/ create_directories_ok w dir = true ->
  fs_exists (named w dir) (snd (decode_video_to_images w video txt dir st))
  = true.
Proof.
  intros H.
  destruct (prepare_cases w video txt dir st) as (_ & _ & _ & Hd & _).
  specialize (Hd H).
  destruct (run_cases w video txt dir st)
    as [(st1 & Hp & Hr) | [(st1 & Hp & Hr) | (j & vsi & v & st1 & Hp & Hr)]];
    rewrite Hp in *; rewrite Hr; cbn [fst snd] in *.
  - assumption.
  - assumption.
  - now apply decode_loop_keeps_existing.
Qed.

(** The label file is missing and the output directory does not exist
    yet: the job fails, and the directory is there afterwards. *)
Lemma output_dir_exists_after_the_job_witness :
  (fs_exists (named Examples.plain_world "out") Examples.disk_without_labels
   = true
   \/ create_directories_ok Examples.plain_world "out" = true)
  /\ fst (decode_video_to_images Examples.plain_world "v.mp4" "v.txt" "out"
            Examples.disk_without_labels) = Returned false
  /\ fs_exists (named Examples.plain_world "out")
       (snd (decode_video_to_images Examples.plain_world "v.mp4" "v.txt" "out"
               Examples.disk_without_labels)) = true.
Proof.
  split; [right; reflexivity|]. split; [reflexivity|].
  apply (output_dir_exists_after_the_job Examples.plain_world
           "v.mp4" "v.txt" "out" Examples.disk_without_labels).
  right. reflexivity.
Defined.

(** X11: when the decode loop ends, [frame_count] is the number of calls of
    the encoder and [decoded_frames] the number of files opened for
    writing; neither exceeds the number of frames received or the number
    of labels. *)
Theorem counters_count_calls_and_files w j vsi v st :
  let l := fst (decode_loop w j vsi v st) in
  let E := events_since st (snd (decode_loop w j vsi v st)) in
  frame_count l = Z.of_nat (length (saved E))
  /\ decoded_frames l = Z.of_nat (length (fopens E))
  /\ decoded_frames l <= frame_count l
  /\ frame_count l
     <= Z.of_nat (Nat.min (length (received E)) (length (frame_indices j))).
Proof.
  intros l E. subst l E.
  destruct (decode_loop_paths w j vsi v st)
    as (E & HE & K1 & K2 & K3 & K4 & K5 & _).
  rewrite (events_since_app _ _ _ HE). rewrite K1, K2.
  repeat split; lia.
Qed.

(** X13: a call of the encoder returns true exactly when a packet was
    produced and the file could be opened.  It touches no directory and
    no file but the one its path names, as a C string, and that one only
    when it returns true, and then that file holds what is in it when
    [fclose] is done; it prints one message when it returns false and at
    most the incomplete-write message when it returns true. *)
Theorem encoder_call_outcome a file f p st :
  fst (decode_and_save_frame a file f p st) = packet_produced a && fopen_ok a
  /\ dirs (snd (decode_and_save_frame a file f p st)) = dirs st
  /\ (forall q,
        q = file (c_str p) /\ fst (decode_and_save_frame a file f p st) = true
        \/ files (snd (decode_and_save_frame a file f p st)) !! q
           = files st !! q)
  /\ (if fst (decode_and_save_frame a file f p st)
      then files (snd (decode_and_save_frame a file f p st)) !! file (c_str p)
           = Some (file_content a)
      else files (snd (decode_and_save_frame a file f p st)) = files st)
  /\ fopens (events_since st (snd (decode_and_save_frame a file f p st)))
     = (if fst (decode_and_save_frame a file f p st) then [p] else [])
  /\ length (errors (events_since st
                       (snd (decode_and_save_frame a file f p st))))
     = (if fst (decode_and_save_frame a file f p st)
        then if fwrite_ret a =? pkt_size a then 0%nat else 1%nat
        else 1%nat).
Proof.
  destruct (decode_and_save_frame_cases a file f p st)
    as [(Hok & ->) | (Hno & m & _ & _ & ->)]; cbn [fst snd].
  - rewrite Hok. split; [reflexivity|]. split; [reflexivity|].
    erewrite events_since_app by reflexivity. cbn [files fopens errors].
    unfold write_report.
    split; [|split; [|split]].
    + intros q. destruct (decide (q = file (c_str p))) as [-> | Hne];
        [now left|].
      right. now rewrite lookup_insert_ne by congruence.
    + destruct (fwrite_ret a =? pkt_size a); cbn [files emit put_file];
        first [apply lookup_insert_eq | apply lookup_insert].
    + now destruct (fwrite_ret a =? pkt_size a).
    + now destruct (fwrite_ret a =? pkt_size a).
  - rewrite Hno, events_since_emit. cbn. repeat split; auto.
Qed.

(** A label with a NUL in it: the path handed to [fopen] ends at the NUL,
    so the file written is out/a, whatever follows in the label. *)
Example label_with_nul :
  files (snd (decode_and_save_frame Examples.jpeg_fine (fun p => p)
                (Examples.yuv 1)
                ("out/a" +:+ String Ascii.zero "b.jpg")
                (Examples.disk EmptyString)))
  = <["out/a" := "JPEG"]> (files (Examples.disk EmptyString)).
Proof. vm_compute. reflexivity. Qed.

End PipelineFiles.

(** ** The batch and the checks of the pipeline *)

Section BatchMessages.

Import Decode Main Trace Reading.

Variable w : World.

Lemma from_decode_loop_not_missing m :
  from_decode_loop m = true -> negb (missing_input m) = true.
Proof. destruct m; cbn; congruence. Qed.

(** Called where its three inputs exist, the pipeline prints none of its
    messages about a missing input. *)
Lemma pipeline_with_inputs video txt dir st :
  fs_exists (named w dir) st = true -> fs_exists (named w txt) st = true ->
  fs_exists (named w video) st = true ->
  exists C, out (snd (decode_video_to_images w video txt dir st)) = out st ++ C
    /\ forallb (fun m => negb (missing_input m)) (errors C) = true.
Proof.
  intros Hd Ht Hv.
  destruct (prepare_inputs_present w video txt dir st Hd Ht Hv)
    as (_ & C & HC & HM).
  destruct (run_cases w video txt dir st)
    as [(st1 & Hp & Hr) | [(st1 & Hp & Hr) | (j & vsi & v & st1 & Hp & Hr)]];
    rewrite Hp in *; rewrite Hr; cbn [fst snd] in *.
  - exists (Pipeline video txt dir :: C). split; [assumption|]. exact HM.
  - exists (Pipeline video txt dir :: C). split; [assumption|]. exact HM.
  - destruct (decode_loop_messages w j vsi v st1) as (E & HE & HL).
    exists (Pipeline video txt dir :: C ++ E).
    split; [rewrite HE, HC, <- app_assoc; reflexivity|].
    cbn [errors]. rewrite errors_app, forallb_app, HM. cbn [andb].
    apply forallb_forall. intros m Hm.
    apply from_decode_loop_not_missing.
    rewrite forallb_forall in HL. now apply HL.
Qed.

Lemma camera_body_messages prefix b st :
  exists C, out (snd (camera_body w prefix b st)) = out st ++ C
    /\ forallb (fun m => negb (missing_input m)) (errors C) = true.
Proof.
  unfold camera_body.
  destruct (fs_exists_call w (video_path prefix) st) as [[|]|] eqn:Hv;
    [ | eexists; split; reflexivity
      | exists []; rewrite app_nil_r; split; reflexivity ].
  apply fs_exists_call_returned in Hv. symmetry in Hv.
  destruct (fs_exists_call w (txt_path prefix) st) as [[|]|] eqn:Ht;
    [ | eexists; split; reflexivity
      | exists []; rewrite app_nil_r; split; reflexivity ].
  apply fs_exists_call_returned in Ht. symmetry in Ht.
  destruct (cannot_provide_dir_state w (output_dir prefix) st)
    as (_ & Ho & _).
  pose proof (cannot_provide_dir_cases w (output_dir prefix) st) as Hc.
  pose proof (cannot_provide_dir_keeps w (output_dir prefix) _ st Hv) as Hv'.
  pose proof (cannot_provide_dir_keeps w (output_dir prefix) _ st Ht) as Ht'.
  destruct (cannot_provide_dir w (output_dir prefix) st) as [no_dir st0].
  cbn [fst snd] in *.
  destruct Hc as [(-> & _) | [(-> & _) | (-> & _ & Hd)]].
  - exists []. rewrite app_nil_r. cbn [snd]. auto.
  - exists [Cerr (MainOutputDirFailed (output_dir prefix))].
    cbn [snd emit out]. rewrite Ho. auto.
  - destruct (pipeline_with_inputs (video_path prefix) (txt_path prefix)
                (output_dir prefix) st0 Hd Ht' Hv') as (C & HC & HM).
    destruct (decode_video_to_images w _ _ _ st0) as [[[|]|] st1];
      cbn [snd] in HC; cbn [snd emit out].
    + exists C. rewrite HC, Ho. auto.
    + exists (C ++ [Cerr (ProcessingFailed prefix)]).
      rewrite HC, Ho, <- app_assoc, errors_app, forallb_app, HM. auto.
    + exists C. rewrite HC, Ho. auto.
Qed.

(** X16: in a batch the pipeline never prints its own messages about a
    missing output directory, label file or video file: [main] has
    tested all three before each call, so those paths of the pipeline
    are not taken. *)
Theorem batch_reports_missing_inputs_itself cams b st :
  forallb (fun m => negb (missing_input m))
    (errors (events_since st (snd (camera_loop w cams b st)))) = true.
Proof.
  assert (exists E, out (snd (camera_loop w cams b st)) = out st ++ E
            /\ forallb (fun m => negb (missing_input m)) (errors E) = true)
    as (E & HE & HM).
  { revert b st. induction cams as [|prefix cams IH]; intros b st.
    - exists []. cbn. now rewrite app_nil_r.
    - cbn [camera_loop].
      destruct (camera_body_messages prefix b st) as (C & HC & HMC).
      destruct (camera_body w prefix b st) as [[b'|] st']; cbn [snd] in HC.
      + destruct (IH b' st') as (E & HE & HME).
        exists (C ++ E).
        rewrite HE, HC, <- app_assoc, errors_app, forallb_app, HMC, HME. auto.
      + exists C. cbn [snd]. auto. }
  now rewrite (events_since_app _ _ _ HE).
Qed.

End BatchMessages.

Section BatchFiles.

Import Decode Main Trace Reading.

Variable w : World.

Lemma camera_body_keeps_existing prefix b st p :
  fs_exists p st = true ->
  fs_exists p (snd (camera_body w prefix b st)) = true.
Proof.
  intros H. unfold camera_body.
  destruct (fs_exists_call w (video_path prefix) st) as [[|]|];
    [|exact H|exact H].
  destruct (fs_exists_call w (txt_path prefix) st) as [[|]|];
    [|exact H|exact H].
  pose proof (cannot_provide_dir_keeps w (output_dir prefix) p st H) as H0.
  destruct (cannot_provide_dir w (output_dir prefix) st) as [[[|]|] st0];
    cbn [snd] in H0; [exact H0| |exact H0].
  pose proof (job_keeps_existing w (video_path prefix) (txt_path prefix)
                (output_dir prefix) st0 p H0) as H1.
  destruct (decode_video_to_images w _ _ _ st0) as [[[|]|] st1];
    cbn [snd] in H1; exact H1.
Qed.

(** X18: a batch loses nothing: every file and every directory that
    exists before the loop over the cameras exists after it. *)
Theorem batch_loses_nothing cams b st p :
  implb (fs_exists p st) (fs_exists p (snd (camera_loop w cams b st))) = true.
Proof.
  destruct (fs_exists p st) eqn:H; [|reflexivity]. cbn [implb].
  revert b st H. induction cams as [|prefix cams IH]; intros b st H.
  - exact H.
  - cbn [camera_loop].
    pose proof (camera_body_keeps_existing prefix b st p H) as H1.
    destruct (camera_body w prefix b st) as [[b'|] st']; [now apply IH|].
    exact H1.
Qed.

End BatchFiles.


(** ** Labels, counters and alignment *)

(** X1: a label file written as lines, each ended by a newline, is read
    back as exactly those lines that are not empty, in order and
    unchanged; lines of blanks are labels too. *)
Theorem labels_round_trip (ls : list string) :
  forallb Lines.newline_free ls = true ->
  LabelSource.read_labels (Lines.unlines ls)
  = List.filter Lines.nonempty ls.
Proof.
  intros H. unfold LabelSource.read_labels.
  rewrite read_loop_lines. cbn [app].
  now rewrite lines_of_unlines.
Qed.

Lemma labels_round_trip_witness :
  forallb Lines.newline_free ["a"; " "; EmptyString; "b c"] = true
  /\ LabelSource.read_labels (Lines.unlines ["a"; " "; EmptyString; "b c"])
     = ["a"; " "; "b c"].
Proof.
  split; [reflexivity|].
  rewrite (labels_round_trip ["a"; " "; EmptyString; "b c"]); reflexivity.
Defined.

(** ** The counters stay within int *)

Section Counters.

Import Decode.

Lemma static_cast_int_range n :
  - 2 ^ 31 <= static_cast_int n <= INT_MAX.
Proof.
  unfold static_cast_int, INT_MAX.
  pose proof (Z.mod_pos_bound n (2 ^ 32) ltac:(lia)) as Hm.
  destruct (n mod 2 ^ 32 <? 2 ^ 31) eqn:E;
    [apply Z.ltb_lt in E | apply Z.ltb_ge in E]; lia.
Qed.

Lemma save_locals w j f l st :
  fst (save w j f l st) = next_frame (count_decoded l)
  \/ fst (save w j f l st) = next_frame (fail l).
Proof.
  unfold save. destruct (Jpeg.decode_and_save_frame _ _ _ _ _) as [[] s]; auto.
Qed.

Definition in_range (j : Job) (l : Locals) : Prop :=
  0 <= decoded_frames l <= frame_count l
  /\ frame_count l
     <= Z.max 0 (static_cast_int (Z.of_nat (length (frame_indices j)))).

Lemma in_range_save w j f l st :
  in_range j l -> has_label j l = true -> in_range j (fst (save w j f l st)).
Proof.
  unfold in_range, has_label. intros (H1 & H2) Hl. apply Z.ltb_lt in Hl.
  destruct (save_locals w j f l st) as [-> | ->]; cbn; lia.
Qed.

End Counters.

(** X12: at the end of the decode loop both counters lie between 0 and
    INT_MAX, however many labels and frames there are: no [++] of the
    loop overflows its int. *)
Theorem counters_never_overflow w j vsi v st :
  0 <= Decode.decoded_frames (fst (Decode.decode_loop w j vsi v st))
    <= Decode.frame_count (fst (Decode.decode_loop w j vsi v st))
  /\ Decode.frame_count (fst (Decode.decode_loop w j vsi v st)) <= INT_MAX.
Proof.
  assert (in_range j (fst (Decode.decode_loop w j vsi v st))) as (H1 & H2).
  { apply (decode_loop_inv w j (fun _ => True) (fun l _ => in_range j l)).
    - intros r l s _ _ _ _ H. exact H.
    - intros r l s c l' s' _ _ H Hb.
      destruct (frame_body_cases w j (Decode.received_frame r) l
                  (emit (Received (Decode.received_frame r)) s))
        as [(_ & Hc) | [(_ & _ & _ & B & _ & Hc) | (Hl & _ & Hc)]];
        rewrite Hc in Hb; injection Hb as <- <- <-; try exact H.
      now apply in_range_save.
    - intros r l s _ _ H Hl. now apply in_range_save.
    - intros r l s _ _ H _. exact H.
    - apply Forall_forall. auto.
    - unfold in_range. cbn.
      pose proof (static_cast_int_range
                    (Z.of_nat (length (Decode.frame_indices j)))).
      lia. }
  split; [assumption|].
  pose proof (static_cast_int_range
                (Z.of_nat (length (Decode.frame_indices j)))).
  unfold INT_MAX in *. lia.
Qed.

(** ** Alignment when the encoder fails *)

Section RobustAlignment.

Import Jpeg Decode Trace Reading.

Lemma conversion_assignment B n :
  forallb is_conversion B = true -> assignment_from n B = [].
Proof.
  induction B as [|e B IH]; [auto|]; simpl; intros H.
  apply andb_true_iff in H as [He HB].
  destruct e; try discriminate; simpl; now apply IH.
Qed.

Variable w : World.
Variable j : Job.

Hypothesis labels_fit : Z.of_nat (length (frame_indices j)) <= INT_MAX.
Hypothesis conversions_work : forall f, conversion_ok (sws_of w f) = true.

(** The cursor stands at the smaller of the frames received and the
    labels, and frame [i] went to the encoder under label [i]. *)
Definition in_line (l : Locals) (E : list event) : Prop :=
  frame_count l
  = Z.of_nat (Nat.min (length (received E)) (length (frame_indices j)))
  /\ assignment E
     = imap (fun i label => (i, jpg_path (output_dir j) label))
         (take (Nat.min (length (received E)) (length (frame_indices j)))
            (frame_indices j)).

Lemma in_line_skip l l' E f C :
  in_line l E -> has_label j l = false -> frame_count l' = frame_count l ->
  received C = [] -> (forall n, assignment_from n C = []) ->
  in_line l' (E ++ Received f :: C).
Proof.
  intros (Hfc & Has) Hl Hfc' HrC HaC.
  rewrite (has_label_lt j l _ labels_fit Hfc) in Hl.
  apply bool_decide_eq_false in Hl.
  assert (Nat.min (length (received (E ++ Received f :: C)))
                  (length (frame_indices j))
          = Nat.min (length (received E)) (length (frame_indices j))) as Hmin.
  { rewrite received_app, length_app. cbn. lia. }
  unfold in_line. rewrite Hmin, Hfc'. split; [assumption|].
  unfold assignment in *. rewrite assignment_from_app. cbn.
  now rewrite HaC, app_nil_r.
Qed.

Lemma in_line_call l l' E f g B M :
  in_line l E -> has_label j l = true ->
  frame_count l' = frame_count l + 1 ->
  forallb is_conversion B = true ->
  received M = [] -> (forall n, assignment_from n M = []) ->
  in_line l' (E ++ Received f :: B ++ SaveFrame g (output_path j l) :: M).
Proof.
  intros (Hfc & Has) Hl Hfc' HB HrM HaM.
  destruct (conversion_events B HB) as (Br & _).
  rewrite (has_label_lt j l _ labels_fit Hfc) in Hl.
  apply bool_decide_eq_true in Hl.
  assert (Nat.min (length (received E)) (length (frame_indices j))
          = length (received E)) as HK by lia.
  rewrite HK in *.
  assert (Nat.min (length (received
            (E ++ Received f :: B ++ SaveFrame g (output_path j l) :: M)))
            (length (frame_indices j))
          = S (length (received E))) as Hmin.
  { rewrite received_app, length_app. cbn. rewrite received_app, Br. cbn.
    rewrite HrM. cbn. lia. }
  destruct (lookup_lt_is_Some_2 (frame_indices j) (length (received E)))
    as [label Hlab]; [lia|].
  assert (output_path j l = jpg_path (output_dir j) label) as Hpath.
  { unfold output_path. rewrite Hfc, Nat2Z.id, nth_lookup, Hlab. reflexivity. }
  unfold in_line. rewrite Hmin, Hfc', Hfc. split; [lia|].
  rewrite (take_S_r _ _ _ Hlab), imap_app.
  rewrite length_take, (Nat.min_l (length (received E))) by lia.
  unfold assignment in *. rewrite assignment_from_app. cbn.
  rewrite assignment_from_app, (conversion_assignment B _ HB), Br. cbn.
  now rewrite HaM, Has, Hpath, !Nat.add_0_r.
Qed.

Lemma decode_loop_in_line vsi v st :
  exists E, out (snd (decode_loop w j vsi v st)) = out st ++ E
    /\ in_line (fst (decode_loop w j vsi v st)) E.
Proof.
  destruct (decode_loop_trace w j (fun l _ E => in_line l E)) with
    (vsi := vsi) (v := v) (st := st) as (E & HE & _ & HQ);
    [ | | | | | | eauto].
  - intros l F E ret (Hfc & Has). unfold in_line.
    rewrite received_app. cbn. rewrite app_nil_r.
    split; [assumption|]. unfold assignment in *.
    rewrite assignment_from_app. cbn. now rewrite app_nil_r.
  - intros l F E f C HL Hl HC.
    apply (in_line_skip l l E f C HL Hl eq_refl);
      destruct HC as [-> | ->]; reflexivity.
  - intros l F E f B m _ _ _ Hno.
    rewrite conversions_work in Hno. discriminate.
  - intros l F E f g B HL Hl HB _ _.
    apply (in_line_call l (next_frame (count_decoded l)) E f g B _ HL Hl);
      try reflexivity; try assumption;
      destruct (write_report_cases (jpeg_of w g (output_path j l)))
        as [-> | (n & k & ->)]; reflexivity.
  - intros l F E f g B m HL Hl HB _ _ _ _.
    apply (in_line_call l (next_frame (fail l)) E f g B _ HL Hl);
      try reflexivity; assumption.
  - split; reflexivity.
Qed.

End RobustAlignment.

(** X19: when no conversion fails, the frame at position i of the
    decode-emission order goes to the encoder under label i, for every
    frame up to the last label, also when calls of the encoder fail:
    a frame that could not be saved still uses up its label. *)
Theorem encoder_failures_keep_the_alignment w video txt dir st :
  Z.of_nat (length (LabelSource.read_labels
                      (default EmptyString
                         (files st !! Decode.named w txt)))) <= INT_MAX ->
  (forall f, Decode.conversion_ok (Decode.sws_of w f) = true) ->
  let E := Trace.events_since st
             (snd (Decode.decode_video_to_images w video txt dir st)) in
  let labels :=
    LabelSource.read_labels
      (default EmptyString (files st !! Decode.named w txt)) in
  Trace.assignment E
  = imap (fun i label => (i, Decode.jpg_path dir label))
      (take (Nat.min (length (Trace.received E)) (length labels)) labels).
Proof.
  intros Hfit Hconv E labels. subst E labels.
  destruct (run_trace w video txt dir st)
    as (C & E & -> & HC1 & HC2 & _ & Hm).
  assert (forall n, Trace.assignment_from n C = []) as HC.
  { clear - HC1 HC2. induction C as [|e C IH]; intros n; [reflexivity|].
    destruct e; cbn in *; try discriminate; auto. }
  unfold Trace.assignment. cbn [Trace.assignment_from Trace.received].
  rewrite assignment_from_app, HC, received_app, HC1. cbn [app length].
  rewrite Nat.add_0_l.
  destruct (fst (Decode.prepare w video txt dir st)) as [[[[j vsi] v]|]|].
  - destruct Hm as (_ & Hd & Hl & st1 & _ & _ & _ & HE).
    rewrite <- Hl in Hfit.
    destruct (decode_loop_in_line w j Hfit Hconv vsi v st1)
      as (E' & HE' & _ & Has).
    rewrite HE in HE'. apply app_inv_head in HE'. subst E'.
    rewrite <- Hd, <- Hl. exact Has.
  - destruct Hm as (-> & _). reflexivity.
  - destruct Hm as (-> & _). reflexivity.
Qed.

(** Every call of the encoder fails, and the two frames still meet the
    two labels in order. *)
Lemma encoder_failures_keep_the_alignment_witness :
  Trace.assignment
    (Trace.events_since (Examples.disk Examples.labels_a_b)
       (snd (Examples.run Examples.failing_encoder_world Examples.labels_a_b)))
  = [(0%nat, "out/a.jpg"); (1%nat, "out/b.jpg")]
  /\ Trace.fopens
       (Trace.events_since (Examples.disk Examples.labels_a_b)
          (snd (Examples.run Examples.failing_encoder_world
                  Examples.labels_a_b)))
     = [].
Proof.
  split; [|reflexivity].
  unfold Examples.run.
  rewrite (encoder_failures_keep_the_alignment Examples.failing_encoder_world
             "v.mp4" "v.txt" "out" (Examples.disk Examples.labels_a_b)).
  - reflexivity.
  - vm_compute. discriminate.
  - reflexivity.
Defined.

(** ** Streams that need no conversion *)

Section AcceptedStream.

Import Jpeg Decode Trace Reading.

Variable w : World.
Variable j : Job.

Hypothesis no_context : sws_ctx j = false.

(** Nothing was converted, every call of the encoder was given the frame
    just received, and the frames given are the first frames received. *)
Definition unchanged (l : Locals) (E : list event) : Prop :=
  conversions E = []
  /\ Forall (fun c => fst c = Some (snd c)) (handed E)
  /\ map fst (saved E) = take (length (saved E)) (received E)
  /\ (length (saved E) = length (received E) \/ has_label j l = false).

Lemma unchanged_length l E :
  unchanged l E -> (length (saved E) <= length (received E))%nat.
Proof.
  intros (_ & _ & HS & _). apply (f_equal length) in HS.
  rewrite length_map, length_take in HS. lia.
Qed.

Lemma unchanged_skip l l' E M :
  unchanged l E -> has_label j l' = has_label j l ->
  saved M = [] -> received M = [] -> conversions M = [] ->
  (forall last, handed_from last M = []) ->
  unchanged l' (E ++ M).
Proof.
  intros (HC & HH & HS & Hd) Hl Ms Mr Mc Mh. unfold unchanged, handed in *.
  rewrite conversions_app, handed_from_app, saved_app, received_app.
  rewrite HC, Ms, Mr, Mc, Mh, !app_nil_r, Hl. auto.
Qed.

Lemma unchanged_drop l E f C :
  unchanged l E -> has_label j l = false -> C = [Unref f] \/ C = [] ->
  unchanged l (E ++ Received f :: C).
Proof.
  intros HU Hl HC. pose proof (unchanged_length l E HU) as Hle.
  destruct HU as (Hc & HH & HS & Hd). unfold unchanged, handed in *.
  rewrite conversions_app, handed_from_app, saved_app, received_app.
  destruct HC as [-> | ->]; cbn; rewrite Hc, !app_nil_r;
    rewrite take_app_le by lia; auto.
Qed.

Lemma unchanged_call l l' E f p M :
  unchanged l E -> has_label j l = true ->
  saved M = [] -> received M = [] -> conversions M = [] ->
  (forall last, handed_from last M = []) ->
  unchanged l' (E ++ Received f :: SaveFrame f p :: M).
Proof.
  intros (HC & HH & HS & Hd) Hl Ms Mr Mc Mh.
  destruct Hd as [Hlen | Hno]; [|congruence].
  rewrite Hlen, take_ge in HS by lia.
  unfold unchanged, handed in *.
  rewrite conversions_app, handed_from_app, saved_app, received_app.
  cbn. rewrite HC, Ms, Mr, Mc, Mh, map_app, HS, !length_app. cbn.
  rewrite Hlen, take_ge by (rewrite length_app; cbn; lia).
  repeat split; auto.
  apply Forall_app. split; [assumption|]. repeat constructor.
Qed.

Lemma write_report_silent a last :
  received (write_report a) = [] /\ saved (write_report a) = []
  /\ conversions (write_report a) = []
  /\ handed_from last (write_report a) = [].
Proof.
  destruct (write_report_cases a) as [-> | (n & k & ->)]; cbn; auto.
Qed.

Lemma decode_loop_unchanged vsi v st :
  exists E, out (snd (decode_loop w j vsi v st)) = out st ++ E
    /\ unchanged (fst (decode_loop w j vsi v st)) E.
Proof.
  destruct (decode_loop_trace w j (fun l _ E => unchanged l E)) with
    (vsi := vsi) (v := v) (st := st) as (E & HE & _ & HQ);
    [ | | | | | | eauto].
  - intros l F E ret HU. apply (unchanged_skip l); auto.
  - intros l F E f C. apply unchanged_drop.
  - intros l F E f B m _ _ Hs. congruence.
  - intros l F E f g B HU Hl _ [[-> ->] | (Hs & _)] _; [|congruence].
    cbn [app].
    destruct (write_report_silent (jpeg_of w f (output_path j l)) None)
      as (H1 & H2 & H3 & _).
    apply (unchanged_call l); auto.
    intros last. cbn.
    now destruct (write_report_silent (jpeg_of w f (output_path j l)) last)
      as (_ & _ & _ & ->).
  - intros l F E f g B m HU Hl _ [[-> ->] | (Hs & _)] _ _ _; [|congruence].
    cbn [app]. apply (unchanged_call l); auto.
  - unfold unchanged. cbn. repeat split; auto.
Qed.

End AcceptedStream.

(** X21: in a stream whose codec context has a pixel format the encoder
    accepts, frames reach the encoder as the decoder gave them.  The run
    builds no conversion context, allocates no copy and converts
    nothing; every call of the encoder is given the frame just received;
    and the frames given are the first min(K, L) frames received, K the
    number of frames received and L the number of labels. *)
Theorem accepted_stream_is_passed_unchanged w video txt dir st j vsi v st1 :
  Decode.prepare w video txt dir st = (Returned (Some (j, vsi, v)), st1) ->
  Decode.encoder_accepts (Decode.pix_fmt v) = true ->
  Z.of_nat (length (Decode.frame_indices j)) <= INT_MAX ->
  let E := Trace.events_since st
             (snd (Decode.decode_video_to_images w video txt dir st)) in
  Trace.conversions E = []
  /\ Forall (fun c => fst c = Some (snd c)) (Trace.handed E)
  /\ map fst (Trace.saved E)
     = take (Nat.min (length (Trace.received E))
                     (length (Decode.frame_indices j)))
         (Trace.received E).
Proof.
  intros Hprep Hacc Hfit E.
  destruct (prepare_some _ _ _ _ _ _ _ _ _ Hprep) as (_ & _ & Hsws & _).
  assert (Decode.sws_ctx j = false) as Hs by (now rewrite Hsws, Hacc).
  destruct (decode_loop_unchanged w j Hs vsi v st1)
    as (E' & HE' & HC & HH & HS & Hd).
  destruct (decode_loop_paths w j vsi v st1)
    as (E2 & HE2 & K1 & _ & _ & K2 & K3 & _).
  rewrite HE' in HE2. apply app_inv_head in HE2. subst E2.
  subst E. rewrite (run_events _ _ _ _ _ _ _ _ _ _ Hprep HE'), Hs.
  unfold Trace.handed. cbn.
  split; [assumption|]. split; [assumption|].
  rewrite HS. f_equal.
  destruct Hd as [Hlen | Hno]; [lia|].
  rewrite (has_label_lt j _ _ Hfit K1) in Hno.
  apply bool_decide_eq_false in Hno. lia.
Qed.

Lemma accepted_stream_is_passed_unchanged_witness :
  map fst (Trace.saved
             (Trace.events_since (Examples.disk Examples.labels_a_b)
                (snd (Examples.run Examples.held_back_world
                        Examples.labels_a_b))))
  = [Examples.yuv 1; Examples.yuv 2].
Proof.
  unfold Examples.run.
  edestruct (accepted_stream_is_passed_unchanged Examples.held_back_world
               "v.mp4" "v.txt" "out" (Examples.disk Examples.labels_a_b))
    as (_ & _ & H).
  - vm_compute. reflexivity.
  - reflexivity.
  - vm_compute. discriminate.
  - rewrite H. vm_compute. reflexivity.
Defined.

(** ** Two runs on the same video and labels *)

Section TwoRuns.

Import Jpeg Decode Trace.

Lemma silent_view B :
  forallb (fun e => quiet e || is_conversion e) B = true -> view B = [].
Proof.
  induction B as [|e B IH]; [reflexivity|]; simpl; intros H.
  apply andb_true_iff in H as [He HB].
  destruct e; try discriminate; simpl; now apply IH.
Qed.

(** Two worlds that convert alike; their encoders may differ. *)
Variables w1 w2 : World.
Variable j : Job.
Hypothesis same_sws : forall f, sws_of w1 f = sws_of w2 f.

(** The states the two loops started in. *)
Variables a1 a2 : State.

(** The two runs have the label cursor at the same place and have shown
    the same frames and encoder calls. *)
Definition in_step (l1 : Locals) (s1 : State) (l2 : Locals) (s2 : State)
    : Prop :=
  frame_count l1 = frame_count l2
  /\ exists E1 E2, out s1 = out a1 ++ E1 /\ out s2 = out a2 ++ E2
       /\ view E1 = view E2.

Lemma in_step_extend l1 s1 l2 s2 l1' s1' l2' s2' C1 C2 :
  in_step l1 s1 l2 s2 ->
  out s1' = out s1 ++ C1 -> out s2' = out s2 ++ C2 ->
  view C1 = view C2 -> frame_count l1' = frame_count l2' ->
  in_step l1' s1' l2' s2'.
Proof.
  intros (_ & E1 & E2 & H1 & H2 & HV) Ho1 Ho2 HC Hfc.
  split; [assumption|]. exists (E1 ++ C1), (E2 ++ C2).
  rewrite Ho1, Ho2, H1, H2, <- !app_assoc, !view_app, HV, HC. auto.
Qed.

Lemma save_in_step f l1 s1 l2 s2 C1 C2 b1 b2 :
  in_step l1 s1 l2 s2 ->
  out b1 = out s1 ++ C1 -> out b2 = out s2 ++ C2 -> view C1 = view C2 ->
  in_step (fst (save w1 j f l1 b1)) (snd (save w1 j f l1 b1))
          (fst (save w2 j f l2 b2)) (snd (save w2 j f l2 b2)).
Proof.
  intros HR Ho1 Ho2 HC. pose proof HR as (Hfc & _).
  destruct (save_spec w1 j f l1 b1) as (B1 & HB1 & Hout1 & Hn1).
  destruct (save_spec w2 j f l2 b2) as (B2 & HB2 & Hout2 & Hn2).
  apply (in_step_extend l1 s1 l2 s2 _ _ _ _
           (C1 ++ SaveFrame f (output_path j l1) :: B1)
           (C2 ++ SaveFrame f (output_path j l2) :: B2)); try assumption.
  - rewrite Hout1, Ho1, <- app_assoc. reflexivity.
  - rewrite Hout2, Ho2, <- app_assoc. reflexivity.
  - rewrite !view_app, HC. cbn.
    rewrite (quiet_view B1 HB1), (quiet_view B2 HB2).
    now rewrite (output_path_cursor j l1 l2 Hfc).
  - lia.
Qed.

Lemma frame_body_in_step f l1 s1 l2 s2 c1 l1' s1' c2 l2' s2' :
  in_step l1 s1 l2 s2 ->
  frame_body w1 j f l1 (emit (Received f) s1) = (c1, l1', s1') ->
  frame_body w2 j f l2 (emit (Received f) s2) = (c2, l2', s2') ->
  c1 = c2 /\ in_step l1' s1' l2' s2'.
Proof.
  intros HR Hb1 Hb2. pose proof HR as (Hfc & _).
  pose proof (has_label_cursor j l1 l2 Hfc) as Hlab.
  destruct (frame_body_cases w1 j f l1 (emit (Received f) s1))
    as [(Hl1 & Hc1) | [(Hl1 & Hs1 & Hk1 & B1 & HB1 & Hc1) | (Hl1 & Hk1 & Hc1)]];
  destruct (frame_body_cases w2 j f l2 (emit (Received f) s2))
    as [(Hl2 & Hc2) | [(Hl2 & Hs2 & Hk2 & B2 & HB2 & Hc2) | (Hl2 & Hk2 & Hc2)]];
    try congruence;
    try (rewrite same_sws in Hk1; specialize (Hk1 Hs2); congruence);
    try (rewrite same_sws in Hk1; specialize (Hk2 Hs1); congruence);
    rewrite Hc1 in Hb1; rewrite Hc2 in Hb2;
    injection Hb1 as <- <- <-; injection Hb2 as <- <- <-;
    (split; [reflexivity|]).
  - apply (in_step_extend l1 s1 l2 s2 _ _ _ _
             [Received f; Unref f] [Received f; Unref f]); try assumption;
      cbn [emit out]; rewrite <- ?app_assoc; reflexivity.
  - apply (in_step_extend l1 s1 l2 s2 _ _ _ _
             (Received f :: B1) (Received f :: B2)); try assumption;
      cbn [emit out fail frame_count]; rewrite <- ?app_assoc;
      try reflexivity.
    cbn. now rewrite (silent_view B1 HB1), (silent_view B2 HB2).
  - assert (output_frame w1 j f = output_frame w2 j f) as Hof
      by (unfold output_frame; now rewrite same_sws).
    rewrite Hof.
    apply (save_in_step _ l1 s1 l2 s2
             (Received f :: if sws_ctx j then [ConvertedFrameAlloc; SwsScale f]
                            else [])
             (Received f :: if sws_ctx j then [ConvertedFrameAlloc; SwsScale f]
                            else [])); try assumption;
      try (rewrite after_conversion_out; cbn [emit out];
           rewrite <- app_assoc; reflexivity).
    reflexivity.
Qed.

Lemma receive_frames_in_step answers l1 s1 l2 s2 r1 l1' s1' r2 l2' s2' :
  in_step l1 s1 l2 s2 ->
  receive_frames w1 j answers l1 s1 = (r1, l1', s1') ->
  receive_frames w2 j answers l2 s2 = (r2, l2', s2') ->
  r1 = r2 /\ in_step l1' s1' l2' s2'.
Proof.
  revert l1 s1 l2 s2.
  induction answers as [|r answers IH]; intros l1 s1 l2 s2 HR H1 H2.
  - simpl in H1, H2. injection H1 as <- <- <-. injection H2 as <- <- <-. auto.
  - simpl in H1, H2.
    destruct ((receive_ret r =? AVERROR_EAGAIN) || (receive_ret r =? AVERROR_EOF)).
    { injection H1 as <- <- <-. injection H2 as <- <- <-. auto. }
    destruct (receive_ret r <? 0).
    { injection H1 as <- <- <-. injection H2 as <- <- <-.
      split; [reflexivity|]. pose proof HR as (Hfc & _).
      apply (in_step_extend l1 s1 l2 s2 _ _ _ _
               [Cerr (ReceiveFrameFailed (receive_ret r))]
               [Cerr (ReceiveFrameFailed (receive_ret r))]); auto. }
    destruct (frame_body w1 _ _ _ _) as [[c1 m1] t1] eqn:Hb1.
    destruct (frame_body w2 _ _ _ _) as [[c2 m2] t2] eqn:Hb2.
    destruct (frame_body_in_step _ _ _ _ _ _ _ _ _ _ _ HR Hb1 Hb2) as [<- HR'].
    destruct c1.
    + eapply IH; eauto.
    + injection H1 as <- <- <-. injection H2 as <- <- <-. auto.
Qed.

Lemma read_packets_in_step vsi pkts answers l1 s1 l2 s2 r1 l1' s1' r2 l2' s2' :
  in_step l1 s1 l2 s2 ->
  read_packets w1 j vsi pkts answers l1 s1 = (r1, l1', s1') ->
  read_packets w2 j vsi pkts answers l2 s2 = (r2, l2', s2') ->
  r1 = r2 /\ in_step l1' s1' l2' s2'.
Proof.
  revert answers l1 s1 l2 s2.
  induction pkts as [|p pkts IH]; intros answers l1 s1 l2 s2 HR H1 H2.
  - simpl in H1, H2. injection H1 as <- <- <-. injection H2 as <- <- <-. auto.
  - simpl in H1, H2. destruct (stream_index p =? vsi); [|eauto].
    destruct (send_packet_ret p <? 0); [eauto|].
    destruct (receive_frames w1 j answers l1 s1) as [[x1 m1] t1] eqn:Hr1.
    destruct (receive_frames w2 j answers l2 s2) as [[x2 m2] t2] eqn:Hr2.
    destruct (receive_frames_in_step _ _ _ _ _ _ _ _ _ _ _ HR Hr1 Hr2)
      as [<- HR'].
    eauto.
Qed.

Lemma flush_frames_in_step answers l1 s1 l2 s2 :
  in_step l1 s1 l2 s2 ->
  in_step (fst (flush_frames w1 j answers l1 s1))
          (snd (flush_frames w1 j answers l1 s1))
          (fst (flush_frames w2 j answers l2 s2))
          (snd (flush_frames w2 j answers l2 s2)).
Proof.
  revert l1 s1 l2 s2.
  induction answers as [|r answers IH]; intros l1 s1 l2 s2 HR; [assumption|].
  simpl. destruct (receive_ret r >=? 0); [|assumption].
  pose proof HR as (Hfc & _).
  rewrite <- (has_label_cursor j l1 l2 Hfc).
  destruct (has_label j l1).
  - pose proof (save_in_step (received_frame r) l1 s1 l2 s2
                  [Received (received_frame r)] [Received (received_frame r)]
                  (emit (Received (received_frame r)) s1)
                  (emit (Received (received_frame r)) s2)
                  HR eq_refl eq_refl eq_refl) as HR'.
    destruct (save w1 _ _ _ _) as [m1 t1].
    destruct (save w2 _ _ _ _) as [m2 t2]. now apply IH.
  - apply IH.
    apply (in_step_extend l1 s1 l2 s2 _ _ _ _
             [Received (received_frame r)] [Received (received_frame r)]);
      auto.
Qed.

Lemma decode_loop_in_step vsi v :
  in_step (fst (decode_loop w1 j vsi v a1)) (snd (decode_loop w1 j vsi v a1))
          (fst (decode_loop w2 j vsi v a2)) (snd (decode_loop w2 j vsi v a2)).
Proof.
  unfold decode_loop.
  destruct (read_packets w1 _ _ _ _ _ _) as [[x1 m1] t1] eqn:H1.
  destruct (read_packets w2 _ _ _ _ _ _) as [[x2 m2] t2] eqn:H2.
  assert (in_step initial a1 initial a2) as HR.
  { split; [reflexivity|]. exists [], []. now rewrite !app_nil_r. }
  destruct (read_packets_in_step _ _ _ _ _ _ _ _ _ _ _ _ _ HR H1 H2) as [<- HR'].
  now apply flush_frames_in_step.
Qed.

End TwoRuns.

Lemma labelled_from_view last E :
  Trace.labelled_from last E = Trace.labelled_from last (Trace.view E).
Proof.
  revert last. induction E as [|e E IH]; intros last; [reflexivity|].
  destruct e; simpl; rewrite ?IH; reflexivity.
Qed.

(** X20: what decides the assignment.  Two runs reach the decode loop on
    the same video and the same labels, and their conversions fail or
    work alike.  Then, whatever the file system held before each run and
    whatever the encoder does in each, both runs hand the same frames to
    the encoder under the same paths: the frame at each position of the
    decode-emission order is saved under the same label. *)
Theorem same_conversions_same_assignment
    w1 w2 video txt dir st1 st2 j1 j2 vsi1 vsi2 v1 v2 s1 s2 :
  Decode.prepare w1 video txt dir st1 = (Returned (Some (j1, vsi1, v1)), s1) ->
  Decode.prepare w2 video txt dir st2 = (Returned (Some (j2, vsi2, v2)), s2) ->
  Decode.video_of w1 video = Decode.video_of w2 video ->
  (forall f, Decode.sws_of w1 f = Decode.sws_of w2 f) ->
  Decode.frame_indices j1 = Decode.frame_indices j2 ->
  Trace.assignment
    (Trace.events_since st1
       (snd (Decode.decode_video_to_images w1 video txt dir st1)))
  = Trace.assignment
      (Trace.events_since st2
         (snd (Decode.decode_video_to_images w2 video txt dir st2)))
  /\ Trace.labelled
       (Trace.events_since st1
          (snd (Decode.decode_video_to_images w1 video txt dir st1)))
     = Trace.labelled
         (Trace.events_since st2
            (snd (Decode.decode_video_to_images w2 video txt dir st2))).
Proof.
  intros Hp1 Hp2 Hv Hsws Hlab.
  destruct (prepare_some _ _ _ _ _ _ _ _ _ Hp1)
    as (Hd1 & _ & Hc1 & Hv1 & Hi1 & _).
  destruct (prepare_some _ _ _ _ _ _ _ _ _ Hp2)
    as (Hd2 & _ & Hc2 & Hv2 & Hi2 & _).
  assert (v1 = v2) as <- by congruence.
  assert (vsi1 = vsi2) as <- by congruence.
  assert (j1 = j2) as <-.
  { destruct j1, j2. cbn in *. congruence. }
  destruct (decode_loop_in_step w1 w2 j1 Hsws s1 s2 vsi1 v1)
    as (_ & E1 & E2 & HE1 & HE2 & HV).
  rewrite (run_events _ _ _ _ _ _ _ _ _ _ Hp1 HE1).
  rewrite (run_events _ _ _ _ _ _ _ _ _ _ Hp2 HE2).
  unfold Trace.assignment, Trace.labelled.
  rewrite (assignment_from_view _ (_ ++ E1)), (assignment_from_view _ (_ ++ E2)).
  rewrite (labelled_from_view _ (_ ++ E1)), (labelled_from_view _ (_ ++ E2)).
  rewrite !view_app, HV. split; reflexivity.
Qed.

(** The same job run twice: the second run starts on the files the first
    one left, and its encoder fails on every frame. *)
Lemma same_conversions_same_assignment_witness :
  Trace.assignment
    (Trace.events_since (Examples.disk Examples.labels_a_b)
       (snd (Examples.run Examples.plain_world Examples.labels_a_b)))
  = Trace.assignment
      (Trace.events_since
         (snd (Examples.run Examples.plain_world Examples.labels_a_b))
         (snd (Decode.decode_video_to_images Examples.failing_encoder_world
                 "v.mp4" "v.txt" "out"
                 (snd (Examples.run Examples.plain_world Examples.labels_a_b))))).
Proof.
  unfold Examples.run.
  eapply (same_conversions_same_assignment
            Examples.plain_world Examples.failing_encoder_world).
  - vm_compute. reflexivity.
  - vm_compute. reflexivity.
  - reflexivity.
  - reflexivity.
  - reflexivity.
Defined.

(** ** The batch when nothing throws *)

Section BatchFacts.

Import Jpeg Decode Main Batch Trace Reading.

Variable w : World.

Lemma conversion_invocations B :
  forallb is_conversion B = true -> invocations B = [].
Proof.
  induction B as [|e B IH]; [reflexivity|]; simpl; intros H.
  apply andb_true_iff in H as [He HB].
  destruct e; try discriminate; simpl; now apply IH.
Qed.

(** The decode loop calls the pipeline no further. *)
Lemma decode_loop_no_call j vsi v st :
  exists E, out (snd (decode_loop w j vsi v st)) = out st ++ E
    /\ invocations E = [].
Proof.
  destruct (decode_loop_trace w j (fun _ _ E => invocations E = [])) with
    (vsi := vsi) (v := v) (st := st) as (E & HE & _ & HQ);
    [ | | | | | | eauto].
  - intros l F E ret H. now rewrite invocations_app, H.
  - intros l F E f C H _ HC. rewrite invocations_app, H.
    destruct HC as [-> | ->]; reflexivity.
  - intros l F E f B m H _ _ _ HB _ _.
    rewrite invocations_app, H. cbn.
    now rewrite invocations_app, (conversion_invocations B HB).
  - intros l F E f g B H _ HB _ _.
    rewrite invocations_app, H. cbn.
    rewrite invocations_app, (conversion_invocations B HB). cbn.
    destruct (write_report_cases (jpeg_of w g (output_path j l)))
      as [-> | (n & k & ->)]; reflexivity.
  - intros l F E f g B m H _ HB _ _ _ _.
    rewrite invocations_app, H. cbn.
    now rewrite invocations_app, (conversion_invocations B HB).
  - reflexivity.
Qed.

(** A call of the pipeline shows in the trace exactly once. *)
Lemma decode_video_to_images_called video txt dir st :
  exists C, out (snd (decode_video_to_images w video txt dir st)) = out st ++ C
    /\ invocations C = [(video, txt, dir)].
Proof.
  destruct (prepare_cases w video txt dir st)
    as (_ & _ & _ & _ & C & HC & _ & _ & _ & HI & _).
  destruct (run_cases w video txt dir st)
    as [(st1 & Hp & Hr) | [(st1 & Hp & Hr) | (j & vsi & v & st1 & Hp & Hr)]];
    rewrite Hp in *; rewrite Hr; cbn [fst snd] in *.
  - exists (Pipeline video txt dir :: C). cbn. now rewrite HI.
  - exists (Pipeline video txt dir :: C). cbn. now rewrite HI.
  - destruct (decode_loop_no_call j vsi v st1) as (E & HE & HIE).
    exists ((Pipeline video txt dir :: C) ++ E).
    rewrite HE, HC, <- !app_assoc. split; [reflexivity|].
    rewrite invocations_app. cbn. now rewrite HI, HIE.
Qed.

Hypothesis nothing_throws : never_throws w.

Lemma fs_exists_call_answers p st :
  fs_exists_call w p st = Returned (fs_exists (named w p) st).
Proof.
  unfold fs_exists_call. destruct (fs_exists (named w p) st); [reflexivity|].
  destruct (nothing_throws p) as [-> | ->]; reflexivity.
Qed.

Lemma cannot_provide_dir_answers dir st :
  exists no_dir, fst (cannot_provide_dir w dir st) = Returned no_dir.
Proof.
  unfold cannot_provide_dir, create_directories.
  rewrite fs_exists_call_answers.
  destruct (fs_exists (named w dir) st); [eauto|].
  destruct (nothing_throws dir) as [-> | ->]; eauto.
Qed.

Lemma decode_video_to_images_answers video txt dir st :
  exists ok, fst (decode_video_to_images w video txt dir st) = Returned ok.
Proof.
  unfold decode_video_to_images, prepare.
  destruct (cannot_provide_dir_answers dir (emit (Pipeline video txt dir) st))
    as (no_dir & Hd).
  destruct (cannot_provide_dir w dir _) as [o st0]. cbn [fst] in Hd. subst o.
  destruct no_dir; [eauto|].
  rewrite fs_exists_call_answers.
  destruct (fs_exists (named w txt) st0); [|eauto].
  destruct (negb (ifstream_open_ok w txt)); [eauto|].
  rewrite fs_exists_call_answers.
  destruct (fs_exists (named w video) st0); [|eauto].
  destruct (open_video w video dir _ st0) as [[[[j vsi] v]|] s1]; [|eauto].
  destruct (decode_loop w j vsi v s1). eauto.
Qed.

(** One round of the loop over the cameras: the flag becomes the AND of
    its old value and the outcome of the job; the state it leaves does
    not depend on the flag; the pipeline is called if and only if the
    preconditions of the job hold. *)
Lemma camera_body_spec prefix b st :
  fst (camera_body w prefix b st) = Returned (b && job_outcome w prefix st)
  /\ snd (camera_body w prefix b st) = after_job w prefix st
  /\ exists C, out (after_job w prefix st) = out st ++ C
       /\ invocations C
          = if preconditions_hold w prefix st
            then [(video_path prefix, txt_path prefix, output_dir prefix)]
            else [].
Proof.
  unfold after_job, camera_body, job_outcome, preconditions_hold.
  rewrite !fs_exists_call_answers.
  destruct (fs_exists (named w (video_path prefix)) st);
    cbn [returned_true andb].
  2:{ rewrite andb_false_r. repeat split.
      exists [Cerr (MainVideoMissing (video_path prefix))]. auto. }
  destruct (fs_exists (named w (txt_path prefix)) st);
    cbn [returned_true andb].
  2:{ rewrite andb_false_r. repeat split.
      exists [Cerr (MainIndexMissing (txt_path prefix))]. auto. }
  destruct (cannot_provide_dir_state w (output_dir prefix) st)
    as (_ & Ho & _).
  destruct (cannot_provide_dir_answers (output_dir prefix) st) as (no_dir & Hd).
  destruct (cannot_provide_dir w (output_dir prefix) st) as [o st0].
  cbn [fst snd] in *. subst o. destruct no_dir; cbn [andb].
  { rewrite andb_false_r. repeat split.
    exists [Cerr (MainOutputDirFailed (output_dir prefix))].
    cbn [fst snd emit out]. now rewrite Ho. }
  destruct (decode_video_to_images_called (video_path prefix) (txt_path prefix)
              (output_dir prefix) st0) as (C & HC & HI).
  destruct (decode_video_to_images_answers (video_path prefix)
              (txt_path prefix) (output_dir prefix) st0) as (ok & Hok).
  destruct (decode_video_to_images w _ _ _ st0) as [o st1].
  cbn [fst snd] in *. subst o. destruct ok; cbn [returned_true fst snd].
  - rewrite andb_true_r. repeat split. exists C. rewrite HC, Ho. auto.
  - rewrite andb_false_r. repeat split.
    exists (C ++ [Cerr (ProcessingFailed prefix)]).
    cbn [emit out]. rewrite HC, Ho, <- app_assoc, invocations_app, HI. auto.
Qed.

Lemma camera_loop_spec cams b st :
  fst (camera_loop w cams b st)
  = Returned (b && forallb id (outcomes w cams st))
  /\ exists E, out (snd (camera_loop w cams b st)) = out st ++ E
       /\ invocations E = due_calls w cams st.
Proof.
  revert b st. induction cams as [|prefix cams IH]; intros b st.
  - cbn. rewrite andb_true_r. split; [reflexivity|].
    exists []. now rewrite app_nil_r.
  - cbn [camera_loop outcomes due_calls forallb].
    destruct (camera_body_spec prefix b st) as (Hf & Hs & C & HC & HI).
    destruct (camera_body w prefix b st) as [o st']. cbn [fst snd] in *.
    subst o st'.
    destruct (IH (b && job_outcome w prefix st) (after_job w prefix st))
      as (Hf' & E & HE & HIE).
    split.
    + rewrite Hf'. unfold id at 2. now rewrite andb_assoc.
    + exists (C ++ E). rewrite HE, HC, <- app_assoc, invocations_app, HI, HIE.
      auto.
Qed.

End BatchFacts.

(** X22: the batch as long as no call of std::filesystem throws.  The
    flag [all_success] that the loop over the cameras leaves is the AND
    of the outcomes of all jobs.  Every job is taken up, whatever the
    jobs before it did: each has an outcome, and the pipeline is called
    once for each job whose preconditions hold, in the order of the jobs,
    and for no other. *)
Theorem batch_without_exceptions w cams st :
  Batch.never_throws w ->
  fst (Main.camera_loop w cams true st)
  = Returned (forallb id (Batch.outcomes w cams st))
  /\ length (Batch.outcomes w cams st) = length cams
  /\ Trace.invocations
       (Trace.events_since st (snd (Main.camera_loop w cams true st)))
     = Batch.due_calls w cams st.
Proof.
  intros Hnever.
  destruct (camera_loop_spec w Hnever cams true st) as (Hf & E & HE & HI).
  split; [exact Hf|]. split.
  - clear. revert st. induction cams as [|c cams IH]; intros st; cbn; auto.
  - now rewrite (events_since_app _ _ _ HE).
Qed.

(** A batch of two cameras in which the first job lacks its video: the
    flag ends false, and the pipeline still runs for the second job. *)
Lemma batch_without_exceptions_witness :
  fst (Main.camera_loop Examples.plain_world ["front"; "rear"] true
         Examples.batch_disk) = Returned false
  /\ Trace.invocations
       (Trace.events_since Examples.batch_disk
          (snd (Main.camera_loop Examples.plain_world ["front"; "rear"] true
                  Examples.batch_disk)))
     = [(Main.video_path "rear", Main.txt_path "rear", Main.output_dir "rear")].
Proof.
  destruct (batch_without_exceptions Examples.plain_world ["front"; "rear"]
              Examples.batch_disk) as (H1 & _ & H2).
  - intros p. left. reflexivity.
  - rewrite H1, H2. vm_compute. split; reflexivity.
Defined.
